(** * Order-flow footprint charts: aggregation and bucketing, verified

    A shallow embedding of the trade-to-candle aggregator
    ([BybitConnector]), of the historical backfill, of the mock history
    generator and of the footprint overlay's level bucketing and
    imbalance test.

    Numbers.  The program computes on JavaScript numbers.  A number is
    kept as the rational it denotes ([Q]); [Math.round], [Math.floor],
    [Math.ceil], [Math.max], [Math.min] and [toFixed(1)] are exact
    functions of it.  The arithmetic comes twice.  [Module Bybit] and
    the modules after it add, multiply and divide exactly, which is what
    the program does as long as its sums and products are representable.
    [Module Double] gives the connector's aggregation and backfill again
    with every operation rounded to binary64 ([Module Binary64]); the
    properties whose truth depends on the rounding are stated over it.
    [NaN] and the infinities do not occur: [parseFloat] is taken to have
    succeeded, and the modelled code divides by a value that can be zero
    nowhere.  Equality of numbers is [Qeq] ([==]).

    Randomness.  [Math.random()] is a stream [rng : nat -> Q] of draws;
    the functions that draw thread the index of the next draw.

    Revision.  The connector is modelled in its current revision (price
    step 0.5, timeframes from one minute to one month), the one the page
    constructs with the symbol BTCUSD. *)

From Stdlib Require Import ZArith QArith Qround Qabs Qpower List String Bool Lia Lqa.
From Stdlib Require Import SetoidList Sorted Permutation DecimalString.
Import ListNotations.

Open Scope Q_scope.

(** ** JavaScript number helpers *)

Module JS.

(** [Math.round]: nearest integer, ties towards plus infinity. *)
Definition Math_round (x : Q) : Q := inject_Z (Qfloor (x + (1 # 2))).

Definition Math_floor (x : Q) : Z := Qfloor x.

Definition Math_ceil (x : Q) : Z := Qceiling x.

Definition Math_max (a b : Q) : Q := if Qle_bool a b then b else a.

Definition Math_min (a b : Q) : Q := if Qle_bool a b then a else b.

(** [Number(x.toFixed(1))]: the multiple of one tenth nearest to [x]; of
    two equally near ones the larger in magnitude. *)
Definition toFixed1 (x : Q) : Q :=
  if Qle_bool 0 x
  then inject_Z (Qfloor (x * 10 + (1 # 2))) / 10
  else - (inject_Z (Qfloor ((- x) * 10 + (1 # 2))) / 10).

(** [x || 0] on an optional number: [undefined] and [0] both give [0]. *)
Definition orZero (x : option Q) : Q :=
  match x with
  | Some q => if Qeq_bool q 0 then 0 else q
  | None => 0
  end.

(** A number that is a whole number. *)
Definition integral (x : Q) : Prop := x == inject_Z (Qfloor x).

End JS.

Import JS.

(** ** Data model (lib/types.ts) *)

Record BidAskLevel : Type := mkLevel {
  price : Q;
  bidVol : Q;
  askVol : Q
}.

(** The ISO string in [timestamp] is kept as the epoch milliseconds it
    prints; [cvd] is the optional field [cvd?: number]. *)
Record OrderFlowCandle : Type := mkCandle {
  timestamp : Z;
  open : Q;
  high : Q;
  low : Q;
  close : Q;
  bidAskData : list BidAskLevel;
  delta : Q;
  volume : Q;
  cvd : option Q
}.

(** ** Footprint overlay (FootprintChartSimple) *)

Module Footprint.

Inductive Imbalance : Type := bid | ask.

(** [isImbalance]: [null] is [None]. *)
Definition isImbalance (bidVol askVol : Q) : option Imbalance :=
  if Qle_bool (askVol * 3) bidVol then Some bid
  else if Qle_bool (bidVol * 3) askVol then Some ask
  else None.

(** [bucket.reduce((sum, level) => sum + level.bidVol, 0)] *)
Definition sumBid (ls : list BidAskLevel) : Q :=
  fold_left (fun sum level => sum + bidVol level) ls 0.

Definition sumAsk (ls : list BidAskLevel) : Q :=
  fold_left (fun sum level => sum + askVol level) ls 0.

Definition noLevel : BidAskLevel := mkLevel 0 0 0.

(** One aggregated row from a slice [bucket] of the sorted levels. *)
Definition aggregateBucket (bucket : list BidAskLevel) : BidAskLevel :=
  let aggregatedBidVol := sumBid bucket in
  let aggregatedAskVol := sumAsk bucket in
  let middleIndex := (length bucket / 2)%nat in
  let representativePrice := price (nth middleIndex bucket noLevel) in
  mkLevel representativePrice aggregatedBidVol aggregatedAskVol.

(** The loop [for (i = 0; i < sortedLevels.length; i += bucketSize)]:
    [rest] is [sortedLevels.slice(i)].  Each turn consumes
    [bucketSize >= 1] levels, so [length sortedLevels] turns are enough;
    [aggregateLoop_exhausts] below shows no level is left over. *)
Fixpoint aggregateLoop (turns bucketSize : nat) (rest : list BidAskLevel)
  : list BidAskLevel :=
  match turns with
  | O => []
  | S turns' =>
      match rest with
      | [] => []
      | _ :: _ =>
          aggregateBucket (firstn bucketSize rest)
            :: aggregateLoop turns' bucketSize (skipn bucketSize rest)
      end
  end.

(** Font size and row height from the candle's width in pixels. *)
Definition fontSizeOf (candleWidth : Q) : Q :=
  Math_min (Math_max (candleWidth * (15 # 100)) 7) 14.

Definition rowHeightOf (candleWidth : Q) : Q :=
  Math_max (fontSizeOf candleWidth + 4) 10.

(** [Math.floor(fullCandleHeight / rowHeight)], with
    [fullCandleHeight = Math.abs(candleBottom - candleTop)]. *)
Definition maxLevelsOf (candleTop candleBottom candleWidth : Q) : Z :=
  Math_floor (Qabs (candleBottom - candleTop) / rowHeightOf candleWidth).

(** [Math.ceil(sortedLevels.length / maxLevels)] *)
Definition bucketSizeOf (n : nat) (maxLevels : Z) : Z :=
  Math_ceil (inject_Z (Z.of_nat n) / inject_Z maxLevels).

(** The rows shown for one candle: [levelsToShow] as computed in
    [updateOverlay] from the filtered, descending [sortedLevels] and
    [maxLevels = Math.floor(fullCandleHeight / rowHeight)]. *)
Definition levelsToShow (sortedLevels : list BidAskLevel) (maxLevels : Z)
  : list BidAskLevel :=
  if ((Z.of_nat (length sortedLevels) >? maxLevels)%Z && (maxLevels >? 0)%Z)%bool
  then
    let bucketSize := bucketSizeOf (length sortedLevels) maxLevels in
    aggregateLoop (length sortedLevels) (Z.to_nat bucketSize) sortedLevels
  else sortedLevels.

(** The grouping as the specification words it: [groups] cuts [levels]
    into contiguous groups of [bucketSize] levels, in order, the last
    group holding what is left (at least one level). *)
Inductive ContiguousGroups (bucketSize : nat)
  : list BidAskLevel -> list (list BidAskLevel) -> Prop :=
  | groups_none : ContiguousGroups bucketSize [] []
  | groups_last (g : list BidAskLevel) :
      g <> [] -> (length g <= bucketSize)%nat ->
      ContiguousGroups bucketSize g [g]
  | groups_full (g rest : list BidAskLevel) (gs : list (list BidAskLevel)) :
      length g = bucketSize -> rest <> [] ->
      ContiguousGroups bucketSize rest gs ->
      ContiguousGroups bucketSize (g ++ rest) (g :: gs).


End Footprint.

(** ** Live aggregation and historical backfill (lib/bybitConnector.ts) *)

Module Bybit.

Inductive Timeframe : Type :=
  | tf_1m | tf_5m | tf_15m | tf_30m | tf_1h | tf_4h | tf_12h | tf_1d | tf_1w | tf_1M.

Definition getTimeframeMs (timeframe : Timeframe) : Z :=
  match timeframe with
  | tf_1m => 1 * 60 * 1000
  | tf_5m => 5 * 60 * 1000
  | tf_15m => 15 * 60 * 1000
  | tf_30m => 30 * 60 * 1000
  | tf_1h => 60 * 60 * 1000
  | tf_4h => 4 * 60 * 60 * 1000
  | tf_12h => 12 * 60 * 60 * 1000
  | tf_1d => 24 * 60 * 60 * 1000
  | tf_1w => 7 * 24 * 60 * 60 * 1000
  | tf_1M => 30 * 24 * 60 * 60 * 1000
  end%Z.

(** A trade of the [publicTrade] stream; [tr_p] and [tr_v] are
    [parseFloat(trade.p)] and [parseFloat(trade.v)]. *)
Record BybitTrade : Type := mkTrade {
  tr_T : Z;
  tr_S : string;
  tr_p : Q;
  tr_v : Q
}.

(** The mutable fields of the connector that aggregation reads and
    writes. *)
Record Connector : Type := mkConnector {
  currentCandle : option OrderFlowCandle;
  timeframe : Timeframe;
  candleStartTime : Z
}.

(** A call of [onCandleUpdate]: [Finalized] is the call made on
    rollover with the candle being left, [Updated] the call made after a
    trade with a copy of the open candle. *)
Inductive Emitted : Type :=
  | Finalized (c : OrderFlowCandle)
  | Updated (c : OrderFlowCandle).

(** [bidAskData.find(l => l.price === price)] *)
Definition findLevel (p : Q) (levels : list BidAskLevel) : option BidAskLevel :=
  find (fun l => Qeq_bool (price l) p) levels.

Definition addVolume (side : string) (vol : Q) (l : BidAskLevel) : BidAskLevel :=
  if String.eqb side "Buy"
  then mkLevel (price l) (bidVol l + vol) (askVol l)
  else mkLevel (price l) (bidVol l) (askVol l + vol).

(** In-place update of the level that [find] returned: the first one
    with the given price. *)
Fixpoint bumpFirst (p : Q) (vol : Q) (side : string) (levels : list BidAskLevel)
  : list BidAskLevel :=
  match levels with
  | [] => []
  | l :: rest =>
      if Qeq_bool (price l) p
      then addVolume side vol l :: rest
      else l :: bumpFirst p vol side rest
  end.

(** [updateBidAskData] on the levels of the open candle. *)
Definition updateBidAskData (p vol : Q) (side : string) (levels : list BidAskLevel)
  : list BidAskLevel :=
  match findLevel p levels with
  | None => levels ++ [addVolume side vol (mkLevel p 0 0)]
  | Some _ => bumpFirst p vol side levels
  end.

(** The two [reduce] calls of [recalculateMetrics] and
    [fetchHistoricalData]. *)
Definition sumDelta (levels : list BidAskLevel) : Q :=
  fold_left (fun sum level => sum + (bidVol level - askVol level)) levels 0.

Definition sumVolume (levels : list BidAskLevel) : Q :=
  fold_left (fun sum level => sum + bidVol level + askVol level) levels 0.

Definition recalculateMetrics (c : OrderFlowCandle) : OrderFlowCandle :=
  let d := sumDelta (bidAskData c) in
  let vol := sumVolume (bidAskData c) in
  let previousCvd := orZero (cvd c) - orZero (Some (delta c)) in
  mkCandle (timestamp c) (open c) (high c) (low c) (close c) (bidAskData c)
           (Math_round d) (Math_round vol) (Some (Math_round (previousCvd + d))).

(** "Update current candle with trade data": the body of
    [if (this.currentCandle)] up to the emission. *)
Definition applyTrade (trade : BybitTrade) (c : OrderFlowCandle) : OrderFlowCandle :=
  let p := tr_p trade in
  let roundedPrice := Math_round (p * 2) / 2 in
  recalculateMetrics
    (mkCandle (timestamp c) (open c)
              (Math_max (high c) p) (Math_min (low c) p) p
              (updateBidAskData roundedPrice (tr_v trade) (tr_S trade) (bidAskData c))
              (delta c) (volume c) (cvd c)).

(** "Start new candle". *)
Definition newCandle (currentCandleStart : Z) (trade : BybitTrade)
    (previous : option OrderFlowCandle) : OrderFlowCandle :=
  let p := tr_p trade in
  mkCandle currentCandleStart p p p p [] 0 0
           (Some (orZero (match previous with Some c => cvd c | None => None end))).

Definition bucketStart (timeframeMs tradeTime : Z) : Z :=
  (tradeTime / timeframeMs * timeframeMs)%Z.

(** The first half of the [forEach] body: the rollover test. *)
Definition rollover (st : Connector) (trade : BybitTrade) : Connector * list Emitted :=
  let timeframeMs := getTimeframeMs (timeframe st) in
  let currentCandleStart := bucketStart timeframeMs (tr_T trade) in
  if (currentCandleStart >? candleStartTime st)%Z
  then (mkConnector (Some (newCandle currentCandleStart trade (currentCandle st)))
                    (timeframe st) currentCandleStart,
        match currentCandle st with
        | Some c => [Finalized c]
        | None => []
        end)
  else (st, []).

(** The [forEach] body of [processTrades] for one trade. *)
Definition processTrade (st : Connector) (trade : BybitTrade) : Connector * list Emitted :=
  let '(st1, emitted) := rollover st trade in
  match currentCandle st1 with
  | Some c =>
      let c' := applyTrade trade c in
      (mkConnector (Some c') (timeframe st1) (candleStartTime st1),
       emitted ++ [Updated c'])
  | None => (st1, emitted)
  end.

Fixpoint processTrades (st : Connector) (trades : list BybitTrade)
  : Connector * list Emitted :=
  match trades with
  | [] => (st, [])
  | trade :: rest =>
      let '(st1, e1) := processTrade st trade in
      let '(st2, e2) := processTrades st1 rest in
      (st2, e1 ++ e2)
  end.

(** [subscribeRealtime] as far as it sets the aggregation state; [now]
    is [Date.now()]. *)
Definition subscribeRealtime (tf : Timeframe) (now : Z)
    (lastCandle : option OrderFlowCandle) : Connector :=
  mkConnector lastCandle tf (bucketStart (getTimeframeMs tf) now).

(** The candles left behind on rollover, in order. *)
Fixpoint finalized (es : list Emitted) : list OrderFlowCandle :=
  match es with
  | [] => []
  | Finalized c :: rest => c :: finalized rest
  | Updated _ :: rest => finalized rest
  end.

(** The candle sequence the aggregator has produced after a run: the
    closed candles followed by the open one. *)
Definition candlesOf (run : Connector * list Emitted) : list OrderFlowCandle :=
  finalized (snd run) ++
  match currentCandle (fst run) with
  | Some c => [c]
  | None => []
  end.

(** *** Historical backfill

    [Math.random()] is a stream [rng] of numbers in [0, 1) with the index
    [k] of the next draw threaded through the calls that consume it. *)

Definition Qgtb (a b : Q) : bool := negb (Qle_bool a b).

Definition priceStep : Q := 1 # 2.

(** [Math.max(Math.ceil(range / priceStep), 1)] *)
Definition numLevelsOf (range : Q) : Z := Z.max (Math_ceil (range / priceStep)) 1.

Definition pricePositionOf (low range p : Q) : Q :=
  if Qgtb range 0 then (p - low) / range else 1 # 2.

Definition bidRatioOf (isBullish : bool) (pricePosition : Q) : Q :=
  if isBullish
  then (4 # 10) + (1 - pricePosition) * (4 # 10)
  else (2 # 10) + (1 - pricePosition) * (4 # 10).

(** The level pushed in one turn of the loop, [random] being the draw
    made in that turn. *)
Definition approximateLevel (volumePerLevel low range : Q) (isBullish : bool)
    (p random : Q) : BidAskLevel :=
  let pricePosition := pricePositionOf low range p in
  let bidRatio := bidRatioOf isBullish pricePosition in
  let randomFactor := (8 # 10) + random * (4 # 10) in
  let bidVol := Math_round (volumePerLevel * bidRatio * randomFactor) in
  let askVol := Math_round (volumePerLevel * (1 - bidRatio) * randomFactor) in
  mkLevel p (Math_max bidVol 1) (Math_max askVol 1).

(** [for (let i = 0; i <= numLevels; i++)] from turn [i] on, [turns]
    being the turns left.  Returns the levels and the index of the next
    unused draw. *)
Fixpoint approximateLoop (turns : nat) (i : Z) (rng : nat -> Q) (k : nat)
    (volumePerLevel high low range : Q) (isBullish : bool)
  : list BidAskLevel * nat :=
  match turns with
  | O => ([], k)
  | S turns' =>
      let p := toFixed1 (low + inject_Z i * priceStep) in
      if Qgtb p high then ([], k)
      else
        let level := approximateLevel volumePerLevel low range isBullish p (rng k) in
        let '(rest, k') :=
          approximateLoop turns' (i + 1)%Z rng (Datatypes.S k)
                          volumePerLevel high low range isBullish in
        (level :: rest, k')
  end.

Definition generateApproximateBidAsk (rng : nat -> Q) (k : nat)
    (open high low close volume : Q) : list BidAskLevel * nat :=
  let range := high - low in
  let numLevels := numLevelsOf range in
  let volumePerLevel := volume / inject_Z numLevels in
  let isBullish := Qgtb close open in
  approximateLoop (Datatypes.S (Z.to_nat numLevels)) 0%Z rng k
                  volumePerLevel high low range isBullish.

(** One kline of the REST answer, its six strings parsed. *)
Record Kline : Type := mkKline {
  k_timestamp : Z;
  k_open : Q;
  k_high : Q;
  k_low : Q;
  k_close : Q;
  k_volume : Q
}.

(** The loop of [fetchHistoricalData] over the klines, oldest first,
    from the running [cumulativeDelta]. *)
Fixpoint candlesFrom (rng : nat -> Q) (k : nat) (cumulativeDelta : Q)
    (klines : list Kline) : list OrderFlowCandle :=
  match klines with
  | [] => []
  | kline :: rest =>
      let '(levels, k') :=
        generateApproximateBidAsk rng k (k_open kline) (k_high kline) (k_low kline)
                                  (k_close kline) (k_volume kline) in
      let d := sumDelta levels in
      let totalVolume := sumVolume levels in
      let cumulativeDelta' := cumulativeDelta + d in
      mkCandle (k_timestamp kline) (k_open kline) (k_high kline) (k_low kline)
               (k_close kline) levels
               (Math_round d) (Math_round totalVolume)
               (Some (Math_round cumulativeDelta'))
        :: candlesFrom rng k' cumulativeDelta' rest
  end.

(** [fetchHistoricalData] from the reversed kline list on. *)
Definition fetchHistoricalData (rng : nat -> Q) (klines : list Kline)
  : list OrderFlowCandle :=
  candlesFrom rng 0%nat 0 klines.

End Bybit.

(** ** Mock history (lib/mockDataGenerator.ts) *)

Module Mock.

Definition basePrice : Q := 105000.

Definition priceStep : Q := 10.

(** [levels.sort((a, b) => a.price - b.price)]: a stable sort, ascending
    by price. *)
Fixpoint insertByPrice (l : BidAskLevel) (sorted : list BidAskLevel)
  : list BidAskLevel :=
  match sorted with
  | [] => [l]
  | x :: rest =>
      if Qle_bool (price x) (price l)
      then x :: insertByPrice l rest
      else l :: x :: rest
  end.

Definition sortByPrice (levels : list BidAskLevel) : list BidAskLevel :=
  fold_left (fun sorted l => insertByPrice l sorted) levels [].

(** The two volumes of one level from its four draws. *)
Definition mockVolumes (r1 r2 r3 r4 : Q) : Q * Q :=
  let baseVol := inject_Z (Math_floor (r1 * 5000)) + 500 in
  let imbalanceRand := r2 in
  if Bybit.Qgtb imbalanceRand (7 # 10)
  then (baseVol * (2 + r3 * 2), baseVol * ((3 # 10) + r4 * (4 # 10)))
  else if Bybit.Qgtb (3 # 10) imbalanceRand
  then (baseVol * ((3 # 10) + r3 * (4 # 10)), baseVol * (2 + r4 * 2))
  else (baseVol * ((8 # 10) + r3 * (4 # 10)), baseVol * ((8 # 10) + r4 * (4 # 10))).

(** The loop [for (let i = 0; i <= priceRange; i++)] of
    [generateBidAskLevels]. *)
Fixpoint mockLevelsLoop (turns : nat) (i : Z) (rng : nat -> Q) (k : nat)
    (high low : Q) : list BidAskLevel * nat :=
  match turns with
  | O => ([], k)
  | S turns' =>
      let p := low + inject_Z i * priceStep in
      if Bybit.Qgtb p high then ([], k)
      else
        let '(bidVol, askVol) :=
          mockVolumes (rng k) (rng (1 + k)%nat) (rng (2 + k)%nat) (rng (3 + k)%nat) in
        let '(rest, k') :=
          mockLevelsLoop turns' (i + 1)%Z rng (4 + k)%nat high low in
        (mkLevel (Math_round p) (Math_round bidVol) (Math_round askVol) :: rest, k')
  end.

Definition generateBidAskLevels (rng : nat -> Q) (k : nat) (open high low close : Q)
  : list BidAskLevel * nat :=
  let priceRange := Math_ceil ((high - low) / priceStep) in
  let '(levels, k') :=
    mockLevelsLoop (Z.to_nat (priceRange + 1)) 0%Z rng k high low in
  (sortByPrice levels, k').

(** [generateCandle]; the candle has no [cvd] yet. *)
Definition generateCandle (rng : nat -> Q) (k : nat) (timestamp : Z) (prevClose : Q)
  : OrderFlowCandle * nat :=
  let change := (rng k - (1 # 2)) * 1000 in
  let open := prevClose in
  let close := open + change in
  let volatility := 200 + rng (1 + k)%nat * 300 in
  let high := Math_max open close + volatility in
  let low := Math_min open close - volatility in
  let '(bidAskData, k') := generateBidAskLevels rng (2 + k)%nat open high low close in
  let d := Bybit.sumDelta bidAskData in
  let vol := Bybit.sumVolume bidAskData in
  (mkCandle timestamp (Math_round open) (Math_round high) (Math_round low)
            (Math_round close) bidAskData (Math_round d) (Math_round vol) None,
   k').

(** The loop of [generateHistoricalData]: [bars] turns are left, the
    loop variable [i] being [bars - 1]; [now] is [new Date()]. *)
Fixpoint historyLoop (bars : nat) (rng : nat -> Q) (k : nat) (now intervalMs : Z)
    (currentPrice cumulativeDelta : Q) : list OrderFlowCandle :=
  match bars with
  | O => []
  | S i =>
      let '(candle, k') :=
        generateCandle rng k (now - Z.of_nat i * intervalMs)%Z currentPrice in
      let cumulativeDelta' := cumulativeDelta + delta candle in
      mkCandle (timestamp candle) (open candle) (high candle) (low candle)
               (close candle) (bidAskData candle) (delta candle) (volume candle)
               (Some cumulativeDelta')
        :: historyLoop i rng k' now intervalMs (close candle) cumulativeDelta'
  end.

Definition generateHistoricalData (rng : nat -> Q) (now : Z)
    (timeframe : Bybit.Timeframe) (barsCount : nat) : list OrderFlowCandle :=
  historyLoop barsCount rng 0%nat now (Bybit.getTimeframeMs timeframe) basePrice 0.

End Mock.

(** ** Predicates of the specification *)

Module Spec.

(** A candle's [volume] and [delta] are what [Math.round] makes of the
    sums over its levels. *)
Definition metricsFromLevels (c : OrderFlowCandle) : Prop :=
  volume c = Math_round (Bybit.sumVolume (bidAskData c)) /\
  delta c = Math_round (Bybit.sumDelta (bidAskData c)).

(** A candle's [cvd] as a consumer reads it ([candle.cvd || 0]). *)
Definition cvdOf (c : OrderFlowCandle) : Q := orZero (cvd c).

Definition noCandle : OrderFlowCandle := mkCandle 0 0 0 0 0 [] 0 0 None.

(** CVD continuity of a candle sequence, by index. *)
Definition cvdContinuous (candles : list OrderFlowCandle) : Prop :=
  forall i : nat, (0 < i < length candles)%nat ->
    cvdOf (nth i candles noCandle)
    == cvdOf (nth (i - 1) candles noCandle) + delta (nth i candles noCandle).

(** The same, link by link from the cvd [previous] before the first
    candle. *)
Fixpoint cvdChain (previous : Q) (candles : list OrderFlowCandle) : Prop :=
  match candles with
  | [] => True
  | c :: rest => cvdOf c == previous + delta c /\ cvdChain (cvdOf c) rest
  end.

(** No two levels of a candle have the same price. *)
Definition uniquePrices (levels : list BidAskLevel) : Prop :=
  NoDupA Qeq (map price levels).

Fixpoint ascendingByPrice (levels : list BidAskLevel) : bool :=
  match levels with
  | a :: (b :: _) as rest => Qle_bool (price a) (price b) && ascendingByPrice rest
  | _ => true
  end.

Fixpoint descendingByPrice (levels : list BidAskLevel) : bool :=
  match levels with
  | a :: (b :: _) as rest => Qle_bool (price b) (price a) && descendingByPrice rest
  | _ => true
  end.

(** A level whose two volumes are whole numbers. *)
Definition wholeLevel (l : BidAskLevel) : Prop :=
  integral (bidVol l) /\ integral (askVol l).

(** "Equal within rounding": the levels' total volume is off the bar's
    volume by no more than the two [Math.round] calls per level can
    account for (half a unit each). *)
Definition withinRounding (levels : list BidAskLevel) (barVolume : Q) : Prop :=
  Qabs (Bybit.sumVolume levels - barVolume) <= inject_Z (Z.of_nat (length levels)).

(** The bid ratio the backfill uses at price [p] of a bar. *)
Definition bidRatioAt (open high low close p : Q) : Q :=
  Bybit.bidRatioOf (Bybit.Qgtb close open) (Bybit.pricePositionOf low (high - low) p).

(** The total bid volume and the total ask volume of some levels, as
    the specification sums them. *)
Fixpoint bidTotal (levels : list BidAskLevel) : Q :=
  match levels with
  | [] => 0
  | l :: rest => bidVol l + bidTotal rest
  end.

Fixpoint askTotal (levels : list BidAskLevel) : Q :=
  match levels with
  | [] => 0
  | l :: rest => askVol l + askTotal rest
  end.


End Spec.

(** ** [Array.prototype.sort], [findIndex] and [slice] *)

Module JSArray.

Section StableSort.

Variable A : Type.

(** [notAfter x y] holds when the comparator gives [cmp(x, y) <= 0]:
    [x] need not come after [y]. *)
Variable notAfter : A -> A -> bool.

(** [sort] is stable; it is modelled as insertion from the left, each
    element going behind the elements it need not precede. *)
Fixpoint insertSorted (x : A) (sorted : list A) : list A :=
  match sorted with
  | [] => [x]
  | y :: rest =>
      if notAfter y x then y :: insertSorted x rest else x :: y :: rest
  end.

Definition sortBy (l : list A) : list A :=
  fold_left (fun sorted x => insertSorted x sorted) l [].

(** [findIndex]: the first index whose element passes, or -1. *)
Fixpoint findIndexFrom (test : A -> bool) (i : Z) (l : list A) : Z :=
  match l with
  | [] => (-1)%Z
  | x :: rest => if test x then i else findIndexFrom test (i + 1)%Z rest
  end.

Definition findIndex (test : A -> bool) (l : list A) : Z := findIndexFrom test 0%Z l.

(** [slice(start, end)] for whole-number arguments: a negative index
    counts from the end, and both are clamped to the array. *)
Definition slice (start final : Z) (l : list A) : list A :=
  let len := Z.of_nat (length l) in
  let k := if (start <? 0)%Z then Z.max (len + start) 0 else Z.min start len in
  let e := if (final <? 0)%Z then Z.max (len + final) 0 else Z.min final len in
  firstn (Z.to_nat (e - k)) (skipn (Z.to_nat k) l).

(** [newData[i] = x] for an index inside the array. *)
Fixpoint setAt (i : nat) (x : A) (l : list A) : list A :=
  match l, i with
  | [], _ => []
  | _ :: rest, O => x :: rest
  | y :: rest, S i' => y :: setAt i' x rest
  end.

End StableSort.

Arguments insertSorted {A}.
Arguments sortBy {A}.
Arguments findIndexFrom {A}.
Arguments findIndex {A}.
Arguments slice {A}.
Arguments setAt {A}.

End JSArray.

(** ** The overlay's draw pass and range report (FootprintChartSimple) *)

Module Overlay.

Import JSArray.

(** [Math.floor(new Date(candle.timestamp).getTime() / 1000)] *)
Definition timeOf (c : OrderFlowCandle) : Z := (timestamp c / 1000)%Z.

(** The candles inside the chart's visible time range. *)
Definition visibleCandles (from to : Z) (data : list OrderFlowCandle)
  : list OrderFlowCandle :=
  filter (fun c => (from <=? timeOf c)%Z && (timeOf c <=? to)%Z) data.

(** The range handed to [onVisibleRangeChange]: start index and end
    index plus one; [None] when nothing is visible or an index is not
    found. *)
Definition reportedRange (from to : Z) (data : list OrderFlowCandle) : option (Z * Z) :=
  match visibleCandles from to data with
  | [] => None
  | first :: others =>
      let firstVisibleTime := timeOf first in
      let lastVisibleTime := timeOf (last others first) in
      let startIndex := findIndex (fun c => (timeOf c =? firstVisibleTime)%Z) data in
      let endIndex := findIndex (fun c => (timeOf c =? lastVisibleTime)%Z) data in
      if (startIndex >=? 0)%Z && (endIndex >=? 0)%Z
      then Some (startIndex, (endIndex + 1)%Z)
      else None
  end.

(** [!x] for a coordinate: [null] and [0] both count as missing. *)
Definition missing (x : option Q) : bool :=
  match x with
  | None => true
  | Some q => Qeq_bool q 0
  end.

(** [[...candle.bidAskData].filter(...).sort((a, b) => b.price - a.price)] *)
Definition sortedLevelsOf (c : OrderFlowCandle) : list BidAskLevel :=
  sortBy (fun a b => Qle_bool (price b) (price a))
         (filter (fun level => Qle_bool (low c) (price level)
                               && Qle_bool (price level) (high c))
                 (bidAskData c)).

(** One drawn row: the level shown, its pixel row and its highlight. *)
Record DrawnRow : Type := mkRow {
  rowLevel : BidAskLevel;
  rowY : Q;
  rowImbalance : option Footprint.Imbalance
}.

(** [levelsToShow.forEach(level => ...)] up to the drawing calls. *)
Fixpoint drawLevels (priceToCoordinate : Q -> option Q) (candleTop candleBottom : Q)
    (levels : list BidAskLevel) : list DrawnRow :=
  match levels with
  | [] => []
  | level :: rest =>
      let others := drawLevels priceToCoordinate candleTop candleBottom rest in
      let y := priceToCoordinate (price level) in
      if missing y then others
      else
        match y with
        | None => others
        | Some y' =>
            if Bybit.Qgtb (candleTop - 5) y' || Bybit.Qgtb y' (candleBottom + 5)
            then others
            else mkRow level y'
                       (Footprint.isImbalance (bidVol level) (askVol level))
                   :: others
        end
  end.

(** The body of [visibleCandles.forEach] for one candle: the rows drawn
    for it, given its x coordinate, the price scale and the candle width. *)
Definition drawCandle (x : option Q) (priceToCoordinate : Q -> option Q)
    (candleWidth : Q) (c : OrderFlowCandle) : list DrawnRow :=
  if missing x then []
  else
    let candleTop := priceToCoordinate (high c) in
    let candleBottom := priceToCoordinate (low c) in
    if missing candleTop || missing candleBottom then []
    else
      match candleTop, candleBottom with
      | Some top, Some bottom =>
          if Bybit.Qgtb 15 candleWidth then []
          else
            match bidAskData c with
            | [] => []
            | _ :: _ =>
                let maxLevels := Footprint.maxLevelsOf top bottom candleWidth in
                drawLevels priceToCoordinate top bottom
                           (Footprint.levelsToShow (sortedLevelsOf c) maxLevels)
            end
      | _, _ => []
      end.

End Overlay.

(** ** The statistics panel (FootprintBarStatistics) *)

Module Stats.

Import JSArray.

(** [visibleEndIndex && visibleEndIndex > 0 ? visibleEndIndex : data.length] *)
Definition endIdxOf (visibleEndIndex : option Z) (len : Z) : Z :=
  match visibleEndIndex with
  | Some e => if (e >? 0)%Z then e else len
  | None => len
  end.

Definition visibleData (visibleStartIndex : Z) (visibleEndIndex : option Z)
    (data : list OrderFlowCandle) : list OrderFlowCandle :=
  slice visibleStartIndex (endIdxOf visibleEndIndex (Z.of_nat (length data))) data.

Definition relativeStrength (c : OrderFlowCandle) : Q :=
  if Bybit.Qgtb (volume c) 0 then delta c / volume c * 100 else 0.

(** An [rgba(r, g, b, a)] colour. *)
Record Rgba : Type := mkRgba {
  red : Z;
  green : Z;
  blue : Z;
  alpha : Q
}.

Definition getColorForDelta (value : Q) : Rgba :=
  if Bybit.Qgtb value 0 then
    let intensity := Math_min (Qabs value / 50000) 1 in
    mkRgba 34 197 94 ((3 # 10) + intensity * (5 # 10))
  else if Bybit.Qgtb 0 value then
    let intensity := Math_min (Qabs value / 50000) 1 in
    mkRgba 239 68 68 ((3 # 10) + intensity * (5 # 10))
  else mkRgba 100 100 100 (2 # 10).

Definition getColorForRS (value : Q) : Rgba :=
  if Bybit.Qgtb value 10 then mkRgba 34 197 94 (6 # 10)
  else if Bybit.Qgtb (-10) value then mkRgba 239 68 68 (6 # 10)
  else mkRgba 100 100 100 (3 # 10).

End Stats.

(** ** The page's candle list (app/page.tsx) *)

Module Page.

Import JSArray.

(** The updater given to [setData] by the [subscribeRealtime]
    callback. *)
Definition mergeCandle (updatedCandle : OrderFlowCandle)
    (prevData : list OrderFlowCandle) : list OrderFlowCandle :=
  let existingIndex :=
    findIndex (fun c => (timestamp c =? timestamp updatedCandle)%Z) prevData in
  let newData :=
    if (existingIndex >=? 0)%Z
    then setAt (Z.to_nat existingIndex) updatedCandle prevData
    else
      let pushed := prevData ++ [updatedCandle] in
      if (200 <? length pushed)%nat then tl pushed else pushed in
  sortBy (fun a b => (timestamp a <=? timestamp b)%Z) newData.

(** The list after a run of the aggregator: every call of
    [onCandleUpdate] merged in turn. *)
Definition emittedCandle (e : Bybit.Emitted) : OrderFlowCandle :=
  match e with
  | Bybit.Finalized c => c
  | Bybit.Updated c => c
  end.

Definition mergeAll (events : list Bybit.Emitted) (data : list OrderFlowCandle)
  : list OrderFlowCandle :=
  fold_left (fun d e => mergeCandle (emittedCandle e) d) events data.

End Page.

(** ** More of the mock generator and of the connector *)

Module MockLive.

(** [generateRealtimeCandle] *)
Definition generateRealtimeCandle (rng : nat -> Q) (k : nat)
    (lastCandle : OrderFlowCandle) (timeframe : Bybit.Timeframe)
  : OrderFlowCandle * nat :=
  let intervalMs := Bybit.getTimeframeMs timeframe in
  let newTimestamp := (timestamp lastCandle + intervalMs)%Z in
  let '(newCandle, k') := Mock.generateCandle rng k newTimestamp (close lastCandle) in
  (mkCandle (timestamp newCandle) (open newCandle) (high newCandle) (low newCandle)
            (close newCandle) (bidAskData newCandle) (delta newCandle)
            (volume newCandle)
            (Some (orZero (cvd lastCandle) + delta newCandle)),
   k').

End MockLive.

(** ** Volume labels (lib/utils.ts) *)

Module Utils.

Open Scope string_scope.

(** The decimal digits of a whole number that is not negative. *)
Definition digits (n : Z) : string :=
  NilZero.string_of_uint (N.to_uint (Z.to_N n)).

Fixpoint zeros (n : nat) : string :=
  match n with
  | O => ""
  | S n' => "0" ++ zeros n'
  end.

(** [x.toFixed(decimals)] for [0 <= x < 1e21]: [x] rounded to
    [decimals] places, halves upwards, printed with exactly that many
    places. *)
Definition toFixed (decimals : nat) (x : Q) : string :=
  let scale := (10 ^ Z.of_nat decimals)%Z in
  let n := Qfloor (x * inject_Z scale + (1 # 2)) in
  match decimals with
  | O => digits n
  | S _ =>
      let fraction := digits (n mod scale) in
      digits (n / scale) ++ "." ++
      zeros (decimals - String.length fraction) ++ fraction
  end.

(** [formatVolume(num, decimals = 1)] *)
Definition formatVolume (num : Q) (decimals : nat) : string :=
  let absNum := Qabs num in
  let sign := if Bybit.Qgtb 0 num then "-" else "" in
  if Qle_bool 1000000000 absNum
  then sign ++ toFixed decimals (absNum / 1000000000) ++ "B"
  else if Qle_bool 1000000 absNum
  then sign ++ toFixed decimals (absNum / 1000000) ++ "M"
  else if Qle_bool 1000 absNum
  then sign ++ toFixed decimals (absNum / 1000) ++ "k"
  else sign ++ toFixed 0 absNum.

End Utils.

(** ** Further predicates *)

Module Facts.

(** Open and close lie between low and high. *)
Definition bracketed (c : OrderFlowCandle) : Prop :=
  low c <= open c /\ open c <= high c /\ low c <= close c /\ close c <= high c.





(** No level has a negative volume. *)
Definition nonNegativeLevels (levels : list BidAskLevel) : Prop :=
  Forall (fun l => 0 <= bidVol l /\ 0 <= askVol l) levels.

(** Every level price is a multiple of one half. *)
Definition onHalfGrid (levels : list BidAskLevel) : Prop :=
  Forall (fun l => integral (price l * 2)) levels.

(** The [Updated] calls among the emitted ones. *)
Fixpoint updates (es : list Bybit.Emitted) : list OrderFlowCandle :=
  match es with
  | [] => []
  | Bybit.Updated c :: rest => c :: updates rest
  | Bybit.Finalized _ :: rest => updates rest
  end.

(** Every level of [before] is still at its place in [after], with the
    same price and volumes that are not smaller. *)
Definition grown (before after : list BidAskLevel) : Prop :=
  forall (i : nat) (l : BidAskLevel),
    nth_error before i = Some l ->
    exists l', nth_error after i = Some l' /\
               price l' = price l /\ bidVol l <= bidVol l' /\ askVol l <= askVol l'.

(** The trades applied in turn to one candle. *)
Definition applyTrades (trades : list Bybit.BybitTrade) (c : OrderFlowCandle)
  : OrderFlowCandle :=
  fold_left (fun candle trade => Bybit.applyTrade trade candle) trades c.

(** Strictly ascending open times. *)
Definition ascendingTimes (candles : list OrderFlowCandle) : Prop :=
  StronglySorted (fun a b => (timestamp a < timestamp b)%Z) candles.

(** Strictly ascending chart times (seconds). *)
Definition ascendingChartTimes (candles : list OrderFlowCandle) : Prop :=
  StronglySorted (fun a b => (Overlay.timeOf a < Overlay.timeOf b)%Z) candles.

(** Descending by price, as the overlay wants its levels. *)
Definition descendingPrices (levels : list BidAskLevel) : Prop :=
  StronglySorted (fun a b => price b <= price a) levels.

(** Ascending by price. *)
Definition ascendingPrices (levels : list BidAskLevel) : Prop :=
  StronglySorted (fun a b => price a <= price b) levels.

Import Bybit Spec.

(** The fields of a backfilled candle against its kline. *)
Definition backfilledFrom (kline : Kline) (c : OrderFlowCandle) : Prop :=
  timestamp c = k_timestamp kline /\
  open c = k_open kline /\ high c = k_high kline /\
  low c = k_low kline /\ close c = k_close kline /\
  Forall wholeLevel (bidAskData c) /\
  delta c == sumDelta (bidAskData c) /\
  volume c == sumVolume (bidAskData c).

(** The comparator [a.price - b.price] as a test. *)
Definition priceNotAfter (a b : BidAskLevel) : bool := Qle_bool (price a) (price b).

(** The levels of the mock loop, before sorting. *)
Definition mockLevel (high low : Q) (l : BidAskLevel) : Prop :=
  wholeLevel l /\ integral (price l) /\
  Math_round low <= price l /\ price l <= Math_round high.

(** The comparator [b.price - a.price] as a test. *)
Definition priceNotBefore (a b : BidAskLevel) : bool := Qle_bool (price b) (price a).

(** The visible-range test of the overlay. *)
Definition inWindow (from to : Z) (c : OrderFlowCandle) : bool :=
  ((from <=? Overlay.timeOf c)%Z && (Overlay.timeOf c <=? to)%Z)%bool.

(** The comparator [a.timestamp - b.timestamp] as a test. *)
Definition timeNotAfter (a b : OrderFlowCandle) : bool := (timestamp a <=? timestamp b)%Z.

(** The open candle of the aggregator, as a list. *)
Definition openList (st : Connector) : list OrderFlowCandle :=
  match currentCandle st with
  | Some c => [c]
  | None => []
  end.

End Facts.

(** ** Binary64 numbers

    The definitions above compute with exact rationals.  Where a result
    of the program depends on how an addition, a product or a quotient is
    rounded, the functions are given again in [Module Double] below with
    every arithmetic operation rounded as JavaScript rounds it: to the
    nearest binary64 number, ties to the even significand.  A double is
    kept as the rational it denotes; infinities and NaN (magnitudes from
    [2 ^ 1024] on, division by zero) are outside the model. *)

Module Binary64.

(** The exponent [e] with [2 ^ e <= x < 2 ^ (e + 1)], for [x > 0]. *)
Definition exponentOf (x : Q) : Z :=
  let e := (Z.log2 (Qnum x) - Z.log2 (Zpos (Qden x)))%Z in
  if Qle_bool (2 ^ e) x then e else (e - 1)%Z.

(** The nearest integer, the even one of two equally near. *)
Definition nearestEven (q : Q) : Z :=
  let f := Qfloor q in
  match Qcompare (q - inject_Z f) (1 # 2) with
  | Lt => f
  | Gt => (f + 1)%Z
  | Eq => if Z.even f then f else (f + 1)%Z
  end.

(** A positive number rounded to 53 significant bits, or to a multiple
    of [2 ^ -1074] where it is subnormal. *)
Definition roundPositive (x : Q) : Q :=
  let e := Z.max (exponentOf x - 52) (-1074) in
  inject_Z (nearestEven (x / 2 ^ e)) * 2 ^ e.

Definition round64 (x : Q) : Q :=
  match Qcompare x 0 with
  | Eq => 0
  | Gt => Qred (roundPositive x)
  | Lt => Qred (- roundPositive (- x))
  end.

(** The four operations on doubles. *)
Definition fadd (a b : Q) : Q := round64 (a + b).

Definition fsub (a b : Q) : Q := round64 (a - b).

Definition fmul (a b : Q) : Q := round64 (a * b).

Definition fdiv (a b : Q) : Q := round64 (a / b).

(** A number that is a double. *)
Definition isDouble (x : Q) : Prop := round64 x == x.

End Binary64.

(** ** The connector in binary64 arithmetic (lib/bybitConnector.ts) *)

Module Double.

Import Binary64 Bybit.

(** [parseFloat] of a decimal numeral: the double nearest to it. *)
Definition parseFloat (decimal : Q) : Q := round64 decimal.

(** *** Live aggregation *)

Definition addVolume (side : string) (vol : Q) (l : BidAskLevel) : BidAskLevel :=
  if String.eqb side "Buy"
  then mkLevel (price l) (fadd (bidVol l) vol) (askVol l)
  else mkLevel (price l) (bidVol l) (fadd (askVol l) vol).

Fixpoint bumpFirst (p : Q) (vol : Q) (side : string) (levels : list BidAskLevel)
  : list BidAskLevel :=
  match levels with
  | [] => []
  | l :: rest =>
      if Qeq_bool (price l) p
      then addVolume side vol l :: rest
      else l :: bumpFirst p vol side rest
  end.

Definition updateBidAskData (p vol : Q) (side : string) (levels : list BidAskLevel)
  : list BidAskLevel :=
  match findLevel p levels with
  | None => levels ++ [addVolume side vol (mkLevel p 0 0)]
  | Some _ => bumpFirst p vol side levels
  end.

(** [reduce((sum, level) => sum + (level.bidVol - level.askVol), 0)] *)
Definition sumDelta (levels : list BidAskLevel) : Q :=
  fold_left (fun sum level => fadd sum (fsub (bidVol level) (askVol level))) levels 0.

(** [reduce((sum, level) => sum + level.bidVol + level.askVol, 0)] *)
Definition sumVolume (levels : list BidAskLevel) : Q :=
  fold_left (fun sum level => fadd (fadd sum (bidVol level)) (askVol level)) levels 0.

Definition recalculateMetrics (c : OrderFlowCandle) : OrderFlowCandle :=
  let d := sumDelta (bidAskData c) in
  let vol := sumVolume (bidAskData c) in
  let previousCvd := fsub (orZero (cvd c)) (orZero (Some (delta c))) in
  mkCandle (timestamp c) (open c) (high c) (low c) (close c) (bidAskData c)
           (Math_round d) (Math_round vol) (Some (Math_round (fadd previousCvd d))).

Definition applyTrade (trade : BybitTrade) (c : OrderFlowCandle) : OrderFlowCandle :=
  let p := tr_p trade in
  let roundedPrice := fdiv (Math_round (fmul p 2)) 2 in
  recalculateMetrics
    (mkCandle (timestamp c) (open c)
              (Math_max (high c) p) (Math_min (low c) p) p
              (updateBidAskData roundedPrice (tr_v trade) (tr_S trade) (bidAskData c))
              (delta c) (volume c) (cvd c)).

(** The [forEach] body of [processTrades] for one trade; the rollover
    test and the new candle involve no rounding. *)
Definition processTrade (st : Connector) (trade : BybitTrade) : Connector * list Emitted :=
  let '(st1, emitted) := rollover st trade in
  match currentCandle st1 with
  | Some c =>
      let c' := applyTrade trade c in
      (mkConnector (Some c') (timeframe st1) (candleStartTime st1),
       emitted ++ [Updated c'])
  | None => (st1, emitted)
  end.

Fixpoint processTrades (st : Connector) (trades : list BybitTrade)
  : Connector * list Emitted :=
  match trades with
  | [] => (st, [])
  | trade :: rest =>
      let '(st1, e1) := processTrade st trade in
      let '(st2, e2) := processTrades st1 rest in
      (st2, e1 ++ e2)
  end.

(** *** Historical backfill *)

(** [Number(x.toFixed(1))]: the decimal with one digit nearest to the
    double [x], read back as a double. *)
Definition toFixed1 (x : Q) : Q := round64 (JS.toFixed1 x).

(** [Math.max(Math.ceil(range / priceStep), 1)] *)
Definition numLevelsOf (range : Q) : Z := Z.max (Math_ceil (fdiv range priceStep)) 1.

Definition pricePositionOf (low range p : Q) : Q :=
  if Qgtb range 0 then fdiv (fsub p low) range else 1 # 2.

Definition bidRatioOf (isBullish : bool) (pricePosition : Q) : Q :=
  if isBullish
  then fadd (round64 (4 # 10)) (fmul (fsub 1 pricePosition) (round64 (4 # 10)))
  else fadd (round64 (2 # 10)) (fmul (fsub 1 pricePosition) (round64 (4 # 10))).

Definition approximateLevel (volumePerLevel low range : Q) (isBullish : bool)
    (p random : Q) : BidAskLevel :=
  let pricePosition := pricePositionOf low range p in
  let bidRatio := bidRatioOf isBullish pricePosition in
  let randomFactor := fadd (round64 (8 # 10)) (fmul random (round64 (4 # 10))) in
  let bidVol := Math_round (fmul (fmul volumePerLevel bidRatio) randomFactor) in
  let askVol := Math_round (fmul (fmul volumePerLevel (fsub 1 bidRatio)) randomFactor) in
  mkLevel p (Math_max bidVol 1) (Math_max askVol 1).

Fixpoint approximateLoop (turns : nat) (i : Z) (rng : nat -> Q) (k : nat)
    (volumePerLevel high low range : Q) (isBullish : bool)
  : list BidAskLevel * nat :=
  match turns with
  | O => ([], k)
  | S turns' =>
      let p := toFixed1 (fadd low (fmul (inject_Z i) priceStep)) in
      if Qgtb p high then ([], k)
      else
        let level := approximateLevel volumePerLevel low range isBullish p (rng k) in
        let '(rest, k') :=
          approximateLoop turns' (i + 1)%Z rng (Datatypes.S k)
                          volumePerLevel high low range isBullish in
        (level :: rest, k')
  end.

Definition generateApproximateBidAsk (rng : nat -> Q) (k : nat)
    (open high low close volume : Q) : list BidAskLevel * nat :=
  let range := fsub high low in
  let numLevels := numLevelsOf range in
  let volumePerLevel := fdiv volume (inject_Z numLevels) in
  let isBullish := Qgtb close open in
  approximateLoop (Datatypes.S (Z.to_nat numLevels)) 0%Z rng k
                  volumePerLevel high low range isBullish.

End Double.

(** ** Predicates over the binary64 connector *)

Module DoubleSpec.

Import Binary64.

(** The level [l] after a trade of [vol] on [side]: the volume goes to
    [bidVol] for a buy and to [askVol] otherwise. *)
Definition credited (side : string) (vol : Q) (l : BidAskLevel) : BidAskLevel :=
  if String.eqb side "Buy"
  then mkLevel (price l) (fadd (bidVol l) vol) (askVol l)
  else mkLevel (price l) (bidVol l) (fadd (askVol l) vol).

(** The levels [after] a trade of [vol] on [side] was booked at price
    [p] into the levels [before]: a level of that price is appended when
    there is none, and otherwise the first one is credited where it
    stands. *)
Definition bookedAt (p vol : Q) (side : string) (before after : list BidAskLevel)
  : Prop :=
  (Forall (fun x => ~ price x == p) before ->
   after = before ++ [credited side vol (mkLevel p 0 0)]) /\
  (forall (pre post : list BidAskLevel) (l : BidAskLevel),
     before = pre ++ l :: post ->
     Forall (fun x => ~ price x == p) pre -> price l == p ->
     after = pre ++ credited side vol l :: post).

(** The bid ratio the backfill uses at price [p] of a bar. *)
Definition bidRatioAt (open high low close p : Q) : Q :=
  Double.bidRatioOf (Bybit.Qgtb close open)
                    (Double.pricePositionOf low (fsub high low) p).

End DoubleSpec.

(** * Properties *)

(** ** Rounding to binary64 *)

Import Binary64.

Lemma two_pow_pos (e : Z) : 0 < 2 ^ e.
Proof. apply Qpower_0_lt. reflexivity. Qed.

Lemma two_pow_plus (a b : Z) : 2 ^ (a + b) == 2 ^ a * 2 ^ b.
Proof. apply Qpower_plus. discriminate. Qed.

Lemma two_pow_le (a b : Z) : (a <= b)%Z -> 2 ^ a <= 2 ^ b.
Proof. intro H. apply Qpower_le_compat_l; [exact H | discriminate]. Qed.

Lemma two_pow_Z (k : Z) : (0 <= k)%Z -> 2 ^ k == inject_Z (2 ^ k).
Proof. intro H. symmetry. exact (Zpower_Qpower 2 k H). Qed.

Lemma two_pow_minus (a b : Z) : 2 ^ (a - b) == 2 ^ a / 2 ^ b.
Proof.
  unfold Z.sub. rewrite two_pow_plus, Qpower_opp. reflexivity.
Qed.

Lemma div_lt_div (N D A B : Q) :
  0 < N -> 0 < B -> B <= D -> N < A -> N / D < A / B.
Proof.
  intros HN HB HBD HNA.
  assert (HD : 0 < D) by lra.
  apply Qlt_shift_div_r; [exact HD|].
  assert (E : A / B * D == (A * D) / B) by (field; lra).
  rewrite E. apply Qlt_shift_div_l; [exact HB|]. nra.
Qed.

Lemma div_le_div (N D A B : Q) :
  0 <= A -> 0 < D -> D <= B -> A <= N -> A / B <= N / D.
Proof.
  intros HA HD HDB HAN.
  assert (HB : 0 < B) by lra.
  apply Qle_shift_div_r; [exact HB|].
  assert (E : N / D * B == (N * B) / D) by (field; lra).
  rewrite E. apply Qle_shift_div_l; [exact HD|]. nra.
Qed.

(** [exponentOf x] is the floor of the binary logarithm of a positive [x]. *)
Lemma exponentOf_spec (x : Q) :
  0 < x -> 2 ^ exponentOf x <= x /\ x < 2 ^ (exponentOf x + 1).
Proof.
  intro Hx. unfold exponentOf.
  destruct x as [n d]. simpl Qnum. simpl Qden.
  assert (Hn : (0 < n)%Z).
  { unfold Qlt in Hx. simpl in Hx. lia. }
  set (a := Z.log2 n). set (b := Z.log2 (Z.pos d)).
  assert (Ha : (2 ^ a <= n < 2 ^ (a + 1))%Z).
  { unfold a. pose proof (Z.log2_spec n Hn). now rewrite <- Z.add_1_r in H. }
  assert (Hb : (2 ^ b <= Z.pos d < 2 ^ (b + 1))%Z).
  { unfold b. pose proof (Z.log2_spec (Z.pos d) ltac:(lia)).
    now rewrite <- Z.add_1_r in H. }
  assert (Ha0 : (0 <= a)%Z) by apply Z.log2_nonneg.
  assert (Hb0 : (0 <= b)%Z) by apply Z.log2_nonneg.
  assert (Hxd : (n # d) == inject_Z n / inject_Z (Z.pos d)) by apply Qmake_Qdiv.
  assert (Hlt : (n # d) < 2 ^ (a - b + 1)).
  { replace (a - b + 1)%Z with ((a + 1) - b)%Z by lia.
    rewrite two_pow_minus, Hxd.
    rewrite (two_pow_Z (a + 1)), (two_pow_Z b) by lia.
    apply div_lt_div.
    - change 0 with (inject_Z 0). rewrite <- Zlt_Qlt. exact Hn.
    - rewrite <- (two_pow_Z b) by lia. apply two_pow_pos.
    - rewrite <- Zle_Qle. lia.
    - rewrite <- Zlt_Qlt. lia. }
  assert (Hge : 2 ^ (a - b - 1) <= (n # d)).
  { replace (a - b - 1)%Z with (a - (b + 1))%Z by lia.
    rewrite two_pow_minus, Hxd.
    rewrite (two_pow_Z a), (two_pow_Z (b + 1)) by lia.
    apply div_le_div.
    - rewrite <- (two_pow_Z a) by lia. apply Qlt_le_weak, two_pow_pos.
    - reflexivity.
    - rewrite <- Zle_Qle. lia.
    - rewrite <- Zle_Qle. lia. }
  destruct (Qle_bool (2 ^ (a - b)) (n # d)) eqn:E.
  - apply Qle_bool_iff in E. split; assumption.
  - split; [exact Hge|].
    replace (a - b - 1 + 1)%Z with (a - b)%Z by lia.
    apply Qnot_le_lt. intro H. apply Qle_bool_iff in H. congruence.
Qed.

Lemma exponentOf_unique (x : Q) (e : Z) :
  2 ^ e <= x -> x < 2 ^ (e + 1) -> exponentOf x = e.
Proof.
  intros Hl Hu.
  assert (Hx : 0 < x) by (eapply Qlt_le_trans; [apply two_pow_pos | exact Hl]).
  destruct (exponentOf_spec x Hx) as [Hl' Hu'].
  assert (H1 : (exponentOf x < e + 1)%Z).
  { apply (Qpower_lt_compat_l_inv 2); [|reflexivity].
    eapply Qle_lt_trans; eassumption. }
  assert (H2 : (e < exponentOf x + 1)%Z).
  { apply (Qpower_lt_compat_l_inv 2); [|reflexivity].
    eapply Qle_lt_trans; eassumption. }
  lia.
Qed.

Lemma exponentOf_monotone (x y : Q) :
  0 < x -> x <= y -> (exponentOf x <= exponentOf y)%Z.
Proof.
  intros Hx Hxy.
  destruct (exponentOf_spec x Hx) as [Hl _].
  destruct (exponentOf_spec y (Qlt_le_trans _ _ _ Hx Hxy)) as [_ Hu].
  assert (H : (exponentOf x < exponentOf y + 1)%Z).
  { apply (Qpower_lt_compat_l_inv 2); [|reflexivity].
    eapply Qle_lt_trans; [exact Hl|]. eapply Qle_lt_trans; eassumption. }
  lia.
Qed.

Lemma exponentOf_comp (x y : Q) : 0 < x -> x == y -> exponentOf x = exponentOf y.
Proof.
  intros Hx E. symmetry. destruct (exponentOf_spec x Hx) as [Hl Hu].
  apply exponentOf_unique; rewrite <- E; assumption.
Qed.

Lemma nearestEven_cases (q : Q) :
  nearestEven q = Qfloor q \/ nearestEven q = (Qfloor q + 1)%Z.
Proof.
  unfold nearestEven.
  destruct (Qcompare (q - inject_Z (Qfloor q)) (1 # 2)); auto.
  destruct (Z.even (Qfloor q)); auto.
Qed.

Lemma nearestEven_comp (q q' : Q) : q == q' -> nearestEven q = nearestEven q'.
Proof.
  intro E. unfold nearestEven. rewrite <- (Qfloor_comp _ _ E).
  assert (C : Qcompare (q - inject_Z (Qfloor q)) (1 # 2)
              = Qcompare (q' - inject_Z (Qfloor q)) (1 # 2)).
  { apply Qcompare_comp; [|reflexivity]. apply Qplus_comp; [exact E | reflexivity]. }
  now rewrite C.
Qed.

Lemma nearestEven_Z (z : Z) : nearestEven (inject_Z z) = z.
Proof.
  unfold nearestEven. rewrite Qfloor_Z.
  replace (Qcompare (inject_Z z - inject_Z z) (1 # 2)) with Lt; [reflexivity|].
  symmetry. apply Qlt_alt.
  assert (H : inject_Z z - inject_Z z == 0) by ring.
  rewrite H. reflexivity.
Qed.

Lemma nearestEven_monotone (q q' : Q) : q <= q' -> (nearestEven q <= nearestEven q')%Z.
Proof.
  intro H. pose proof (Qfloor_resp_le _ _ H) as Hf.
  destruct (Z.eq_dec (Qfloor q) (Qfloor q')) as [E|N].
  - unfold nearestEven. rewrite <- E.
    set (fq := inject_Z (Qfloor q)).
    destruct (Qcompare_spec (q - fq) (1 # 2)) as [C|C|C];
      destruct (Qcompare_spec (q' - fq) (1 # 2)) as [C'|C'|C'];
      try (destruct (Z.even (Qfloor q))); try lia; exfalso; lra.
  - destruct (nearestEven_cases q) as [E|E], (nearestEven_cases q') as [E'|E'];
      rewrite E, E'; lia.
Qed.

Lemma nearestEven_nonneg (q : Q) : 0 <= q -> (0 <= nearestEven q)%Z.
Proof.
  intro H. rewrite <- (nearestEven_Z 0). now apply nearestEven_monotone.
Qed.

Lemma roundPositive_nonneg (x : Q) : 0 < x -> 0 <= roundPositive x.
Proof.
  intro Hx. unfold roundPositive.
  set (s := Z.max (exponentOf x - 52) (-1074)).
  pose proof (two_pow_pos s) as Hs.
  apply Qmult_le_0_compat; [|lra].
  change 0 with (inject_Z 0). rewrite <- Zle_Qle. apply nearestEven_nonneg.
  apply Qle_shift_div_l; [exact Hs|]. lra.
Qed.

Lemma roundPositive_monotone (x y : Q) :
  0 < x -> x <= y -> roundPositive x <= roundPositive y.
Proof.
  intros Hx Hxy.
  assert (Hy : 0 < y) by lra.
  pose proof (exponentOf_monotone x y Hx Hxy) as He.
  destruct (exponentOf_spec x Hx) as [_ Hux].
  destruct (exponentOf_spec y Hy) as [Hly _].
  unfold roundPositive.
  set (ex := exponentOf x) in *. set (ey := exponentOf y) in *.
  set (sx := Z.max (ex - 52) (-1074)). set (sy := Z.max (ey - 52) (-1074)).
  pose proof (two_pow_pos sx) as Hsx. pose proof (two_pow_pos sy) as Hsy.
  destruct (Z.eq_dec sx sy) as [E|N].
  - rewrite <- E. apply Qmult_le_compat_r; [|lra].
    rewrite <- Zle_Qle. apply nearestEven_monotone.
    apply Qle_shift_div_l; [exact Hsx|].
    unfold Qdiv. rewrite <- Qmult_assoc, (Qmult_comm (/ _)), Qmult_inv_r; lra.
  - assert (Hsy' : sy = (ey - 52)%Z) by lia.
    assert (Hlt : (ex < ey)%Z) by lia.
    assert (Hk : (0 <= ey - sx)%Z) by lia.
    apply Qle_trans with (2 ^ ey).
    + assert (Hm : (nearestEven (x / 2 ^ sx) <= 2 ^ (ey - sx))%Z).
      { rewrite <- (nearestEven_Z (2 ^ (ey - sx))).
        apply nearestEven_monotone.
        rewrite <- (two_pow_Z _ Hk), two_pow_minus.
        apply Qmult_le_compat_r; [|apply Qlt_le_weak, Qinv_lt_0_compat, Hsx].
        apply Qle_trans with (2 ^ (ex + 1)); [lra|]. apply two_pow_le. lia. }
      rewrite Zle_Qle in Hm. rewrite <- (two_pow_Z _ Hk), two_pow_minus in Hm.
      apply Qle_trans with (2 ^ ey / 2 ^ sx * 2 ^ sx).
      * apply Qmult_le_compat_r; [exact Hm | lra].
      * unfold Qdiv. rewrite <- Qmult_assoc, (Qmult_comm (/ _)), Qmult_inv_r; lra.
    + assert (Hm : (2 ^ 52 <= nearestEven (y / 2 ^ sy))%Z).
      { rewrite <- (nearestEven_Z (2 ^ 52)) at 1.
        apply nearestEven_monotone.
        rewrite <- (two_pow_Z 52) by lia.
        replace 52%Z with (ey - sy)%Z by lia. rewrite two_pow_minus.
        apply Qmult_le_compat_r; [exact Hly|apply Qlt_le_weak, Qinv_lt_0_compat, Hsy]. }
      rewrite Zle_Qle in Hm. rewrite <- (two_pow_Z 52) in Hm by lia.
      apply Qle_trans with (2 ^ 52 * 2 ^ sy).
      * rewrite <- two_pow_plus. apply two_pow_le. lia.
      * apply Qmult_le_compat_r; [exact Hm | lra].
Qed.

Lemma roundPositive_comp (x y : Q) : 0 < x -> x == y -> roundPositive x == roundPositive y.
Proof.
  intros Hx E. unfold roundPositive.
  rewrite <- (exponentOf_comp x y Hx E).
  set (s := Z.max (exponentOf x - 52) (-1074)).
  rewrite (nearestEven_comp (x / 2 ^ s) (y / 2 ^ s)); [reflexivity|].
  now rewrite E.
Qed.

(** Equal numbers round to the same double. *)
Lemma round64_comp (x y : Q) : x == y -> round64 x = round64 y.
Proof.
  intro E. unfold round64.
  rewrite <- (Qcompare_comp _ _ E _ _ (Qeq_refl 0)).
  destruct (Qcompare_spec x 0) as [C|C|C]; [reflexivity| |].
  - apply Qred_complete.
    rewrite (roundPositive_comp (- x) (- y)); [reflexivity | lra | now rewrite E].
  - apply Qred_complete. now apply roundPositive_comp.
Qed.

Lemma round64_0 : round64 0 = 0.
Proof. reflexivity. Qed.

Lemma round64_monotone (x y : Q) : x <= y -> round64 x <= round64 y.
Proof.
  intro H. unfold round64.
  destruct (Qcompare_spec x 0) as [Cx|Cx|Cx]; destruct (Qcompare_spec y 0) as [Cy|Cy|Cy];
    rewrite ?Qred_correct; try lra.
  - apply roundPositive_nonneg. exact Cy.
  - pose proof (roundPositive_nonneg (- x)). lra.
  - pose proof (roundPositive_monotone (- y) (- x)). lra.
  - pose proof (roundPositive_nonneg (- x)). pose proof (roundPositive_nonneg y). lra.
  - now apply roundPositive_monotone.
Qed.

(** ** Rounding and whole numbers *)

Lemma Qle_bool_false (a b : Q) : Qle_bool a b = false <-> b < a.
Proof.
  split; intro H.
  - apply Qnot_le_lt. intro Hle. apply Qle_bool_iff in Hle. congruence.
  - destruct (Qle_bool a b) eqn:E; [|reflexivity].
    apply Qle_bool_iff in E. exfalso. apply (Qlt_not_le _ _ H E).
Qed.

Lemma Qgtb_true (a b : Q) : Bybit.Qgtb a b = true <-> b < a.
Proof.
  unfold Bybit.Qgtb. rewrite negb_true_iff. apply Qle_bool_false.
Qed.

Lemma Qgtb_false (a b : Q) : Bybit.Qgtb a b = false <-> a <= b.
Proof.
  unfold Bybit.Qgtb. rewrite negb_false_iff. apply Qle_bool_iff.
Qed.

Lemma integral_inject_Z (z : Z) : integral (inject_Z z).
Proof. unfold integral. now rewrite Qfloor_Z. Qed.

Lemma integral_exists (x : Q) : integral x <-> exists z, x == inject_Z z.
Proof.
  split.
  - intro H. now exists (Qfloor x).
  - intros [z Hz]. unfold integral. rewrite Hz at 1.
    now rewrite Hz, Qfloor_Z.
Qed.

#[global] Instance integral_comp : Proper (Qeq ==> iff) integral.
Proof.
  intros x y E. rewrite !integral_exists.
  split; intros [z Hz]; exists z; [now rewrite <- E | now rewrite E].
Qed.

Lemma integral_plus (x y : Q) : integral x -> integral y -> integral (x + y).
Proof.
  rewrite !integral_exists. intros [a Ha] [b Hb].
  exists (a + b)%Z. rewrite inject_Z_plus, Ha, Hb. reflexivity.
Qed.

Lemma integral_minus (x y : Q) : integral x -> integral y -> integral (x - y).
Proof.
  rewrite !integral_exists. intros [a Ha] [b Hb].
  exists (a - b)%Z. unfold Z.sub. rewrite inject_Z_plus, inject_Z_opp, Ha, Hb.
  reflexivity.
Qed.

Lemma integral_Math_round (x : Q) : integral (Math_round x).
Proof. apply integral_inject_Z. Qed.

Lemma integral_Math_max (x y : Q) : integral x -> integral y -> integral (Math_max x y).
Proof. unfold Math_max. now destruct (Qle_bool x y). Qed.

Lemma orZero_Some (q : Q) : orZero (Some q) == q.
Proof.
  simpl. destruct (Qeq_bool q 0) eqn:E; [|reflexivity].
  apply Qeq_bool_iff in E. now rewrite E.
Qed.

#[global] Instance Math_round_comp : Proper (Qeq ==> Qeq) Math_round.
Proof.
  intros x y E. unfold Math_round. now rewrite E.
Qed.

Lemma Qfloor_plus_Z (z : Z) (x : Q) : Qfloor (inject_Z z + x) = (z + Qfloor x)%Z.
Proof.
  apply Z.le_antisymm.
  - assert (H : (Qfloor (inject_Z z + x) - z <= Qfloor x)%Z).
    { rewrite <- (Qfloor_Z (Qfloor (inject_Z z + x) - z)).
      apply Qfloor_resp_le.
      unfold Z.sub. rewrite inject_Z_plus, inject_Z_opp.
      pose proof (Qfloor_le (inject_Z z + x)). lra. }
    lia.
  - rewrite <- (Qfloor_Z (z + Qfloor x)).
    apply Qfloor_resp_le. rewrite inject_Z_plus.
    pose proof (Qfloor_le x). lra.
Qed.

Lemma Math_round_plus_integral (n x : Q) :
  integral n -> Math_round (n + x) == n + Math_round x.
Proof.
  intro Hn. apply integral_exists in Hn. destruct Hn as [z Hz].
  unfold Math_round.
  assert (E : n + x + (1 # 2) == inject_Z z + (x + (1 # 2))) by (rewrite Hz; ring).
  rewrite E, Qfloor_plus_Z, inject_Z_plus, Hz. reflexivity.
Qed.

Lemma Math_round_integral (n : Q) : integral n -> Math_round n == n.
Proof.
  intro Hn.
  assert (E : n == n + 0) by ring.
  rewrite E at 1. rewrite (Math_round_plus_integral n 0 Hn).
  assert (H0 : Math_round 0 == 0) by reflexivity.
  rewrite H0. ring.
Qed.

Lemma Math_round_bounds (x : Q) : x - (1 # 2) < Math_round x /\ Math_round x <= x + (1 # 2).
Proof.
  unfold Math_round. split.
  - pose proof (Qlt_floor (x + (1 # 2))) as H.
    rewrite inject_Z_plus in H. change (inject_Z 1) with 1 in H. lra.
  - apply Qfloor_le.
Qed.

(** ** Imbalance classification *)

Import Footprint.


(** C10: a level with no volume on either side is classified as a bid
    imbalance, because the bid test comes first and [0 >= 0 * 3]. *)
Theorem isImbalance_zero_zero : isImbalance 0 0 = Some bid.
Proof. reflexivity. Qed.

(** ** Level bucketing *)

Lemma Zgtb_false (n m : Z) : (n <= m)%Z -> (n >? m)%Z = false.
Proof. intro H. rewrite Z.gtb_ltb. now apply Z.ltb_ge. Qed.

Lemma Zgtb_true (n m : Z) : (m < n)%Z -> (n >? m)%Z = true.
Proof. intro H. rewrite Z.gtb_ltb. now apply Z.ltb_lt. Qed.

Lemma fold_left_Qplus_shift (f : BidAskLevel -> Q) (ls : list BidAskLevel) (a : Q) :
  fold_left (fun sum level => sum + f level) ls a
  == a + fold_left (fun sum level => sum + f level) ls 0.
Proof.
  revert a. induction ls as [|l ls IH]; intro a; simpl.
  - ring.
  - rewrite IH, (IH (0 + f l)). ring.
Qed.





Lemma aggregateLoop_nil (turns bucketSize : nat) :
  aggregateLoop turns bucketSize [] = [].
Proof. now destruct turns. Qed.

(** With a positive bucket size, [length rest] turns leave nothing
    over: the rows are the aggregates of contiguous groups that make up
    all of [rest]. *)
Lemma aggregateLoop_exhausts (turns bucketSize : nat) (rest : list BidAskLevel) :
  (1 <= bucketSize)%nat -> (length rest <= turns)%nat ->
  exists groups,
    ContiguousGroups bucketSize rest groups /\
    aggregateLoop turns bucketSize rest = map aggregateBucket groups.
Proof.
  intro Hb. revert rest.
  induction turns as [|turns IH]; intros rest Hlen.
  - destruct rest; [|simpl in Hlen; lia].
    exists []. split; [constructor | reflexivity].
  - destruct rest as [|l rest'] eqn:Erest.
    + exists []. split; [constructor | reflexivity].
    + rewrite <- Erest in *.
      assert (Hne : rest <> []) by (rewrite Erest; discriminate).
      destruct (le_lt_dec (length rest) bucketSize) as [Hsmall|Hbig].
      * exists [rest]. split.
        -- now apply groups_last.
        -- rewrite Erest. cbn [aggregateLoop]. rewrite <- Erest.
           rewrite firstn_all2 by exact Hsmall.
           rewrite skipn_all2 by exact Hsmall.
           now rewrite aggregateLoop_nil.
      * destruct (IH (skipn bucketSize rest)) as [gs [Hgs Hrows]].
        { rewrite length_skipn. lia. }
        exists (firstn bucketSize rest :: gs). split.
        -- rewrite <- (firstn_skipn bucketSize rest) at 1.
           apply groups_full.
           ++ rewrite length_firstn. lia.
           ++ intro Hnil. apply (f_equal (@length _)) in Hnil.
              rewrite length_skipn in Hnil. simpl in Hnil. lia.
           ++ exact Hgs.
        -- rewrite Erest. cbn [aggregateLoop]. rewrite <- Erest.
           simpl. now rewrite Hrows.
Qed.





Lemma bucketSizeOf_positive (n : nat) (maxLevels : Z) :
  (0 < maxLevels)%Z -> (1 <= n)%nat -> (1 <= bucketSizeOf n maxLevels)%Z.
Proof.
  intros Hm Hn. unfold bucketSizeOf, Math_ceil.
  pose proof (Qle_ceiling (inject_Z (Z.of_nat n) / inject_Z maxLevels)) as Hc.
  assert (Hpos : 0 < inject_Z (Z.of_nat n) / inject_Z maxLevels).
  { apply Qlt_shift_div_l.
    - change 0 with (inject_Z 0). rewrite <- Zlt_Qlt. exact Hm.
    - rewrite Qmult_0_l. change 0 with (inject_Z 0). rewrite <- Zlt_Qlt. lia. }
  assert (H0 : inject_Z 0 < inject_Z (Qceiling (inject_Z (Z.of_nat n) / inject_Z maxLevels))).
  { eapply Qlt_le_trans; [exact Hpos | exact Hc]. }
  rewrite <- Zlt_Qlt in H0. lia.
Qed.

(** The bucket size is the integer ceiling of [n / maxLevels]. *)
Lemma bucketSizeOf_ceiling (n : nat) (maxLevels : Z) :
  (0 < maxLevels)%Z ->
  ((bucketSizeOf n maxLevels - 1) * maxLevels < Z.of_nat n
   <= bucketSizeOf n maxLevels * maxLevels)%Z.
Proof.
  intro Hm. unfold bucketSizeOf, Math_ceil.
  set (x := inject_Z (Z.of_nat n) / inject_Z maxLevels).
  assert (HmQ : 0 < inject_Z maxLevels).
  { change 0 with (inject_Z 0). rewrite <- Zlt_Qlt. exact Hm. }
  assert (Hx : x * inject_Z maxLevels == inject_Z (Z.of_nat n)).
  { unfold x. field. intro E. rewrite E in HmQ. now apply Qlt_irrefl in HmQ. }
  pose proof (Qle_ceiling x) as Hup.
  pose proof (Qceiling_lt x) as Hlow.
  split.
  - rewrite Zlt_Qlt, inject_Z_mult, <- Hx.
    apply Qmult_lt_compat_r; assumption.
  - rewrite Zle_Qle, inject_Z_mult, <- Hx.
    apply Qmult_le_compat_r; [assumption | now apply Qlt_le_weak].
Qed.

(** The number of groups is the ceiling of [length ls / b]. *)
Lemma ContiguousGroups_count (b : nat) (ls : list BidAskLevel)
    (gs : list (list BidAskLevel)) :
  (1 <= b)%nat -> ContiguousGroups b ls gs ->
  (length ls <= length gs * b < length ls + b)%nat.
Proof.
  intros Hb H. induction H as [|g Hne Hlen|g rest gs Hlen Hne H IH]; simpl.
  - lia.
  - destruct g; [congruence | simpl in *; lia].
  - rewrite length_app. lia.
Qed.










(** The bucketing of five levels into a budget of two rows: groups of
    three and two, with the middle prices 104 and 101. *)
Example levelsToShow_five_into_two :
  levelsToShow
    [mkLevel 105 1 2; mkLevel 104 3 4; mkLevel 103 5 6; mkLevel 102 7 8;
     mkLevel 101 9 10] 2
  = [mkLevel 104 (0 + 1 + 3 + 5) (0 + 2 + 4 + 6);
     mkLevel 101 (0 + 7 + 9) (0 + 8 + 10)].
Proof. reflexivity. Qed.

(** C6, as the code has it: with no room for a row ([maxRows <= 0])
    nothing is aggregated and nothing is left out; every level is
    returned as a row of its own. *)
Theorem levelsToShow_no_room (levels : list BidAskLevel) (maxRows : Z) :
  (maxRows <= 0)%Z -> levelsToShow levels maxRows = levels.
Proof.
  intro H. unfold levelsToShow.
  now rewrite (Zgtb_false _ _ H), andb_false_r.
Qed.

Lemma levelsToShow_no_room_witness :
  levelsToShow [mkLevel 101 4 1; mkLevel 100 2 9] 0
  = [mkLevel 101 4 1; mkLevel 100 2 9].
Proof.
  apply (levelsToShow_no_room [mkLevel 101 4 1; mkLevel 100 2 9] 0). lia.
Defined.

(** C6 fails as stated: a candle with one level and [maxRows = 0] gets
    that level as a row, not an empty list of rows. *)
Lemma levelsToShow_no_room_not_empty :
  (0 <= 0)%Z /\ levelsToShow [mkLevel 100 5 7] 0 = [mkLevel 100 5 7] /\
  levelsToShow [mkLevel 100 5 7] 0 <> [].
Proof.
  split; [lia|]. split; [reflexivity | discriminate].
Qed.

(** The row budget the overlay computes is never negative, and is 0
    when the candle is lower than one row. *)
Lemma maxLevelsOf_range (candleTop candleBottom candleWidth : Q) :
  (0 <= maxLevelsOf candleTop candleBottom candleWidth)%Z /\
  (Qabs (candleBottom - candleTop) < rowHeightOf candleWidth ->
   maxLevelsOf candleTop candleBottom candleWidth = 0%Z).
Proof.
  unfold maxLevelsOf, Math_floor.
  set (h := Qabs (candleBottom - candleTop)).
  assert (Hh : 0 <= h) by apply Qabs_nonneg.
  assert (Hr : 0 < rowHeightOf candleWidth).
  { unfold rowHeightOf, Math_max.
    destruct (Qle_bool (fontSizeOf candleWidth + 4) 10) eqn:E; [reflexivity|].
    apply Qle_bool_false in E. eapply Qlt_trans; [|exact E]. reflexivity. }
  assert (H0 : (0 <= Qfloor (h / rowHeightOf candleWidth))%Z).
  { change 0%Z with (Qfloor 0). apply Qfloor_resp_le.
    apply Qle_shift_div_l; [exact Hr | now rewrite Qmult_0_l]. }
  split; [exact H0|].
  intro Hlt.
  assert (H1 : (Qfloor (h / rowHeightOf candleWidth) < 1)%Z).
  { rewrite Zlt_Qlt. eapply Qle_lt_trans; [apply Qfloor_le|].
    apply Qlt_shift_div_r; [exact Hr | now rewrite Qmult_1_l]. }
  lia.
Qed.

(** ** The live aggregator: metrics *)

Import Bybit Spec.

Lemma applyTrade_metrics (trade : BybitTrade) (c : OrderFlowCandle) :
  metricsFromLevels (applyTrade trade c).
Proof. unfold metricsFromLevels, applyTrade, recalculateMetrics. simpl. auto. Qed.

Lemma rollover_currentCandle (st : Connector) (trade : BybitTrade) :
  currentCandle (fst (rollover st trade)) = None -> currentCandle st = None.
Proof.
  unfold rollover.
  destruct (bucketStart _ _ >? candleStartTime st)%Z; simpl; [discriminate | auto].
Qed.

(** What one trade does, by the state it leaves: either no candle is
    open before or after and nothing is emitted, or the candle left open
    is [applyTrade] of the candle that the rollover test selected. *)
Lemma processTrade_cases (st : Connector) (trade : BybitTrade) :
  (currentCandle st = None /\ processTrade st trade = (st, []))
  \/ exists c,
       currentCandle (fst (rollover st trade)) = Some c /\
       processTrade st trade
       = (mkConnector (Some (applyTrade trade c))
                      (timeframe (fst (rollover st trade)))
                      (candleStartTime (fst (rollover st trade))),
          snd (rollover st trade) ++ [Updated (applyTrade trade c)]).
Proof.
  unfold processTrade.
  destruct (rollover st trade) as [st1 ev] eqn:E. simpl.
  destruct (currentCandle st1) as [c|] eqn:Ec.
  - right. exists c. auto.
  - left. pose proof (rollover_currentCandle st trade) as H.
    rewrite E in H. simpl in H. specialize (H Ec).
    split; [exact H|].
    unfold rollover in E. rewrite H in E.
    destruct (bucketStart _ _ >? candleStartTime st)%Z.
    + inversion E; subst. discriminate.
    + now inversion E.
Qed.

Lemma rollover_emits_no_update (st : Connector) (trade : BybitTrade) (c : OrderFlowCandle) :
  ~ In (Updated c) (snd (rollover st trade)).
Proof.
  unfold rollover.
  destruct (bucketStart _ _ >? candleStartTime st)%Z; simpl; [|tauto].
  destruct (currentCandle st); simpl; [|tauto].
  intros [H|H]; [discriminate | exact H].
Qed.

Lemma processTrade_metrics (st : Connector) (trade : BybitTrade) :
  (forall c, In (Updated c) (snd (processTrade st trade)) -> metricsFromLevels c) /\
  (forall c, currentCandle (fst (processTrade st trade)) = Some c -> metricsFromLevels c).
Proof.
  destruct (processTrade_cases st trade) as [[Hn E]|[c0 [Hc E]]]; rewrite E; simpl.
  - split; [tauto|]. intros c Hc. congruence.
  - split.
    + intros c Hin. apply in_app_or in Hin. destruct Hin as [Hin|[Hin|[]]].
      * now apply rollover_emits_no_update in Hin.
      * inversion Hin; subst. apply applyTrade_metrics.
    + intros c Hc'. inversion Hc'; subst. apply applyTrade_metrics.
Qed.

Lemma processTrades_cons (st : Connector) (trade : BybitTrade) (rest : list BybitTrade) :
  processTrades st (trade :: rest)
  = (fst (processTrades (fst (processTrade st trade)) rest),
     snd (processTrade st trade) ++ snd (processTrades (fst (processTrade st trade)) rest)).
Proof.
  simpl. destruct (processTrade st trade) as [st1 e1]. simpl.
  now destruct (processTrades st1 rest).
Qed.



(** ** The live aggregator: rollover and late trades *)

Lemma getTimeframeMs_positive (tf : Timeframe) : (0 < getTimeframeMs tf)%Z.
Proof. destruct tf; reflexivity. Qed.

Lemma Math_max_same (x : Q) : Math_max x x = x.
Proof. unfold Math_max. now destruct (Qle_bool x x). Qed.

Lemma Math_min_same (x : Q) : Math_min x x = x.
Proof. unfold Math_min. now destruct (Qle_bool x x). Qed.

Lemma processTrade_no_rollover (st : Connector) (trade : BybitTrade) :
  (bucketStart (getTimeframeMs (timeframe st)) (tr_T trade) <= candleStartTime st)%Z ->
  processTrade st trade
  = match currentCandle st with
    | Some c =>
        (mkConnector (Some (applyTrade trade c)) (timeframe st) (candleStartTime st),
         [Updated (applyTrade trade c)])
    | None => (st, [])
    end.
Proof.
  intro H. unfold processTrade, rollover.
  rewrite (Zgtb_false _ _ H).
  now destruct (currentCandle st).
Qed.

Lemma processTrade_rollover (st : Connector) (trade : BybitTrade) :
  (candleStartTime st < bucketStart (getTimeframeMs (timeframe st)) (tr_T trade))%Z ->
  let start := bucketStart (getTimeframeMs (timeframe st)) (tr_T trade) in
  let fresh := newCandle start trade (currentCandle st) in
  processTrade st trade
  = (mkConnector (Some (applyTrade trade fresh)) (timeframe st) start,
     match currentCandle st with
     | Some c => [Finalized c]
     | None => []
     end ++ [Updated (applyTrade trade fresh)]).
Proof.
  intro H. unfold processTrade, rollover.
  rewrite (Zgtb_true _ _ H). reflexivity.
Qed.

Lemma Double_processTrade_no_rollover (st : Connector) (trade : BybitTrade) :
  (bucketStart (getTimeframeMs (timeframe st)) (tr_T trade) <= candleStartTime st)%Z ->
  Double.processTrade st trade
  = match currentCandle st with
    | Some c =>
        (mkConnector (Some (Double.applyTrade trade c)) (timeframe st)
                     (candleStartTime st),
         [Updated (Double.applyTrade trade c)])
    | None => (st, [])
    end.
Proof.
  intro H. unfold Double.processTrade, rollover.
  rewrite (Zgtb_false _ _ H).
  now destruct (currentCandle st).
Qed.

Lemma Double_applyTrade_fields (trade : BybitTrade) (c : OrderFlowCandle) :
  let c' := Double.applyTrade trade c in
  timestamp c' = timestamp c /\
  open c' = open c /\
  close c' = tr_p trade /\
  high c' = Math_max (high c) (tr_p trade) /\
  low c' = Math_min (low c) (tr_p trade) /\
  bidAskData c'
  = Double.updateBidAskData (fdiv (Math_round (fmul (tr_p trade) 2)) 2)
                            (tr_v trade) (tr_S trade) (bidAskData c) /\
  delta c' = Math_round (Double.sumDelta (bidAskData c')) /\
  volume c' = Math_round (Double.sumVolume (bidAskData c')) /\
  cvd c'
  = Some (Math_round
            (fadd (fsub (orZero (cvd c)) (orZero (Some (delta c))))
                  (Double.sumDelta (bidAskData c')))).
Proof. repeat split; reflexivity. Qed.

Lemma findLevel_absent (p : Q) (levels : list BidAskLevel) :
  Forall (fun x => ~ price x == p) levels -> findLevel p levels = None.
Proof.
  unfold findLevel. induction 1 as [|x rest Hx _ IH]; simpl; [reflexivity|].
  destruct (Qeq_bool (price x) p) eqn:E; [|exact IH].
  apply Qeq_bool_iff in E. contradiction.
Qed.

Lemma Double_updateBidAskData_booked (p vol : Q) (side : string)
    (levels : list BidAskLevel) :
  DoubleSpec.bookedAt p vol side levels (Double.updateBidAskData p vol side levels).
Proof.
  split.
  - intro H. unfold Double.updateBidAskData. now rewrite (findLevel_absent p levels H).
  - intros pre post l -> Hpre Hl.
    assert (Hfind : findLevel p (pre ++ l :: post) = Some l).
    { unfold findLevel. clear - Hpre Hl.
      induction Hpre as [|x rest Hx _ IH]; simpl.
      - now rewrite (proj2 (Qeq_bool_iff _ _) Hl).
      - destruct (Qeq_bool (price x) p) eqn:E; [|exact IH].
        apply Qeq_bool_iff in E. contradiction. }
    unfold Double.updateBidAskData. rewrite Hfind.
    clear Hfind. induction Hpre as [|x rest Hx _ IH]; simpl.
    + now rewrite (proj2 (Qeq_bool_iff _ _) Hl).
    + destruct (Qeq_bool (price x) p) eqn:E.
      * apply Qeq_bool_iff in E. contradiction.
      * now rewrite IH.
Qed.

(** C3, as the code has it, in binary64 arithmetic: a trade whose
    bucket is earlier than the aggregator's candle start causes no
    rollover, and no candle is finalized or created; but the trade is not
    dropped.  It is processed exactly as a trade of the same price, side
    and volume timed in the open bucket is.  When a candle is open it
    keeps its open time and open price, [close] becomes the trade's
    price, [high] and [low] take it in, the trade's volume is booked at
    its rounded price (a level is appended when the price is new,
    otherwise the level of that price is credited where it stands),
    [delta] and [volume] are the rounded sums over the levels, [cvd] is
    the rounded sum of the cvd before the candle (its cvd less its delta,
    as they were) and the levels' delta sum, and the updated candle is
    emitted.  Only with no candle open does nothing happen. *)
Theorem late_trade_is_applied (st : Connector) (trade : BybitTrade) :
  (bucketStart (getTimeframeMs (timeframe st)) (tr_T trade) < candleStartTime st)%Z ->
  candleStartTime (fst (Double.processTrade st trade)) = candleStartTime st /\
  finalized (snd (Double.processTrade st trade)) = [] /\
  (forall inTime : BybitTrade,
     bucketStart (getTimeframeMs (timeframe st)) (tr_T inTime) = candleStartTime st ->
     tr_S inTime = tr_S trade -> tr_p inTime = tr_p trade -> tr_v inTime = tr_v trade ->
     Double.processTrade st inTime = Double.processTrade st trade) /\
  match currentCandle st with
  | None => Double.processTrade st trade = (st, [])
  | Some c =>
      exists c',
        Double.processTrade st trade
        = (mkConnector (Some c') (timeframe st) (candleStartTime st), [Updated c']) /\
        timestamp c' = timestamp c /\
        open c' = open c /\
        close c' = tr_p trade /\
        high c' = Math_max (high c) (tr_p trade) /\
        low c' = Math_min (low c) (tr_p trade) /\
        DoubleSpec.bookedAt (fdiv (Math_round (fmul (tr_p trade) 2)) 2)
                            (tr_v trade) (tr_S trade)
                            (bidAskData c) (bidAskData c') /\
        delta c' = Math_round (Double.sumDelta (bidAskData c')) /\
        volume c' = Math_round (Double.sumVolume (bidAskData c')) /\
        cvd c'
        = Some (Math_round
                  (fadd (fsub (orZero (cvd c)) (orZero (Some (delta c))))
                        (Double.sumDelta (bidAskData c'))))
  end.
Proof.
  intro H.
  assert (Hsame : forall inTime : BybitTrade,
            bucketStart (getTimeframeMs (timeframe st)) (tr_T inTime) = candleStartTime st ->
            tr_S inTime = tr_S trade -> tr_p inTime = tr_p trade ->
            tr_v inTime = tr_v trade ->
            Double.processTrade st inTime = Double.processTrade st trade).
  { intros inTime Hb Hs Hp Hv.
    rewrite (Double_processTrade_no_rollover st inTime) by lia.
    rewrite (Double_processTrade_no_rollover st trade) by lia.
    destruct (currentCandle st) as [c|]; [|reflexivity].
    assert (E : Double.applyTrade inTime c = Double.applyTrade trade c).
    { unfold Double.applyTrade. now rewrite Hs, Hp, Hv. }
    now rewrite E. }
  rewrite (Double_processTrade_no_rollover st trade) in * by lia.
  destruct (currentCandle st) as [c|] eqn:Ec.
  - split; [reflexivity|]. split; [reflexivity|]. split; [exact Hsame|].
    exists (Double.applyTrade trade c).
    destruct (Double_applyTrade_fields trade c)
      as (Ht & Ho & Hc & Hh & Hl & Hlev & Hd & Hv & Hcvd).
    split; [reflexivity|].
    repeat (split; [assumption|]).
    split; [|repeat split; assumption].
    rewrite Hlev. apply Double_updateBidAskData_booked.
  - split; [reflexivity|]. split; [reflexivity|]. split; [exact Hsame | reflexivity].
Qed.

(** A candle opened at 00:30:00.000 by a buy at 100, then a sell at 90
    stamped 00:14:59.999: the late sell moves [low] and [close] to 90 and
    adds a level. *)
Lemma late_trade_is_applied_witness :
  let st := fst (Double.processTrade (subscribeRealtime tf_15m 900000 None)
                                     (mkTrade 1800000 "Buy" 100 1)) in
  let late := mkTrade 899999 "Sell" 90 2 in
  candleStartTime (fst (Double.processTrade st late)) = candleStartTime st /\
  finalized (snd (Double.processTrade st late)) = [] /\
  (forall inTime : BybitTrade,
     bucketStart (getTimeframeMs (timeframe st)) (tr_T inTime) = candleStartTime st ->
     tr_S inTime = tr_S late -> tr_p inTime = tr_p late -> tr_v inTime = tr_v late ->
     Double.processTrade st inTime = Double.processTrade st late) /\
  match currentCandle st with
  | None => Double.processTrade st late = (st, [])
  | Some c =>
      exists c',
        Double.processTrade st late
        = (mkConnector (Some c') (timeframe st) (candleStartTime st), [Updated c']) /\
        timestamp c' = timestamp c /\
        open c' = open c /\
        close c' = tr_p late /\
        high c' = Math_max (high c) (tr_p late) /\
        low c' = Math_min (low c) (tr_p late) /\
        DoubleSpec.bookedAt (fdiv (Math_round (fmul (tr_p late) 2)) 2)
                            (tr_v late) (tr_S late)
                            (bidAskData c) (bidAskData c') /\
        delta c' = Math_round (Double.sumDelta (bidAskData c')) /\
        volume c' = Math_round (Double.sumVolume (bidAskData c')) /\
        cvd c'
        = Some (Math_round
                  (fadd (fsub (orZero (cvd c)) (orZero (Some (delta c))))
                        (Double.sumDelta (bidAskData c'))))
  end.
Proof.
  apply (late_trade_is_applied
           (fst (Double.processTrade (subscribeRealtime tf_15m 900000 None)
                                     (mkTrade 1800000 "Buy" 100 1)))
           (mkTrade 899999 "Sell" 90 2)).
  vm_compute. reflexivity.
Defined.

(** C3 fails as stated: in the run above the late trade's bucket (0) is
    earlier than the open candle's open time (1800000), yet the open
    candle is changed: [low] and [close] drop from 100 to 90, a second
    level appears, and [volume] goes from 1 to 3, [delta] from 1 to -1. *)
Lemma late_trade_not_dropped :
  let st := fst (processTrade (subscribeRealtime tf_15m 900000 None)
                              (mkTrade 1800000 "Buy" 100 1)) in
  let late := mkTrade 899999 "Sell" 90 2 in
  exists c c',
    currentCandle st = Some c /\
    (bucketStart (getTimeframeMs (timeframe st)) (tr_T late) < timestamp c)%Z /\
    currentCandle (fst (processTrade st late)) = Some c' /\
    fst (processTrade st late) <> st /\
    (low c == 100 /\ low c' == 90) /\
    (close c == 100 /\ close c' == 90) /\
    (length (bidAskData c) = 1%nat /\ length (bidAskData c') = 2%nat) /\
    (volume c == 1 /\ volume c' == 3) /\
    (delta c == 1 /\ delta c' == -1).
Proof.
  do 2 eexists. split; [reflexivity|]. split; [reflexivity|].
  split; [reflexivity|]. split; [|repeat split; reflexivity].
  intro H. apply (f_equal currentCandle) in H. vm_compute in H. discriminate.
Qed.

Lemma bucketStart_next (m t : Z) :
  (0 < m)%Z -> bucketStart m (t + m) = (bucketStart m t + m)%Z.
Proof.
  intro Hm. unfold bucketStart.
  replace (t + m)%Z with (t + 1 * m)%Z by lia.
  rewrite Z.div_add by lia. lia.
Qed.

Lemma applyTrade_fresh_ohlc (start : Z) (trade : BybitTrade)
    (previous : option OrderFlowCandle) :
  let c := applyTrade trade (newCandle start trade previous) in
  timestamp c = start /\ open c = tr_p trade /\ high c = tr_p trade /\
  low c = tr_p trade /\ close c = tr_p trade.
Proof.
  simpl. rewrite Math_max_same, Math_min_same. repeat split; reflexivity.
Qed.

Lemma bucketStart_succ (m t : Z) :
  (0 < m)%Z ->
  bucketStart m (t + 1) = bucketStart m t \/
  bucketStart m (t + 1) = (bucketStart m t + m)%Z.
Proof.
  intro Hm. unfold bucketStart.
  assert (H : ((t + 1) / m = t / m \/ (t + 1) / m = t / m + 1)%Z).
  { pose proof (Z.div_mod t m ltac:(lia)) as E.
    pose proof (Z.mod_pos_bound t m Hm) as Hr.
    destruct (Z_lt_dec (t mod m + 1) m) as [Hlt|Hge].
    - left. symmetry. apply (Z.div_unique_pos _ _ _ (t mod m + 1)); lia.
    - right. symmetry. apply (Z.div_unique_pos _ _ _ 0); lia. }
  destruct H as [H|H]; rewrite H; [left | right]; lia.
Qed.

Lemma Double_processTrade_rollover (st : Connector) (trade : BybitTrade) :
  (candleStartTime st < bucketStart (getTimeframeMs (timeframe st)) (tr_T trade))%Z ->
  let start := bucketStart (getTimeframeMs (timeframe st)) (tr_T trade) in
  let fresh := newCandle start trade (currentCandle st) in
  Double.processTrade st trade
  = (mkConnector (Some (Double.applyTrade trade fresh)) (timeframe st) start,
     match currentCandle st with
     | Some c => [Finalized c]
     | None => []
     end ++ [Updated (Double.applyTrade trade fresh)]).
Proof.
  intro H. unfold Double.processTrade, rollover.
  rewrite (Zgtb_true _ _ H). reflexivity.
Qed.

Lemma Double_processTrades_cons (st : Connector) (trade : BybitTrade)
    (rest : list BybitTrade) :
  Double.processTrades st (trade :: rest)
  = (fst (Double.processTrades (fst (Double.processTrade st trade)) rest),
     snd (Double.processTrade st trade)
     ++ snd (Double.processTrades (fst (Double.processTrade st trade)) rest)).
Proof.
  simpl. destruct (Double.processTrade st trade) as [st1 e1]. simpl.
  now destruct (Double.processTrades st1 rest).
Qed.

Lemma Double_applyTrade_prices (trade : BybitTrade) (c : OrderFlowCandle) :
  timestamp (Double.applyTrade trade c) = timestamp c /\
  open (Double.applyTrade trade c) = open c /\
  close (Double.applyTrade trade c) = tr_p trade /\
  high (Double.applyTrade trade c) = Math_max (high c) (tr_p trade) /\
  low (Double.applyTrade trade c) = Math_min (low c) (tr_p trade).
Proof. repeat split; reflexivity. Qed.

Lemma Double_applyTrade_fresh_ohlc (start : Z) (trade : BybitTrade)
    (previous : option OrderFlowCandle) :
  let c := Double.applyTrade trade (newCandle start trade previous) in
  timestamp c = start /\ open c = tr_p trade /\ high c = tr_p trade /\
  low c = tr_p trade /\ close c = tr_p trade.
Proof.
  cbv zeta.
  destruct (Double_applyTrade_prices trade (newCandle start trade previous))
    as (Ht & Ho & Hc & Hh & Hl).
  rewrite Ht, Ho, Hc, Hh, Hl. simpl.
  rewrite Math_max_same, Math_min_same. repeat split; reflexivity.
Qed.

(** C4, as the code has it, in binary64 arithmetic: the rollover test
    compares the trade's bucket with the aggregator's [candleStartTime],
    not with the open candle.  When the bucket is later, the open candle, if any, is
    emitted as it stands and a new candle is created with open = high =
    low = close = the trade's price and no levels, to which the trade is
    then applied (leaving the four prices at the trade's price).  When
    the bucket is not later, no candle is emitted as left and none is
    created: with a candle open the trade goes into it, which keeps its
    open time and open price, and with no candle open the trade is
    dropped.  Fed, with no candle open, trades at [t], [t + 1] and
    [t + intervalMs], where the bucket of [t] is later than
    [candleStartTime], the aggregator produces exactly two candles, one
    interval apart: if [t + 1] is in the bucket of [t], the first closed
    with what the first two trades accumulated and the second seeded from
    the third trade's price; if [t + 1] starts the next bucket, the first
    closed with the first trade alone and the second seeded from the second
    trade's price, the third trade going into it. *)
Theorem rollover_creates_candle :
  (forall (st : Connector) (trade : BybitTrade),
     let start := bucketStart (getTimeframeMs (timeframe st)) (tr_T trade) in
     let fresh := newCandle start trade (currentCandle st) in
     let left := match currentCandle st with
                 | Some c => [Finalized c]
                 | None => []
                 end in
     (candleStartTime st < start)%Z ->
     rollover st trade = (mkConnector (Some fresh) (timeframe st) start, left) /\
     (timestamp fresh = start /\ open fresh = tr_p trade /\ high fresh = tr_p trade /\
      low fresh = tr_p trade /\ close fresh = tr_p trade /\ bidAskData fresh = []) /\
     Double.processTrade st trade
     = (mkConnector (Some (Double.applyTrade trade fresh)) (timeframe st) start,
        left ++ [Updated (Double.applyTrade trade fresh)]) /\
     (open (Double.applyTrade trade fresh) = tr_p trade /\
      high (Double.applyTrade trade fresh) = tr_p trade /\
      low (Double.applyTrade trade fresh) = tr_p trade /\
      close (Double.applyTrade trade fresh) = tr_p trade)) /\
  (forall (st : Connector) (trade : BybitTrade),
     (bucketStart (getTimeframeMs (timeframe st)) (tr_T trade) <= candleStartTime st)%Z ->
     rollover st trade = (st, []) /\
     candleStartTime (fst (Double.processTrade st trade)) = candleStartTime st /\
     finalized (snd (Double.processTrade st trade)) = [] /\
     (currentCandle st = None -> Double.processTrade st trade = (st, [])) /\
     (forall c, currentCandle st = Some c ->
        exists c',
          Double.processTrade st trade
          = (mkConnector (Some c') (timeframe st) (candleStartTime st), [Updated c']) /\
          timestamp c' = timestamp c /\ open c' = open c)) /\
  (forall (tf : Timeframe) (now t : Z) (s1 s2 s3 : string) (p1 p2 p3 v1 v2 v3 : Q),
     let intervalMs := getTimeframeMs tf in
     let trade1 := mkTrade t s1 p1 v1 in
     let trade2 := mkTrade (t + 1) s2 p2 v2 in
     let trade3 := mkTrade (t + intervalMs) s3 p3 v3 in
     let opened :=
       Double.applyTrade trade1 (newCandle (bucketStart intervalMs t) trade1 None) in
     (bucketStart intervalMs now < bucketStart intervalMs t)%Z ->
     exists first second,
       candlesOf (Double.processTrades (subscribeRealtime tf now None)
                                       [trade1; trade2; trade3])
       = [first; second] /\
       timestamp first = bucketStart intervalMs t /\
       open first = p1 /\
       timestamp second = (bucketStart intervalMs t + intervalMs)%Z /\
       (bucketStart intervalMs (t + 1) = bucketStart intervalMs t ->
        first = Double.applyTrade trade2 opened /\
        close first = p2 /\
        open second = p3 /\ high second = p3 /\ low second = p3 /\ close second = p3) /\
       (bucketStart intervalMs (t + 1) <> bucketStart intervalMs t ->
        first = opened /\
        close first = p1 /\
        open second = p2 /\ close second = p3 /\
        high second = Math_max p2 p3 /\ low second = Math_min p2 p3)).
Proof.
  split; [|split].
  - intros st trade start fresh left H.
    split.
    { unfold rollover. fold start. now rewrite (Zgtb_true _ _ H). }
    split; [repeat split; reflexivity|].
    split; [exact (Double_processTrade_rollover st trade H)|].
    destruct (Double_applyTrade_fresh_ohlc start trade (currentCandle st))
      as (_ & Ho & Hh & Hl & Hc).
    repeat split; assumption.
  - intros st trade H.
    split.
    { unfold rollover. now rewrite (Zgtb_false _ _ H). }
    rewrite (Double_processTrade_no_rollover st trade H).
    destruct (currentCandle st) as [c|] eqn:Ec.
    + repeat split; try reflexivity; [discriminate|].
      intros c0 E. injection E as <-.
      exists (Double.applyTrade trade c). repeat split; reflexivity.
    + repeat split; try reflexivity. intros c0 E. discriminate.
  - intros tf now t s1 s2 s3 p1 p2 p3 v1 v2 v3 intervalMs trade1 trade2 trade3 opened Hnew.
    pose proof (getTimeframeMs_positive tf) as Hm. fold intervalMs in Hm.
    set (st0 := subscribeRealtime tf now None).
    set (B := bucketStart intervalMs t) in *.
    assert (E1 : Double.processTrade st0 trade1
                 = (mkConnector (Some opened) tf B, [Updated opened])).
    { rewrite Double_processTrade_rollover; [reflexivity | exact Hnew]. }
    assert (Hopened : timestamp opened = B /\ open opened = p1 /\ close opened = p1).
    { destruct (Double_applyTrade_fresh_ohlc B trade1 None) as (Ht & Ho & _ & _ & Hc).
      repeat split; assumption. }
    destruct Hopened as (Hot & Hoo & Hoc).
    assert (E3 : bucketStart intervalMs (t + intervalMs) = (B + intervalMs)%Z)
      by (apply bucketStart_next; exact Hm).
    destruct (Z.eq_dec (bucketStart intervalMs (t + 1)) B) as [Hsame|Hnext].
    + set (a2 := Double.applyTrade trade2 opened).
      set (c2 := Double.applyTrade trade3 (newCandle (B + intervalMs) trade3 (Some a2))).
      assert (E2 : Double.processTrade (mkConnector (Some opened) tf B) trade2
                   = (mkConnector (Some a2) tf B, [Updated a2])).
      { rewrite Double_processTrade_no_rollover; [reflexivity|].
        simpl. fold intervalMs. rewrite Hsame. lia. }
      assert (E4 : Double.processTrade (mkConnector (Some a2) tf B) trade3
                   = (mkConnector (Some c2) tf (B + intervalMs), [Finalized a2; Updated c2])).
      { rewrite Double_processTrade_rollover; simpl; fold intervalMs; rewrite E3;
          [reflexivity | lia]. }
      exists a2, c2.
      destruct (Double_applyTrade_fresh_ohlc (B + intervalMs) trade3 (Some a2))
        as (Ht & Ho & Hh & Hl & Hc).
      fold c2 in Ht, Ho, Hh, Hl, Hc.
      split.
      { rewrite !Double_processTrades_cons, E1. simpl fst. simpl snd.
        rewrite E2. simpl fst. simpl snd. rewrite E4. reflexivity. }
      split; [exact Hot|]. split; [exact Hoo|]. split; [exact Ht|].
      split; [|intro Hn; contradiction].
      intros _. split; [reflexivity|]. split; [reflexivity|].
      repeat split; assumption.
    + assert (Hn : bucketStart intervalMs (t + 1) = (B + intervalMs)%Z).
      { destruct (bucketStart_succ intervalMs t Hm) as [H|H];
          [contradiction | exact H]. }
      set (c2 := Double.applyTrade trade2 (newCandle (B + intervalMs) trade2 (Some opened))).
      set (c3 := Double.applyTrade trade3 c2).
      assert (E2 : Double.processTrade (mkConnector (Some opened) tf B) trade2
                   = (mkConnector (Some c2) tf (B + intervalMs),
                      [Finalized opened; Updated c2])).
      { rewrite Double_processTrade_rollover; simpl; fold intervalMs; rewrite Hn;
          [reflexivity | lia]. }
      assert (E4 : Double.processTrade (mkConnector (Some c2) tf (B + intervalMs)) trade3
                   = (mkConnector (Some c3) tf (B + intervalMs), [Updated c3])).
      { rewrite Double_processTrade_no_rollover; [reflexivity|].
        simpl. fold intervalMs. rewrite E3. lia. }
      exists opened, c3.
      destruct (Double_applyTrade_fresh_ohlc (B + intervalMs) trade2 (Some opened))
        as (Ht & Ho & Hh & Hl & Hc).
      fold c2 in Ht, Ho, Hh, Hl, Hc.
      split.
      { rewrite !Double_processTrades_cons, E1. simpl fst. simpl snd.
        rewrite E2. simpl fst. simpl snd. rewrite E4. reflexivity. }
      destruct (Double_applyTrade_prices trade3 c2) as (Ht3 & Ho3 & Hc3 & Hh3 & Hl3).
      fold c3 in Ht3, Ho3, Hc3, Hh3, Hl3.
      rewrite Ht in Ht3. rewrite Ho in Ho3. rewrite Hh in Hh3. rewrite Hl in Hl3.
      split; [exact Hot|]. split; [exact Hoo|]. split; [exact Ht3|].
      split; [intro Hs; contradiction|].
      intros _.
      split; [reflexivity|]. split; [exact Hoc|]. split; [exact Ho3|].
      split; [exact Hc3|]. split; [exact Hh3 | exact Hl3].
Qed.

(** C4 fails as stated: after [subscribeRealtime] at 00:15:00.000 with
    no last candle, no candle is open, yet a trade at 00:15:00.001 opens
    none and emits nothing; and trades at [t = 900000], [t + 1] and
    [t + intervalMs] produce one candle, not two. *)
Lemma no_candle_no_rollover :
  let st := subscribeRealtime tf_15m 900000 None in
  let trades := [mkTrade 900000 "Buy" 100 1; mkTrade 900001 "Sell" 101 2;
                 mkTrade (900000 + getTimeframeMs tf_15m) "Buy" 102 3] in
  currentCandle st = None /\
  processTrade st (mkTrade 900001 "Sell" 101 2) = (st, []) /\
  length (candlesOf (processTrades st trades)) = 1%nat /\
  length (candlesOf (processTrades st trades)) <> 2%nat.
Proof.
  repeat split; try reflexivity. vm_compute. discriminate.
Qed.

(** ** CVD continuity *)

Lemma cvdChain_comp (q q' : Q) (cs : list OrderFlowCandle) :
  q == q' -> cvdChain q cs -> cvdChain q' cs.
Proof.
  intros E H. destruct cs as [|c rest]; simpl in *; [exact I|].
  destruct H as [H1 H2]. split; [now rewrite <- E | exact H2].
Qed.

Lemma cvdChain_continuous (q : Q) (cs : list OrderFlowCandle) :
  cvdChain q cs -> cvdContinuous cs.
Proof.
  revert q. induction cs as [|c rest IH]; intros q H i Hi.
  - simpl in Hi. lia.
  - destruct H as [_ Hrest].
    destruct i as [|j]; [lia|].
    replace (S j - 1)%nat with j by lia.
    destruct j as [|j'].
    + destruct rest as [|r rest']; [simpl in Hi; lia|].
      simpl. now destruct Hrest.
    + specialize (IH _ Hrest (S j')).
      replace (S j' - 1)%nat with j' in IH by lia.
      simpl in Hi. simpl. apply IH. simpl. lia.
Qed.

Lemma cvdChain_head (q : Q) (c : OrderFlowCandle) (rest : list OrderFlowCandle) :
  cvdChain q (c :: rest) -> cvdOf c == q + delta c.
Proof. now intros [H _]. Qed.

Lemma sumDelta_cons (l : BidAskLevel) (ls : list BidAskLevel) :
  sumDelta (l :: ls) == (bidVol l - askVol l) + sumDelta ls.
Proof.
  unfold sumDelta. simpl.
  rewrite (fold_left_Qplus_shift (fun level => bidVol level - askVol level)). ring.
Qed.

Lemma sumDelta_integral (ls : list BidAskLevel) :
  Forall wholeLevel ls -> integral (sumDelta ls).
Proof.
  induction 1 as [|l ls [Hb Ha] _ IH].
  - apply (integral_inject_Z 0).
  - rewrite sumDelta_cons. apply integral_plus; [|exact IH].
    now apply integral_minus.
Qed.

Lemma approximateLevel_whole (vpl lo range : Q) (bull : bool) (p r : Q) :
  wholeLevel (approximateLevel vpl lo range bull p r).
Proof.
  split; simpl; apply integral_Math_max;
    try apply integral_Math_round; apply (integral_inject_Z 1).
Qed.

Lemma approximateLoop_whole (turns : nat) (i : Z) (rng : nat -> Q) (k : nat)
    (vpl hi lo range : Q) (bull : bool) :
  Forall wholeLevel (fst (approximateLoop turns i rng k vpl hi lo range bull)).
Proof.
  revert i k. induction turns as [|turns IH]; intros i k; simpl.
  - constructor.
  - destruct (Qgtb _ hi); simpl; [constructor|].
    specialize (IH (i + 1)%Z (S k)).
    destruct (approximateLoop turns (i + 1) rng (S k) vpl hi lo range bull)
      as [rest k'].
    simpl in *. constructor; [apply approximateLevel_whole | exact IH].
Qed.

Lemma candlesFrom_chain (rng : nat -> Q) (klines : list Kline) :
  forall (k : nat) (cumulativeDelta : Q),
    integral cumulativeDelta ->
    cvdChain cumulativeDelta (candlesFrom rng k cumulativeDelta klines).
Proof.
  induction klines as [|kline rest IH]; intros k cum Hcum; simpl; [exact I|].
  pose proof (approximateLoop_whole
                (S (Z.to_nat (numLevelsOf (k_high kline - k_low kline)))) 0 rng k
                (k_volume kline / inject_Z (numLevelsOf (k_high kline - k_low kline)))
                (k_high kline) (k_low kline) (k_high kline - k_low kline)
                (Qgtb (k_close kline) (k_open kline))) as Hwhole.
  unfold generateApproximateBidAsk.
  destruct (approximateLoop _ _ _ _ _ _ _ _ _) as [levels k'].
  simpl in Hwhole. apply sumDelta_integral in Hwhole.
  simpl. split.
  - unfold cvdOf. simpl cvd. rewrite orZero_Some.
    rewrite (Math_round_plus_integral _ _ Hcum). reflexivity.
  - apply (cvdChain_comp (cum + sumDelta levels)).
    + unfold cvdOf. simpl cvd. rewrite orZero_Some.
      symmetry. apply Math_round_integral. now apply integral_plus.
    + apply IH. now apply integral_plus.
Qed.

Lemma historyLoop_chain (rng : nat -> Q) (now intervalMs : Z) (bars : nat) :
  forall (k : nat) (currentPrice cumulativeDelta : Q),
    cvdChain cumulativeDelta
      (Mock.historyLoop bars rng k now intervalMs currentPrice cumulativeDelta).
Proof.
  induction bars as [|i IH]; intros k currentPrice cum; simpl; [exact I|].
  destruct (Mock.generateCandle rng k (now - Z.of_nat i * intervalMs) currentPrice)
    as [candle k'].
  simpl. split.
  - unfold cvdOf. simpl cvd. apply orZero_Some.
  - eapply cvdChain_comp; [|apply IH].
    unfold cvdOf. simpl cvd. symmetry. apply orZero_Some.
Qed.

Lemma finalized_app (es es' : list Emitted) :
  finalized (es ++ es') = finalized es ++ finalized es'.
Proof.
  induction es as [|e es IH]; simpl; [reflexivity|].
  destruct e; simpl; now rewrite IH.
Qed.

Lemma candlesOf_cons (st : Connector) (trade : BybitTrade) (rest : list BybitTrade) :
  candlesOf (processTrades st (trade :: rest))
  = finalized (snd (processTrade st trade))
    ++ candlesOf (processTrades (fst (processTrade st trade)) rest).
Proof.
  rewrite processTrades_cons. unfold candlesOf. simpl.
  now rewrite finalized_app, app_assoc.
Qed.

(** C2: CVD continuity holds in the sequences made by the historical
    backfill and by the mock generator, which add each candle's delta to
    a running sum and take the cvd from it; there the first candle's cvd
    is its delta.  The live aggregator instead rounds the sum of the
    previous cvd and the unrounded delta of the levels.  Over the
    rationals that is the previous cvd plus the rounded delta, but the
    addition is one of doubles: after a first candle with cvd 1, a second
    candle fed buys of 0.1 and 0.7 and a sell of 0.3 at one price has the
    level sum 0.49999999999999994, hence delta 0, and the cvd
    [Math.round(1 + 0.49999999999999994) = Math.round(1.5) = 2], which is
    not 1 + 0. *)
Theorem live_cvd_misses_delta :
  let trades := [mkTrade 900000 "Buy" 100 (Double.parseFloat 1);
                 mkTrade 1800000 "Buy" 100 (Double.parseFloat (1 # 10));
                 mkTrade 1800001 "Buy" 100 (Double.parseFloat (7 # 10));
                 mkTrade 1800002 "Sell" 100 (Double.parseFloat (3 # 10))] in
  let run := Double.processTrades (subscribeRealtime tf_15m 0 None) trades in
  map (fun c => (timestamp c, delta c, cvdOf c)) (candlesOf run)
  = [(900000%Z, 1, 1); (1800000%Z, 0, 2)] /\
  map (fun c => Double.sumDelta (bidAskData c)) (candlesOf run)
  = [1; 9007199254740991 # 18014398509481984] /\
  ~ cvdContinuous (candlesOf run) /\
  (forall (rng : nat -> Q) (klines : list Kline),
     cvdContinuous (fetchHistoricalData rng klines) /\
     (forall c rest, fetchHistoricalData rng klines = c :: rest ->
                     cvdOf c == delta c)) /\
  (forall (rng : nat -> Q) (now : Z) (tf : Timeframe) (barsCount : nat),
     cvdContinuous (Mock.generateHistoricalData rng now tf barsCount) /\
     (forall c rest, Mock.generateHistoricalData rng now tf barsCount = c :: rest ->
                     cvdOf c == delta c)) /\
  (forall previousCvd d : Q,
     integral previousCvd ->
     Math_round (previousCvd + d) == previousCvd + Math_round d).
Proof.
  assert (Hseed : forall cs : list OrderFlowCandle, cvdChain 0 cs ->
            forall c rest, cs = c :: rest -> cvdOf c == delta c).
  { intros cs H c rest E. subst cs. apply cvdChain_head in H. rewrite H. ring. }
  cbv zeta.
  split; [vm_compute; reflexivity|].
  split; [vm_compute; reflexivity|].
  split; [|split; [|split]].
  - intro H. specialize (H 1%nat). vm_compute in H.
    assert (Hi : (1 <= 1)%nat /\ (2 <= 2)%nat) by (split; constructor).
    specialize (H Hi). discriminate H.
  - intros rng klines.
    pose proof (candlesFrom_chain rng klines 0%nat 0 (integral_inject_Z 0)) as H.
    split; [exact (cvdChain_continuous _ _ H) | exact (Hseed _ H)].
  - intros rng now tf barsCount.
    pose proof (historyLoop_chain rng now (getTimeframeMs tf) barsCount 0%nat
                                  Mock.basePrice 0) as H.
    split; [exact (cvdChain_continuous _ _ H) | exact (Hseed _ H)].
  - intros previousCvd d H. now apply Math_round_plus_integral.
Qed.

(** ** Historical backfill: the approximate levels *)

Lemma toFixed1_near (x : Q) : x - (1 # 20) <= toFixed1 x /\ toFixed1 x <= x + (1 # 20).
Proof.
  unfold toFixed1. destruct (Qle_bool 0 x).
  - destruct (Math_round_bounds (x * 10)) as [Hl Hu]. unfold Math_round in *.
    set (n := inject_Z (Qfloor (x * 10 + (1 # 2)))) in *.
    assert (E : n / 10 == n * (1 # 10)) by (field).
    rewrite E. split; lra.
  - destruct (Math_round_bounds (- x * 10)) as [Hl Hu]. unfold Math_round in *.
    set (n := inject_Z (Qfloor (- x * 10 + (1 # 2)))) in *.
    assert (E : n / 10 == n * (1 # 10)) by (field).
    rewrite E. split; lra.
Qed.

Lemma Math_max_one_least (x : Q) : 1 <= Math_max x 1.
Proof.
  unfold Math_max. destruct (Qle_bool x 1) eqn:E.
  - apply Qle_refl.
  - apply Qle_bool_false in E. now apply Qlt_le_weak.
Qed.




Lemma turn_offset_nonneg (j : Z) : (0 <= j)%Z -> 0 <= inject_Z j * priceStep.
Proof.
  intro H. apply Qmult_le_0_compat; [|unfold priceStep; lra].
  change 0 with (inject_Z 0). now rewrite <- Zle_Qle.
Qed.

(** *** The levels in binary64 arithmetic *)

Lemma toFixed1_monotone (x y : Q) : x <= y -> toFixed1 x <= toFixed1 y.
Proof.
  intro H. unfold toFixed1.
  assert (Hdiv : forall a b : Z, (a <= b)%Z -> inject_Z a / 10 <= inject_Z b / 10).
  { intros a b Hab. apply Qmult_le_compat_r; [now rewrite <- Zle_Qle | discriminate]. }
  assert (Hpos : forall z : Q, 0 <= z -> 0 <= inject_Z (Qfloor (z * 10 + (1 # 2))) / 10).
  { intros z Hz. apply Qle_trans with (inject_Z 0 / 10); [discriminate|]. apply Hdiv.
    rewrite <- (Qfloor_Z 0). apply Qfloor_resp_le. change (inject_Z 0) with 0. lra. }
  destruct (Qle_bool 0 x) eqn:Ex; destruct (Qle_bool 0 y) eqn:Ey.
  - apply Hdiv, Qfloor_resp_le. lra.
  - apply Qle_bool_iff in Ex. apply Qle_bool_false in Ey. lra.
  - apply Qle_bool_false in Ex. apply Qle_bool_iff in Ey.
    pose proof (Hpos (- x) ltac:(lra)). pose proof (Hpos y Ey). lra.
  - apply Qle_bool_false in Ex. apply Qle_bool_false in Ey.
    apply Qopp_le_compat. apply Hdiv, Qfloor_resp_le. lra.
Qed.

Lemma Double_approximateLoop_In (turns : nat) (rng : nat -> Q) (vpl hi lo range : Q)
    (bull : bool) (l : BidAskLevel) :
  forall (i : Z) (k : nat),
    In l (fst (Double.approximateLoop turns i rng k vpl hi lo range bull)) ->
    exists (j : Z) (n : nat),
      (i <= j)%Z /\
      Double.toFixed1 (fadd lo (fmul (inject_Z j) priceStep)) <= hi /\
      l = Double.approximateLevel vpl lo range bull
            (Double.toFixed1 (fadd lo (fmul (inject_Z j) priceStep))) (rng n).
Proof.
  induction turns as [|turns IH]; intros i k Hin; simpl in Hin; [contradiction|].
  destruct (Qgtb (Double.toFixed1 (fadd lo (fmul (inject_Z i) priceStep))) hi) eqn:Eg;
    [simpl in Hin; contradiction|].
  apply Qgtb_false in Eg.
  specialize (IH (i + 1)%Z (S k)).
  destruct (Double.approximateLoop turns (i + 1) rng (S k) vpl hi lo range bull)
    as [rest k'].
  simpl in Hin, IH. destruct Hin as [Hl|Hin].
  - exists i, k. split; [lia|]. split; [exact Eg | now symmetry].
  - destruct (IH Hin) as (j & n & Hj & Hp & El).
    exists j, n. split; [lia|]. split; assumption.
Qed.

(** The double that the loop rounds to a tenth in turn [j] is not below
    [low]. *)
Lemma Double_turn_value (lo : Q) (j : Z) :
  isDouble lo -> (0 <= j)%Z -> lo <= fadd lo (fmul (inject_Z j) priceStep).
Proof.
  intros Hlo Hj. unfold fadd, fmul.
  assert (H0 : 0 <= round64 (inject_Z j * priceStep)).
  { rewrite <- round64_0 at 1. apply round64_monotone. now apply turn_offset_nonneg. }
  unfold isDouble in Hlo. rewrite <- Hlo at 1. apply round64_monotone. lra.
Qed.

Lemma round64_two_fifths : 0 <= round64 (4 # 10).
Proof. rewrite <- round64_0 at 1. apply round64_monotone. discriminate. Qed.

Lemma Double_pricePositionOf_monotone (lo range p1 p2 : Q) :
  p1 <= p2 -> Double.pricePositionOf lo range p1 <= Double.pricePositionOf lo range p2.
Proof.
  intro H. unfold Double.pricePositionOf.
  destruct (Qgtb range 0) eqn:E; [|apply Qle_refl].
  apply Qgtb_true in E. unfold fdiv, fsub. apply round64_monotone.
  apply Qmult_le_compat_r; [|apply Qlt_le_weak, Qinv_lt_0_compat, E].
  apply round64_monotone. lra.
Qed.

Lemma Double_bidRatioOf_monotone (bull : bool) (x y : Q) :
  x <= y -> Double.bidRatioOf bull y <= Double.bidRatioOf bull x.
Proof.
  intro H. pose proof round64_two_fifths as Hc.
  assert (Hm : fmul (fsub 1 y) (round64 (4 # 10)) <= fmul (fsub 1 x) (round64 (4 # 10))).
  { unfold fmul, fsub. apply round64_monotone.
    apply Qmult_le_compat_r; [|exact Hc]. apply round64_monotone. lra. }
  unfold Double.bidRatioOf, fadd. destruct bull; apply round64_monotone; lra.
Qed.

Lemma Double_approximateLevel_whole (vpl lo range : Q) (bull : bool) (p r : Q) :
  wholeLevel (Double.approximateLevel vpl lo range bull p r).
Proof.
  split; simpl; apply integral_Math_max;
    try apply integral_Math_round; apply (integral_inject_Z 1).
Qed.

Lemma totals_at_least (levels : list BidAskLevel) :
  Forall (fun l => 1 <= bidVol l /\ 1 <= askVol l) levels ->
  inject_Z (2 * Z.of_nat (length levels)) <= bidTotal levels + askTotal levels.
Proof.
  induction 1 as [|l rest [Hb Ha] _ IH].
  - simpl. discriminate.
  - cbn [bidTotal askTotal length].
    replace (2 * Z.of_nat (S (length rest)))%Z
      with (2 + 2 * Z.of_nat (length rest))%Z by lia.
    rewrite inject_Z_plus. change (inject_Z 2) with 2. lra.
Qed.

(** C7, as the code has it, in binary64 arithmetic.  For the levels
    that the backfill makes of a bar: every price is at most [high]; for
    a [low] that is a double it is at least the double nearest to [low]
    less one twentieth (prices are rounded to a tenth), and at least [low]
    when [low] is itself the double of a number with one decimal.  Both
    volumes of every level are whole numbers, at least 1:
    [max(round(volumePerLevel * ratio * randomFactor), 1)] with the bid
    ratio at the level's price (one less it for the ask volume), the
    volume per level [volume / numLevels] and the random factor
    [0.8 + random * 0.4] of some draw; nothing ties their total to the
    bar's volume, and it is at least twice the number of levels.  The bid
    ratio never increases with the price; when [close > open] and the
    range is positive it is 0.8 at [low] and 0.4 at [high]. *)
Theorem generateApproximateBidAsk_levels (rng : nat -> Q) (k : nat)
    (open high low close volume : Q) :
  let levels := fst (Double.generateApproximateBidAsk rng k open high low close volume) in
  let numLevels := Double.numLevelsOf (fsub high low) in
  let volumePerLevel := fdiv volume (inject_Z numLevels) in
  (forall l, In l levels -> price l <= high) /\
  (isDouble low -> forall l, In l levels -> round64 (low - (1 # 20)) <= price l) /\
  (isDouble low -> Double.toFixed1 low == low ->
   forall l, In l levels -> low <= price l) /\
  (forall l, In l levels ->
     wholeLevel l /\ 1 <= bidVol l /\ 1 <= askVol l /\
     exists n : nat,
       let randomFactor := fadd (round64 (8 # 10)) (fmul (rng n) (round64 (4 # 10))) in
       let bidRatio := DoubleSpec.bidRatioAt open high low close (price l) in
       bidVol l
       = Math_max (Math_round (fmul (fmul volumePerLevel bidRatio) randomFactor)) 1 /\
       askVol l
       = Math_max (Math_round (fmul (fmul volumePerLevel (fsub 1 bidRatio)) randomFactor))
                  1) /\
  inject_Z (2 * Z.of_nat (length levels)) <= bidTotal levels + askTotal levels /\
  (forall p1 p2 : Q, p1 <= p2 ->
     DoubleSpec.bidRatioAt open high low close p2
     <= DoubleSpec.bidRatioAt open high low close p1) /\
  (open < close -> 0 < fsub high low ->
   DoubleSpec.bidRatioAt open high low close low = round64 (8 # 10) /\
   DoubleSpec.bidRatioAt open high low close high = round64 (4 # 10)).
Proof.
  intros levels numLevels volumePerLevel.
  assert (Hlevel : forall l, In l levels ->
            exists (j : Z) (n : nat),
              (0 <= j)%Z /\
              Double.toFixed1 (fadd low (fmul (inject_Z j) priceStep)) <= high /\
              l = Double.approximateLevel volumePerLevel low (fsub high low)
                    (Qgtb close open)
                    (Double.toFixed1 (fadd low (fmul (inject_Z j) priceStep))) (rng n)).
  { intros l Hin. unfold levels, Double.generateApproximateBidAsk in Hin.
    exact (Double_approximateLoop_In _ _ _ _ _ _ _ _ _ _ Hin). }
  assert (Hvolumes : forall l, In l levels ->
            wholeLevel l /\ 1 <= bidVol l /\ 1 <= askVol l).
  { intros l Hin. destruct (Hlevel l Hin) as (j & n & Hj & Hp & El).
    subst l. split; [apply Double_approximateLevel_whole|].
    split; apply Math_max_one_least. }
  split; [|split; [|split; [|split; [|split; [|split]]]]].
  - intros l Hin. destruct (Hlevel l Hin) as (j & n & Hj & Hp & El).
    subst l. exact Hp.
  - intros Hlow l Hin. destruct (Hlevel l Hin) as (j & n & Hj & Hp & El).
    subst l. simpl. unfold Double.toFixed1. apply round64_monotone.
    pose proof (Double_turn_value low j Hlow Hj) as Hv.
    destruct (toFixed1_near (fadd low (fmul (inject_Z j) priceStep))) as [Hnear _].
    lra.
  - intros Hlow Htenth l Hin. destruct (Hlevel l Hin) as (j & n & Hj & Hp & El).
    subst l. simpl. rewrite <- Htenth at 1. unfold Double.toFixed1.
    apply round64_monotone, toFixed1_monotone.
    exact (Double_turn_value low j Hlow Hj).
  - intros l Hin. destruct (Hvolumes l Hin) as (Hw & Hb & Ha).
    split; [exact Hw|]. split; [exact Hb|]. split; [exact Ha|].
    destruct (Hlevel l Hin) as (j & n & Hj & Hp & El).
    exists n. subst l. split; reflexivity.
  - apply totals_at_least. apply Forall_forall. intros l Hin.
    destruct (Hvolumes l Hin) as (_ & Hb & Ha). now split.
  - intros p1 p2 Hp. unfold DoubleSpec.bidRatioAt.
    apply Double_bidRatioOf_monotone, Double_pricePositionOf_monotone, Hp.
  - intros Hbull Hrange. unfold DoubleSpec.bidRatioAt.
    assert (Eb : Qgtb close open = true) by now apply Qgtb_true.
    assert (Er : Qgtb (fsub high low) 0 = true) by now apply Qgtb_true.
    unfold Double.pricePositionOf. rewrite Eb, Er.
    assert (Elow : fdiv (fsub low low) (fsub high low) = 0).
    { unfold fdiv. unfold fsub at 1.
      rewrite (round64_comp (low - low) 0) by ring. rewrite round64_0.
      now rewrite (round64_comp (0 / fsub high low) 0) by (field; lra). }
    assert (Ehigh : fdiv (fsub high low) (fsub high low) = 1).
    { unfold fdiv.
      now rewrite (round64_comp (fsub high low / fsub high low) 1) by (field; lra). }
    rewrite Elow, Ehigh. split; vm_compute; reflexivity.
Qed.

(** C7 fails as stated.  The bar of the specification's own scenario
    (open 100, high 110, low 90, close 105, volume 1000) with every draw
    0.0 gets 41 levels whose volumes add up to 820, which is 180 short of
    the bar's volume; and a bar with low 100.125 gets a first level at
    100.1, below its low. *)
Lemma approximate_levels_miss_bar :
  let levels := fst (generateApproximateBidAsk (fun _ => 0) 0 100 110 90 105 1000) in
  let levels' :=
    fst (generateApproximateBidAsk (fun _ => 0) 0 100 101 (801 # 8) (1005 # 10) 1000) in
  length levels = 41%nat /\
  sumVolume levels == 820 /\
  ~ withinRounding levels 1000 /\
  (exists l, In l levels' /\ price l == 1001 # 10 /\ price l < 801 # 8).
Proof.
  split; [reflexivity|]. split; [reflexivity|]. split.
  - intro H. vm_compute in H. apply H. reflexivity.
  - eexists. split; [left; reflexivity|]. split; reflexivity.
Qed.

(** ** The live aggregator: the levels of the open candle *)

Lemma findLevel_None (p : Q) (levels : list BidAskLevel) :
  findLevel p levels = None <-> ~ InA Qeq p (map price levels).
Proof.
  unfold findLevel. induction levels as [|l ls IH]; simpl.
  - split; [intros _ H; inversion H | reflexivity].
  - destruct (Qeq_bool (price l) p) eqn:E.
    + split; [discriminate|]. intro H. exfalso. apply H.
      constructor. apply Qeq_bool_iff in E. now symmetry.
    + rewrite IH. split.
      * intros H Hin. inversion Hin; subst; [|contradiction].
        assert (Ht : Qeq_bool (price l) p = true)
          by (apply Qeq_bool_iff; now symmetry).
        congruence.
      * intros H Hin. apply H. now constructor 2.
Qed.

Lemma addVolume_price (side : string) (vol : Q) (l : BidAskLevel) :
  price (addVolume side vol l) = price l.
Proof. unfold addVolume. now destruct (String.eqb side "Buy"). Qed.

Lemma bumpFirst_prices (p vol : Q) (side : string) (levels : list BidAskLevel) :
  map price (bumpFirst p vol side levels) = map price levels.
Proof.
  induction levels as [|l ls IH]; simpl; [reflexivity|].
  destruct (Qeq_bool (price l) p); simpl.
  - now rewrite addVolume_price.
  - now rewrite IH.
Qed.

Lemma Double_addVolume_price (side : string) (vol : Q) (l : BidAskLevel) :
  price (Double.addVolume side vol l) = price l.
Proof. unfold Double.addVolume. now destruct (String.eqb side "Buy"). Qed.

Lemma Double_bumpFirst_prices (p vol : Q) (side : string) (levels : list BidAskLevel) :
  map price (Double.bumpFirst p vol side levels) = map price levels.
Proof.
  induction levels as [|l ls IH]; simpl; [reflexivity|].
  destruct (Qeq_bool (price l) p); simpl.
  - now rewrite Double_addVolume_price.
  - now rewrite IH.
Qed.

Lemma Double_updateBidAskData_unique (p vol : Q) (side : string)
    (levels : list BidAskLevel) :
  uniquePrices levels -> uniquePrices (Double.updateBidAskData p vol side levels).
Proof.
  unfold uniquePrices, Double.updateBidAskData. intro H.
  destruct (findLevel p levels) eqn:E.
  - now rewrite Double_bumpFirst_prices.
  - apply findLevel_None in E.
    rewrite map_app. simpl. rewrite Double_addVolume_price. simpl.
    apply NoDupA_app; [exact Q_Setoid | exact H | |].
    + constructor; [intro Hin; inversion Hin | constructor].
    + intros x Hx Hp. inversion Hp as [? ? Hxp|? ? Hnil]; subst; [|inversion Hnil].
      apply E. eapply InA_eqA; [exact Q_Setoid | exact Hxp | exact Hx].
Qed.

Lemma Double_processTrade_unique (st : Connector) (trade : BybitTrade) :
  (forall c, currentCandle st = Some c -> uniquePrices (bidAskData c)) ->
  forall c, currentCandle (fst (Double.processTrade st trade)) = Some c ->
            uniquePrices (bidAskData c).
Proof.
  intros Hst c Hc. unfold Double.processTrade in Hc.
  destruct (rollover st trade) as [st1 ev] eqn:E.
  assert (Hst1 : forall c1, currentCandle st1 = Some c1 -> uniquePrices (bidAskData c1)).
  { intros c1 Hc1. unfold rollover in E.
    destruct (bucketStart _ _ >? candleStartTime st)%Z; inversion E; subst.
    - simpl in Hc1. inversion Hc1; subst. simpl. constructor.
    - now apply Hst. }
  destruct (currentCandle st1) as [c1|] eqn:Ec1; simpl in Hc.
  - inversion Hc; subst. simpl.
    apply Double_updateBidAskData_unique. now apply Hst1.
  - congruence.
Qed.

(** C9, as the code has it, in binary64 arithmetic: the levels of the
    open candle are a list in order of first arrival, with no price
    twice.  A trade at a price not yet present appends a level at the end,
    with the trade's volume on the trade's side and nothing on the other;
    a trade at a price already present updates the first (and only) level
    of that price where it is: the trade's volume is added to [bidVol] for
    a buy and to [askVol] otherwise, and every other level, before and
    after it, stays as it was.  A candle the aggregator starts has no
    levels, and no sequence of trades makes a price appear twice. *)
Theorem levels_unique_in_arrival_order :
  (forall (p vol : Q) (side : string) (levels : list BidAskLevel),
     findLevel p levels = None ->
     Double.updateBidAskData p vol side levels
     = levels ++ [if String.eqb side "Buy"
                  then mkLevel p (fadd 0 vol) 0
                  else mkLevel p 0 (fadd 0 vol)]) /\
  (forall (p vol : Q) (side : string) (levels : list BidAskLevel) (l : BidAskLevel),
     findLevel p levels = Some l ->
     exists before after,
       levels = before ++ l :: after /\
       Forall (fun x => ~ price x == p) before /\
       price l == p /\
       Double.updateBidAskData p vol side levels
       = before
         ++ (if String.eqb side "Buy"
             then mkLevel (price l) (fadd (bidVol l) vol) (askVol l)
             else mkLevel (price l) (bidVol l) (fadd (askVol l) vol))
         :: after) /\
  (forall (p vol : Q) (side : string) (levels : list BidAskLevel),
     findLevel p levels <> None ->
     map price (Double.updateBidAskData p vol side levels) = map price levels) /\
  (forall (start : Z) (trade : BybitTrade) (previous : option OrderFlowCandle),
     bidAskData (newCandle start trade previous) = []) /\
  (forall (st : Connector) (trades : list BybitTrade),
     (forall c, currentCandle st = Some c -> uniquePrices (bidAskData c)) ->
     (forall c, currentCandle (fst (Double.processTrades st trades)) = Some c ->
                uniquePrices (bidAskData c)) /\
     (forall c, In (Updated c) (snd (Double.processTrades st trades)) ->
                uniquePrices (bidAskData c))).
Proof.
  split; [|split; [|split; [|split]]].
  - intros p vol side levels H. unfold Double.updateBidAskData. rewrite H.
    unfold Double.addVolume. simpl. now destruct (String.eqb side "Buy").
  - intros p vol side levels l H.
    assert (Hsplit : exists before after,
              levels = before ++ l :: after /\
              Forall (fun x => ~ price x == p) before /\ price l == p).
    { clear vol side. unfold findLevel in H.
      induction levels as [|x rest IH]; simpl in H; [discriminate|].
      destruct (Qeq_bool (price x) p) eqn:E.
      - injection H as ->. exists [], rest.
        repeat split; [constructor | now apply Qeq_bool_iff].
      - destruct (IH H) as (before & after & El & Hb & Hp).
        exists (x :: before), after. repeat split.
        + simpl. now rewrite <- El.
        + constructor; [|exact Hb]. intro Hx. apply Qeq_bool_iff in Hx. congruence.
        + exact Hp. }
    destruct Hsplit as (before & after & El & Hb & Hp).
    exists before, after. repeat split; try assumption.
    destruct (Double_updateBidAskData_booked p vol side levels) as [_ Hbooked].
    exact (Hbooked before after l El Hb Hp).
  - intros p vol side levels H. unfold Double.updateBidAskData.
    destruct (findLevel p levels); [apply Double_bumpFirst_prices | congruence].
  - reflexivity.
  - intros st trades. revert st.
    induction trades as [|trade rest IH]; intros st Hst.
    + simpl. split; [exact Hst | intros c []].
    + rewrite Double_processTrades_cons. simpl fst. simpl snd.
      pose proof (Double_processTrade_unique st trade Hst) as Hst1.
      destruct (IH (fst (Double.processTrade st trade)) Hst1) as [Hopen Hemitted].
      split; [exact Hopen|].
      intros c Hin. apply in_app_or in Hin. destruct Hin as [Hin|Hin];
        [|now apply Hemitted].
      unfold Double.processTrade in Hin, Hst1.
      destruct (rollover st trade) as [st1 ev] eqn:E.
      assert (Hev : forall x, In (Updated x) ev -> False).
      { intros x Hx. unfold rollover in E.
        destruct (bucketStart _ _ >? candleStartTime st)%Z; inversion E; subst.
        - destruct (currentCandle st); simpl in Hx; [destruct Hx as [Hx|[]]|destruct Hx].
          discriminate.
        - destruct Hx. }
      destruct (currentCandle st1) as [c1|] eqn:Ec1; simpl in Hin, Hst1.
      * apply in_app_or in Hin. destruct Hin as [Hin|[Hin|[]]].
        -- exfalso. exact (Hev c Hin).
        -- injection Hin as <-. now apply Hst1.
      * exfalso. exact (Hev c Hin).
Qed.

(** C9 fails as stated: three trades of one bucket at 101, 100 and 102
    leave the levels in that order, which is neither ascending nor
    descending by price. *)
Lemma levels_not_ordered_by_price :
  let run := processTrades (subscribeRealtime tf_15m 0 None)
               [mkTrade 900000 "Buy" 101 1; mkTrade 900001 "Sell" 100 1;
                mkTrade 900002 "Buy" 102 1] in
  exists c,
    currentCandle (fst run) = Some c /\
    Forall2 Qeq (map price (bidAskData c)) [101; 100; 102] /\
    ascendingByPrice (bidAskData c) = false /\
    descendingByPrice (bidAskData c) = false.
Proof.
  eexists. split; [reflexivity|].
  split; [repeat constructor | split; reflexivity].
Qed.

(** ** A worked run *)

(** Five trades over three buckets of fifteen minutes, from a
    subscription with no last candle: per candle its open time, delta,
    volume, cvd and levels.  The deltas are 1, -2, 3 and the cvds 1, -1,
    2, against level sums of 1.25, -1.75 and 2.5. *)
Example live_run :
  let run := processTrades (subscribeRealtime tf_15m 0 None)
               [mkTrade 900000 "Buy" 100 (3 # 2);
                mkTrade 900001 "Sell" (201 # 2) (1 # 4);
                mkTrade 1800000 "Sell" 99 (11 # 4);
                mkTrade 1800500 "Buy" 99 1;
                mkTrade 2700000 "Buy" 101 (5 # 2)] in
  map (fun c => (timestamp c, Qred (delta c), Qred (volume c), Qred (cvdOf c),
                 map (fun l => (Qred (price l), Qred (bidVol l), Qred (askVol l)))
                     (bidAskData c)))
      (candlesOf run)
  = [(900000%Z, 1, 2, 1, [(100, 3 # 2, 0); (201 # 2, 0, 1 # 4)]);
     (1800000%Z, -2, 4, -1, [(99, 1, 11 # 4)]);
     (2700000%Z, 3, 3, 2, [(101, 5 # 2, 0)])].
Proof. vm_compute. reflexivity. Qed.

(** The same run in binary64 arithmetic: every number in it is a double
    and so is every sum, and the candles are the same. *)
Example live_run_in_doubles :
  let trades := [mkTrade 900000 "Buy" 100 (3 # 2);
                 mkTrade 900001 "Sell" (201 # 2) (1 # 4);
                 mkTrade 1800000 "Sell" 99 (11 # 4);
                 mkTrade 1800500 "Buy" 99 1;
                 mkTrade 2700000 "Buy" 101 (5 # 2)] in
  let view := map (fun c => (timestamp c, Qred (delta c), Qred (volume c), Qred (cvdOf c),
                             map (fun l => (Qred (price l), Qred (bidVol l), Qred (askVol l)))
                                 (bidAskData c))) in
  view (candlesOf (Double.processTrades (subscribeRealtime tf_15m 0 None) trades))
  = view (candlesOf (processTrades (subscribeRealtime tf_15m 0 None) trades)).
Proof. vm_compute. reflexivity. Qed.

(** * Further properties *)

Import Facts.

(** ** Buckets *)

(** X1: the bucket of a trade time starts at or before it and less than
    one timeframe before it, is a multiple of the timeframe, is its own
    bucket, and does not decrease when the trade time increases. *)
Theorem bucketStart_aligned (tf : Timeframe) (t t' : Z) :
  let intervalMs := getTimeframeMs tf in
  (bucketStart intervalMs t <= t < bucketStart intervalMs t + intervalMs)%Z /\
  (bucketStart intervalMs t mod intervalMs = 0)%Z /\
  bucketStart intervalMs (bucketStart intervalMs t) = bucketStart intervalMs t /\
  ((t <= t')%Z -> (bucketStart intervalMs t <= bucketStart intervalMs t')%Z).
Proof.
  intro intervalMs.
  pose proof (getTimeframeMs_positive tf) as Hm. fold intervalMs in Hm.
  unfold bucketStart.
  pose proof (Z.div_mod t intervalMs ltac:(lia)) as Hdm.
  pose proof (Z.mod_pos_bound t intervalMs Hm) as Hb.
  split; [lia|]. split; [apply Z.mod_mul; lia|]. split.
  - rewrite Z.div_mul by lia. reflexivity.
  - intro Hle. apply Z.mul_le_mono_nonneg_r; [lia|].
    apply Z.div_le_mono; lia.
Qed.

(** ** The live aggregator: what a run keeps *)

Lemma Math_max_bounds (a b : Q) : a <= Math_max a b /\ b <= Math_max a b.
Proof.
  unfold Math_max. destruct (Qle_bool a b) eqn:E.
  - apply Qle_bool_iff in E. split; [exact E | apply Qle_refl].
  - apply Qle_bool_false in E. split; [apply Qle_refl | now apply Qlt_le_weak].
Qed.

Lemma Math_min_bounds (a b : Q) : Math_min a b <= a /\ Math_min a b <= b.
Proof.
  unfold Math_min. destruct (Qle_bool a b) eqn:E.
  - apply Qle_bool_iff in E. split; [apply Qle_refl | exact E].
  - apply Qle_bool_false in E. split; [now apply Qlt_le_weak | apply Qle_refl].
Qed.

(** A property of candles that every trade of a kind keeps and every
    candle opened by such a trade has holds of every candle that a run of
    such trades emits or leaves open. *)
Lemma processTrades_keeps_for (T : BybitTrade -> Prop) (P : OrderFlowCandle -> Prop) :
  (forall trade c, T trade -> P c -> P (applyTrade trade c)) ->
  (forall start trade previous,
     T trade -> P (applyTrade trade (newCandle start trade previous))) ->
  forall (trades : list BybitTrade) (st : Connector),
    Forall T trades ->
    (forall c, currentCandle st = Some c -> P c) ->
    (forall c, currentCandle (fst (processTrades st trades)) = Some c -> P c) /\
    (forall e, In e (snd (processTrades st trades)) -> P (Page.emittedCandle e)).
Proof.
  intros Hstep Hnew.
  induction trades as [|trade rest IH]; intros st HT Hst.
  - simpl. split; [exact Hst | tauto].
  - inversion HT as [|? ? Ht Hrest]; subst.
    rewrite processTrades_cons. simpl fst. simpl snd.
    set (start := bucketStart (getTimeframeMs (timeframe st)) (tr_T trade)).
    assert (Hone : (forall c, currentCandle (fst (processTrade st trade)) = Some c -> P c)
                   /\ (forall e, In e (snd (processTrade st trade)) ->
                                 P (Page.emittedCandle e))).
    { destruct (Z_le_gt_dec start (candleStartTime st)) as [Hle|Hgt].
      - rewrite (processTrade_no_rollover st trade Hle).
        destruct (currentCandle st) as [c|] eqn:Ec; simpl.
        + split.
          * intros c' E. inversion E; subst. apply Hstep; [exact Ht | now apply Hst].
          * intros e [E|[]]. subst e. simpl. apply Hstep; [exact Ht | now apply Hst].
        + split; [|tauto]. intros c E. rewrite Ec in E. discriminate.
      - rewrite (processTrade_rollover st trade ltac:(fold start; lia)).
        fold start. simpl. split.
        + intros c' E. inversion E; subst. now apply Hnew.
        + intros e Hin. apply in_app_or in Hin. destruct Hin as [Hin|[E|[]]].
          * destruct (currentCandle st) as [c|] eqn:Ec; [|destruct Hin].
            destruct Hin as [E|[]]. subst e. simpl. now apply Hst.
          * subst e. simpl. now apply Hnew. }
    destruct Hone as [Hcur Hev].
    destruct (IH (fst (processTrade st trade)) Hrest Hcur) as [IHcur IHev].
    split; [exact IHcur|].
    intros e Hin. apply in_app_or in Hin. destruct Hin; auto.
Qed.

Lemma processTrades_keeps (P : OrderFlowCandle -> Prop) :
  (forall trade c, P c -> P (applyTrade trade c)) ->
  (forall start trade previous, P (applyTrade trade (newCandle start trade previous))) ->
  forall (trades : list BybitTrade) (st : Connector),
    (forall c, currentCandle st = Some c -> P c) ->
    (forall c, currentCandle (fst (processTrades st trades)) = Some c -> P c) /\
    (forall e, In e (snd (processTrades st trades)) -> P (Page.emittedCandle e)).
Proof.
  intros Hstep Hnew trades st.
  apply (processTrades_keeps_for (fun _ => True) P); auto.
  apply Forall_forall. auto.
Qed.

Lemma applyTrade_bracketed (trade : BybitTrade) (c : OrderFlowCandle) :
  bracketed c -> bracketed (applyTrade trade c).
Proof.
  intros (H1 & H2 & H3 & H4). unfold bracketed. simpl.
  destruct (Math_max_bounds (high c) (tr_p trade)) as [Ha Hb].
  destruct (Math_min_bounds (low c) (tr_p trade)) as [Hc Hd].
  split; [exact (Qle_trans _ _ _ Hc H1)|].
  split; [exact (Qle_trans _ _ _ H2 Ha)|].
  split; assumption.
Qed.

(** X2: open and close stay between low and high.  If they do in the
    candle a run starts from (or there is none), they do in every candle
    the run emits and in the candle it leaves open. *)
Theorem processTrades_bracketed (st : Connector) (trades : list BybitTrade) :
  (forall c, currentCandle st = Some c -> bracketed c) ->
  (forall c, currentCandle (fst (processTrades st trades)) = Some c -> bracketed c) /\
  (forall e, In e (snd (processTrades st trades)) -> bracketed (Page.emittedCandle e)).
Proof.
  apply (processTrades_keeps bracketed).
  - apply applyTrade_bracketed.
  - intros start trade previous.
    destruct (applyTrade_fresh_ohlc start trade previous) as (_ & Ho & Hh & Hl & Hc).
    unfold bracketed. rewrite Ho, Hh, Hl, Hc. repeat split; apply Qle_refl.
Qed.

Lemma processTrades_bracketed_witness :
  let st := subscribeRealtime tf_15m 0 None in
  let trades := [mkTrade 900000 "Buy" 100 1; mkTrade 900001 "Sell" 98 2;
                 mkTrade 900002 "Buy" 103 1] in
  (forall c, currentCandle (fst (processTrades st trades)) = Some c -> bracketed c) /\
  (forall e, In e (snd (processTrades st trades)) -> bracketed (Page.emittedCandle e)).
Proof.
  apply (processTrades_bracketed (subscribeRealtime tf_15m 0 None)).
  simpl. intros c H. discriminate.
Defined.

Lemma sumVolume_shift (ls : list BidAskLevel) (a : Q) :
  fold_left (fun sum level => sum + bidVol level + askVol level) ls a
  == a + sumVolume ls.
Proof.
  unfold sumVolume. revert a. induction ls as [|l ls IH]; intro a; simpl.
  - ring.
  - rewrite IH, (IH (0 + bidVol l + askVol l)). ring.
Qed.

Lemma sumVolume_cons (l : BidAskLevel) (ls : list BidAskLevel) :
  sumVolume (l :: ls) == bidVol l + askVol l + sumVolume ls.
Proof.
  unfold sumVolume at 1. simpl. rewrite sumVolume_shift. ring.
Qed.






Lemma applyTrades_cons (trade : BybitTrade) (rest : list BybitTrade)
    (c : OrderFlowCandle) :
  applyTrades (trade :: rest) c = applyTrades rest (applyTrade trade c).
Proof. reflexivity. Qed.

(** A run of trades none of which rolls over is [applyTrades] on the
    open candle. *)
Lemma processTrades_one_candle (trades : list BybitTrade) :
  forall (st : Connector) (c : OrderFlowCandle),
    currentCandle st = Some c ->
    (forall trade, In trade trades ->
       (bucketStart (getTimeframeMs (timeframe st)) (tr_T trade)
        <= candleStartTime st)%Z) ->
    fst (processTrades st trades)
    = mkConnector (Some (applyTrades trades c)) (timeframe st) (candleStartTime st).
Proof.
  induction trades as [|trade rest IH]; intros st c Hc Hall.
  - simpl. destruct st. simpl in *. now subst.
  - rewrite processTrades_cons. simpl fst.
    rewrite (processTrade_no_rollover st trade (Hall trade (or_introl eq_refl))), Hc.
    simpl fst.
    rewrite (IH (mkConnector (Some (applyTrade trade c)) (timeframe st)
                             (candleStartTime st))
                (applyTrade trade c) eq_refl).
    + reflexivity.
    + intros t Ht. simpl. apply Hall. now right.
Qed.


(** ** The live aggregator: the level table *)

Lemma addVolume_first_match (p vol : Q) (side : string) (levels : list BidAskLevel)
    (l : BidAskLevel) :
  findLevel p levels = Some l ->
  findLevel p (bumpFirst p vol side levels) = Some (addVolume side vol l).
Proof.
  unfold findLevel. induction levels as [|x xs IH]; simpl; [discriminate|].
  destruct (Qeq_bool (price x) p) eqn:E; simpl.
  - intro H. inversion H; subst. now rewrite addVolume_price, E.
  - rewrite E. exact IH.
Qed.

Lemma Qeq_bool_other (a p q : Q) : a == p -> ~ q == p -> Qeq_bool a q = false.
Proof.
  intros Ha Hq. destruct (Qeq_bool a q) eqn:E; [|reflexivity].
  apply Qeq_bool_iff in E. exfalso. apply Hq. now rewrite <- E.
Qed.

Lemma bumpFirst_other (p q vol : Q) (side : string) (levels : list BidAskLevel) :
  ~ q == p -> findLevel q (bumpFirst p vol side levels) = findLevel q levels.
Proof.
  intro Hq. unfold findLevel. induction levels as [|x xs IH]; simpl; [reflexivity|].
  destruct (Qeq_bool (price x) p) eqn:E; simpl.
  - rewrite addVolume_price.
    apply Qeq_bool_iff in E. now rewrite (Qeq_bool_other _ p q E Hq).
  - destruct (Qeq_bool (price x) q); [reflexivity | exact IH].
Qed.

Lemma find_app {A : Type} (f : A -> bool) (xs ys : list A) :
  find f (xs ++ ys) = match find f xs with Some x => Some x | None => find f ys end.
Proof.
  induction xs as [|x xs IH]; simpl; [reflexivity|].
  now destruct (f x).
Qed.

(** X4: looking a price up after a trade at it.  The level found at the
    traded price is the level found there before (a level of no volume
    when there was none) with the trade's volume added on the trade's
    side; what is found at any other price is what was found before. *)
Theorem findLevel_after_update (p vol : Q) (side : string) (levels : list BidAskLevel) :
  findLevel p (updateBidAskData p vol side levels)
  = Some (addVolume side vol
            match findLevel p levels with
            | Some l => l
            | None => mkLevel p 0 0
            end) /\
  (forall q : Q, ~ q == p ->
     findLevel q (updateBidAskData p vol side levels) = findLevel q levels).
Proof.
  unfold updateBidAskData. destruct (findLevel p levels) as [l|] eqn:E.
  - split; [now apply addVolume_first_match|].
    intros q Hq. now apply bumpFirst_other.
  - split.
    + unfold findLevel in *. rewrite find_app, E. simpl.
      rewrite addVolume_price. simpl.
      now rewrite (proj2 (Qeq_bool_iff p p) (Qeq_refl p)).
    + intros q Hq. unfold findLevel in *. rewrite find_app.
      destruct (find (fun l => Qeq_bool (price l) q) levels); [reflexivity|]. simpl.
      rewrite addVolume_price. simpl.
      now rewrite (Qeq_bool_other p p q (Qeq_refl p) Hq).
Qed.

Lemma grown_refl (levels : list BidAskLevel) : grown levels levels.
Proof.
  intros i l H. exists l. repeat split; auto; apply Qle_refl.
Qed.

Lemma grown_trans (a b c : list BidAskLevel) : grown a b -> grown b c -> grown a c.
Proof.
  intros Hab Hbc i l H.
  destruct (Hab i l H) as (l' & H' & Hp & Hb & Ha).
  destruct (Hbc i l' H') as (l'' & H'' & Hp' & Hb' & Ha').
  exists l''. split; [exact H''|]. split; [congruence|].
  split; eapply Qle_trans; eassumption.
Qed.

Lemma addVolume_grows (side : string) (vol : Q) (l : BidAskLevel) :
  0 <= vol ->
  bidVol l <= bidVol (addVolume side vol l) /\ askVol l <= askVol (addVolume side vol l).
Proof.
  intro H. unfold addVolume. destruct (String.eqb side "Buy"); simpl; split; lra.
Qed.

Lemma bumpFirst_grown (p vol : Q) (side : string) (levels : list BidAskLevel) :
  0 <= vol -> grown levels (bumpFirst p vol side levels).
Proof.
  intro Hv. induction levels as [|x xs IH]; simpl; [apply grown_refl|].
  destruct (Qeq_bool (price x) p).
  - intros [|i] l H; simpl in *.
    + inversion H; subst. exists (addVolume side vol l).
      split; [reflexivity|]. split; [apply addVolume_price|].
      now apply addVolume_grows.
    + exists l. repeat split; auto; apply Qle_refl.
  - intros [|i] l H; simpl in *.
    + exists l. repeat split; auto; apply Qle_refl.
    + now apply IH.
Qed.

Lemma updateBidAskData_grown (p vol : Q) (side : string) (levels : list BidAskLevel) :
  0 <= vol -> grown levels (updateBidAskData p vol side levels).
Proof.
  intro Hv. unfold updateBidAskData. destruct (findLevel p levels).
  - now apply bumpFirst_grown.
  - intros i l H. exists l. split.
    + rewrite nth_error_app1; [exact H|].
      apply nth_error_Some. congruence.
    + repeat split; auto; apply Qle_refl.
Qed.

(** X5: volumes only accumulate.  While trades of volume at least 0 are
    applied to a candle, every level stays at its place in the list with
    its price, and neither its bidVol nor its askVol ever gets smaller. *)
Theorem levels_only_grow (trades : list BybitTrade) (c : OrderFlowCandle) :
  (forall trade, In trade trades -> 0 <= tr_v trade) ->
  grown (bidAskData c) (bidAskData (applyTrades trades c)).
Proof.
  revert c. induction trades as [|trade rest IH]; intros c Hall.
  - apply grown_refl.
  - rewrite applyTrades_cons.
    apply (grown_trans _ (bidAskData (applyTrade trade c))).
    + simpl. apply updateBidAskData_grown. apply Hall. now left.
    + apply IH. intros t Ht. apply Hall. now right.
Qed.

Lemma levels_only_grow_witness :
  grown [mkLevel 100 1 2]
        (bidAskData (applyTrades [mkTrade 0 "Buy" 100 3; mkTrade 1 "Sell" 101 (1 # 2)]
                                 (mkCandle 0 100 100 100 100 [mkLevel 100 1 2] 0 0 None))).
Proof.
  apply (levels_only_grow [mkTrade 0 "Buy" 100 3; mkTrade 1 "Sell" 101 (1 # 2)]
                          (mkCandle 0 100 100 100 100 [mkLevel 100 1 2] 0 0 None)).
  intros trade [E|[E|[]]]; subst trade; simpl; lra.
Defined.

(** ** The live aggregator: what it emits *)

Lemma updates_app (es es' : list Emitted) : updates (es ++ es') = updates es ++ updates es'.
Proof.
  induction es as [|e es IH]; simpl; [reflexivity|].
  destruct e; simpl; now rewrite IH.
Qed.

(** After one trade: either nothing was open and nothing changed, or a
    candle is open and it is the one update emitted. *)
Lemma processTrade_updates (st : Connector) (trade : BybitTrade) :
  (currentCandle st = None /\ processTrade st trade = (st, []))
  \/ exists c, currentCandle (fst (processTrade st trade)) = Some c /\
               updates (snd (processTrade st trade)) = [c].
Proof.
  destruct (processTrade_cases st trade) as [H|(c & Hc & E)]; [now left|].
  right. exists (applyTrade trade c). rewrite E. simpl. split; [reflexivity|].
  rewrite updates_app. simpl.
  unfold rollover. destruct (bucketStart _ _ >? candleStartTime st)%Z; simpl.
  - now destruct (currentCandle st).
  - reflexivity.
Qed.

(** X6: one update per trade.  A run emits at most one update per
    trade; from a state with a candle open it emits exactly one per
    trade and a candle stays open; and whenever a run has emitted an
    update, the last one is the candle it leaves open. *)
Theorem one_update_per_trade (st : Connector) (trades : list BybitTrade) :
  let run := processTrades st trades in
  (length (updates (snd run)) <= length trades)%nat /\
  (currentCandle st <> None ->
   length (updates (snd run)) = length trades /\ currentCandle (fst run) <> None) /\
  (updates (snd run) <> [] ->
   currentCandle (fst run) = Some (last (updates (snd run)) noCandle)).
Proof.
  revert st. induction trades as [|trade rest IH]; intro st.
  - simpl. split; [lia|]. split; [tauto | congruence].
  - cbv zeta. rewrite processTrades_cons. simpl fst. simpl snd.
    rewrite updates_app, length_app.
    specialize (IH (fst (processTrade st trade))). cbv zeta in IH.
    destruct IH as (IHle & IHsome & IHlast).
    destruct (processTrade_updates st trade) as [[Hn E]|(c & Hc & Hu)].
    + rewrite E in *. simpl in *. split; [lia|]. split; [congruence|].
      exact IHlast.
    + rewrite Hu. simpl length. split; [lia|]. split.
      * intros _. destruct (IHsome ltac:(congruence)) as [Hlen Hopen].
        split; [lia | exact Hopen].
      * intros _.
        destruct (updates (snd (processTrades (fst (processTrade st trade)) rest)))
          as [|u us] eqn:Eu.
        -- simpl.
           assert (Hrest : forall (ts : list BybitTrade) (s : Connector),
                     currentCandle s <> None ->
                     updates (snd (processTrades s ts)) = [] -> ts = []).
           { intros ts s Hs Hnil. destruct ts as [|t ts']; [reflexivity|].
             exfalso. rewrite processTrades_cons in Hnil. simpl snd in Hnil.
             rewrite updates_app in Hnil.
             destruct (processTrade_updates s t) as [[Hn' _]|(c' & _ & Hu')];
               [contradiction|].
             rewrite Hu' in Hnil. discriminate. }
           assert (Hopen : currentCandle (fst (processTrade st trade)) <> None)
             by (rewrite Hc; discriminate).
           rewrite (Hrest rest (fst (processTrade st trade)) Hopen Eu).
           simpl. exact Hc.
        -- rewrite IHlast by discriminate. reflexivity.
Qed.

(** Every candle of the produced sequence is the candle the run started
    from, in some later state of its volumes, or was opened later than
    the starting [candleStartTime]. *)
Lemma candlesOf_times (trades : list BybitTrade) :
  forall (st : Connector) (x : OrderFlowCandle),
    In x (candlesOf (processTrades st trades)) ->
    (exists c, currentCandle st = Some c /\ timestamp x = timestamp c)
    \/ (candleStartTime st < timestamp x)%Z.
Proof.
  induction trades as [|trade rest IH]; intros st x Hin.
  - unfold candlesOf in Hin. simpl in Hin.
    destruct (currentCandle st) as [c|]; [|destruct Hin].
    destruct Hin as [E|[]]. subst x. left. now exists c.
  - rewrite candlesOf_cons in Hin.
    set (start := bucketStart (getTimeframeMs (timeframe st)) (tr_T trade)) in *.
    destruct (Z_le_gt_dec start (candleStartTime st)) as [Hle|Hgt].
    + rewrite (processTrade_no_rollover st trade Hle) in Hin.
      destruct (currentCandle st) as [c|] eqn:Ec; simpl in Hin.
      * destruct (IH _ x Hin) as [(c' & Ec' & Et)|Hlt].
        -- simpl in Ec'. inversion Ec'; subst c'. left. exists c. split; [reflexivity|].
           rewrite Et. reflexivity.
        -- right. exact Hlt.
      * destruct (IH _ x Hin) as [(c' & Ec' & Et)|Hlt]; [congruence | now right].
    + rewrite (processTrade_rollover st trade ltac:(fold start; lia)) in Hin.
      fold start in Hin. simpl fst in Hin. simpl snd in Hin.
      rewrite finalized_app in Hin. simpl in Hin. rewrite app_nil_r in Hin.
      apply in_app_or in Hin. destruct Hin as [Hin|Hin].
      * destruct (currentCandle st) as [c|] eqn:Ec; [|destruct Hin].
        destruct Hin as [E|[]]. subst x. left. now exists c.
      * destruct (IH _ x Hin) as [(c' & Ec' & Et)|Hlt].
        -- simpl in Ec'. inversion Ec'; subst c'. right. rewrite Et.
           destruct (applyTrade_fresh_ohlc start trade (currentCandle st)) as [Hts _].
           rewrite Hts. lia.
        -- right. simpl in Hlt. lia.
Qed.

(** X7: open times ascend.  If the candle a run starts from (if any)
    does not open later than [candleStartTime], the closed candles and the
    open candle of the run have strictly ascending open times; no open
    time occurs twice. *)
Theorem candle_times_ascend (st : Connector) (trades : list BybitTrade) :
  (forall c, currentCandle st = Some c -> (timestamp c <= candleStartTime st)%Z) ->
  ascendingTimes (candlesOf (processTrades st trades)).
Proof.
  unfold ascendingTimes.
  revert st. induction trades as [|trade rest IH]; intros st Hst.
  - unfold candlesOf. simpl. destruct (currentCandle st); repeat constructor.
  - rewrite candlesOf_cons.
    set (start := bucketStart (getTimeframeMs (timeframe st)) (tr_T trade)) in *.
    destruct (Z_le_gt_dec start (candleStartTime st)) as [Hle|Hgt].
    + rewrite (processTrade_no_rollover st trade Hle).
      destruct (currentCandle st) as [c|] eqn:Ec; simpl.
      * apply IH. simpl. intros c' E. inversion E; subst. simpl. now apply Hst.
      * apply IH. intros c' E. congruence.
    + rewrite (processTrade_rollover st trade ltac:(fold start; lia)).
      fold start. simpl fst. simpl snd.
      rewrite finalized_app. simpl. rewrite app_nil_r.
      set (st1 := mkConnector _ _ _).
      assert (Hst1 : forall c, currentCandle st1 = Some c ->
                               (timestamp c <= candleStartTime st1)%Z).
      { simpl. intros c' E. inversion E; subst.
        destruct (applyTrade_fresh_ohlc start trade (currentCandle st)) as [Hts _].
        rewrite Hts. lia. }
      specialize (IH st1 Hst1).
      destruct (currentCandle st) as [c|] eqn:Ec; simpl; [|exact IH].
      constructor; [exact IH|].
      apply Forall_forall. intros x Hx.
      specialize (Hst c eq_refl).
      destruct (candlesOf_times rest st1 x Hx) as [(c' & Ec' & Et)|Hlt].
      * specialize (Hst1 c' Ec'). simpl in Ec'. inversion Ec'; subst c'.
        rewrite Et.
        destruct (applyTrade_fresh_ohlc start trade (Some c)) as [Hts _].
        rewrite Hts. lia.
      * simpl in Hlt. lia.
Qed.

Lemma candle_times_ascend_witness :
  ascendingTimes
    (candlesOf (processTrades (subscribeRealtime tf_15m 0 None)
                  [mkTrade 900000 "Buy" 100 1; mkTrade 1800000 "Sell" 99 2;
                   mkTrade 900500 "Buy" 98 1; mkTrade 2700000 "Buy" 101 1])).
Proof.
  apply (candle_times_ascend (subscribeRealtime tf_15m 0 None)).
  simpl. intros c H. discriminate.
Defined.

(** X8: a candle handed over at subscription takes the trades of the
    wall-clock bucket.  After [subscribeRealtime] with a last candle,
    trades whose buckets are not later than the bucket of the subscription
    time are all applied to that candle, whatever its own open time: no
    candle is closed, and the one candle of the run keeps the open time
    and the open price it was handed over with. *)
Theorem handed_over_candle_absorbs (tf : Timeframe) (now : Z)
    (lastCandle : OrderFlowCandle) (trades : list BybitTrade) :
  (forall trade, In trade trades ->
     (bucketStart (getTimeframeMs tf) (tr_T trade)
      <= bucketStart (getTimeframeMs tf) now)%Z) ->
  let run := processTrades (subscribeRealtime tf now (Some lastCandle)) trades in
  candlesOf run = [applyTrades trades lastCandle] /\
  finalized (snd run) = [] /\
  timestamp (applyTrades trades lastCandle) = timestamp lastCandle /\
  open (applyTrades trades lastCandle) = open lastCandle.
Proof.
  intros Hall run.
  assert (Hkeep : forall ts c, timestamp (applyTrades ts c) = timestamp c /\
                               open (applyTrades ts c) = open c).
  { induction ts as [|t ts IH]; intro c; [split; reflexivity|].
    rewrite applyTrades_cons. destruct (IH (applyTrade t c)) as [H1 H2].
    rewrite H1, H2. split; reflexivity. }
  assert (Hfin : forall ts st c,
            currentCandle st = Some c ->
            (forall trade, In trade ts ->
               (bucketStart (getTimeframeMs (timeframe st)) (tr_T trade)
                <= candleStartTime st)%Z) ->
            finalized (snd (processTrades st ts)) = []).
  { induction ts as [|t ts IH]; intros st c Hc Hts; [reflexivity|].
    rewrite processTrades_cons. simpl snd. rewrite finalized_app.
    rewrite (processTrade_no_rollover st t (Hts t (or_introl eq_refl))), Hc.
    simpl.
    apply (IH (mkConnector (Some (applyTrade t c)) (timeframe st) (candleStartTime st))
              (applyTrade t c) eq_refl).
    intros t' Ht'. simpl. apply Hts. now right. }
  assert (Efin : finalized (snd run) = []).
  { apply (Hfin trades (subscribeRealtime tf now (Some lastCandle)) lastCandle eq_refl).
    exact Hall. }
  split; [|split; [exact Efin | apply Hkeep]].
  unfold candlesOf. rewrite Efin. unfold run.
  rewrite (processTrades_one_candle trades (subscribeRealtime tf now (Some lastCandle))
                                    lastCandle eq_refl Hall).
  reflexivity.
Qed.

Lemma handed_over_candle_absorbs_witness :
  let lastCandle := mkCandle 0 100 101 99 100 [mkLevel 100 5 5] 0 10 (Some 0) in
  let trades := [mkTrade 1800000 "Buy" 102 1; mkTrade 1800001 "Sell" 103 2] in
  let run := processTrades (subscribeRealtime tf_15m 1800500 (Some lastCandle)) trades in
  candlesOf run = [applyTrades trades lastCandle] /\
  finalized (snd run) = [] /\
  timestamp (applyTrades trades lastCandle) = timestamp lastCandle /\
  open (applyTrades trades lastCandle) = open lastCandle.
Proof.
  apply (handed_over_candle_absorbs tf_15m 1800500
           (mkCandle 0 100 101 99 100 [mkLevel 100 5 5] 0 10 (Some 0))
           [mkTrade 1800000 "Buy" 102 1; mkTrade 1800001 "Sell" 103 2]).
  intros trade [E|[E|[]]]; subst trade; vm_compute; discriminate.
Defined.

(** ** The live aggregator: level prices and signs *)

Lemma half_grid_key (p : Q) :
  let key := Math_round (p * 2) / 2 in
  integral (key * 2) /\ p - (1 # 4) < key /\ key <= p + (1 # 4).
Proof.
  intro key. unfold key.
  destruct (Math_round_bounds (p * 2)) as [Hl Hu].
  set (r := Math_round (p * 2)) in *.
  assert (E : r / 2 * 2 == r) by field.
  split.
  - rewrite E. apply integral_Math_round.
  - assert (E2 : r / 2 == r * (1 # 2)) by field.
    rewrite E2. split; lra.
Qed.

Lemma updateBidAskData_prices (p vol : Q) (side : string) (levels : list BidAskLevel) :
  map price (updateBidAskData p vol side levels) = map price levels
  \/ map price (updateBidAskData p vol side levels) = map price levels ++ [p].
Proof.
  unfold updateBidAskData. destruct (findLevel p levels).
  - left. apply bumpFirst_prices.
  - right. rewrite map_app. simpl. now rewrite addVolume_price.
Qed.

Lemma onHalfGrid_prices (levels : list BidAskLevel) :
  onHalfGrid levels <-> Forall (fun q => integral (q * 2)) (map price levels).
Proof. unfold onHalfGrid. now rewrite Forall_map. Qed.

Lemma applyTrade_onHalfGrid (trade : BybitTrade) (c : OrderFlowCandle) :
  onHalfGrid (bidAskData c) -> onHalfGrid (bidAskData (applyTrade trade c)).
Proof.
  rewrite !onHalfGrid_prices. intro H. simpl.
  destruct (updateBidAskData_prices (Math_round (tr_p trade * 2) / 2) (tr_v trade)
                                    (tr_S trade) (bidAskData c)) as [E|E];
    rewrite E; [exact H|].
  apply Forall_app. split; [exact H|].
  constructor; [|constructor]. apply (half_grid_key (tr_p trade)).
Qed.

(** X9: level prices are multiples of one half.  The price a trade is
    booked at is within a quarter of the trade's price and is a multiple
    of one half; so if the levels of the candle a run starts from (if any)
    are on that grid, the levels of every candle the run emits or leaves
    open are. *)
Theorem level_prices_on_half_grid (st : Connector) (trades : list BybitTrade) :
  (forall c, currentCandle st = Some c -> onHalfGrid (bidAskData c)) ->
  (forall p : Q,
     integral (Math_round (p * 2) / 2 * 2) /\
     p - (1 # 4) < Math_round (p * 2) / 2 /\ Math_round (p * 2) / 2 <= p + (1 # 4)) /\
  (forall c, currentCandle (fst (processTrades st trades)) = Some c ->
             onHalfGrid (bidAskData c)) /\
  (forall e, In e (snd (processTrades st trades)) ->
             onHalfGrid (bidAskData (Page.emittedCandle e))).
Proof.
  intro Hst. split; [exact half_grid_key|].
  apply (processTrades_keeps (fun c => onHalfGrid (bidAskData c))).
  - apply applyTrade_onHalfGrid.
  - intros start trade previous. apply applyTrade_onHalfGrid. constructor.
  - exact Hst.
Qed.

Lemma level_prices_on_half_grid_witness :
  let st := subscribeRealtime tf_15m 0 None in
  let trades := [mkTrade 900000 "Buy" (10013 # 100) 1; mkTrade 900001 "Sell" (1004 # 10) 2] in
  (forall p : Q,
     integral (Math_round (p * 2) / 2 * 2) /\
     p - (1 # 4) < Math_round (p * 2) / 2 /\ Math_round (p * 2) / 2 <= p + (1 # 4)) /\
  (forall c, currentCandle (fst (processTrades st trades)) = Some c ->
             onHalfGrid (bidAskData c)) /\
  (forall e, In e (snd (processTrades st trades)) ->
             onHalfGrid (bidAskData (Page.emittedCandle e))).
Proof.
  apply (level_prices_on_half_grid (subscribeRealtime tf_15m 0 None)).
  simpl. intros c H. discriminate.
Defined.

(** ** Historical backfill: the candles and the number of levels *)

Lemma sumVolume_integral (ls : list BidAskLevel) :
  Forall wholeLevel ls -> integral (sumVolume ls).
Proof.
  induction 1 as [|l ls [Hb Ha] _ IH].
  - apply (integral_inject_Z 0).
  - rewrite sumVolume_cons. apply integral_plus; [|exact IH].
    now apply integral_plus.
Qed.

Lemma generateApproximateBidAsk_whole (rng : nat -> Q) (k : nat)
    (open high low close volume : Q) :
  Forall wholeLevel (fst (generateApproximateBidAsk rng k open high low close volume)).
Proof. unfold generateApproximateBidAsk. apply approximateLoop_whole. Qed.

Lemma candlesFrom_backfilled (rng : nat -> Q) (klines : list Kline) :
  forall (k : nat) (cumulativeDelta : Q),
    Forall2 backfilledFrom klines (candlesFrom rng k cumulativeDelta klines).
Proof.
  induction klines as [|kline rest IH]; intros k cum; simpl; [constructor|].
  pose proof (generateApproximateBidAsk_whole rng k (k_open kline) (k_high kline)
                (k_low kline) (k_close kline) (k_volume kline)) as Hwhole.
  destruct (generateApproximateBidAsk _ _ _ _ _ _ _) as [levels k'].
  simpl in Hwhole. constructor; [|apply IH].
  unfold backfilledFrom. simpl. repeat split; try reflexivity.
  - exact Hwhole.
  - apply Math_round_integral. now apply sumDelta_integral.
  - apply Math_round_integral. now apply sumVolume_integral.
Qed.

(** X10: the backfill makes one candle per kline, in order, with the
    kline's open time and prices; its level volumes are whole numbers, so
    the rounding changes nothing and the candle's [delta] and [volume] are
    exactly the sums over its levels. *)
Theorem fetchHistoricalData_candles (rng : nat -> Q) (klines : list Kline) :
  length (fetchHistoricalData rng klines) = length klines /\
  Forall2 backfilledFrom klines (fetchHistoricalData rng klines).
Proof.
  pose proof (candlesFrom_backfilled rng klines 0%nat 0) as H.
  split; [|exact H].
  symmetry. exact (Forall2_length H).
Qed.

Lemma Double_approximateLoop_length (turns : nat) (rng : nat -> Q)
    (vpl hi lo range : Q) (bull : bool) :
  forall (i : Z) (k : nat),
    let out := Double.approximateLoop turns i rng k vpl hi lo range bull in
    (length (fst out) <= turns)%nat /\ snd out = (k + length (fst out))%nat.
Proof.
  induction turns as [|turns IH]; intros i k; simpl.
  - split; [lia | lia].
  - destruct (Qgtb _ hi); simpl; [split; lia|].
    specialize (IH (i + 1)%Z (S k)). simpl in IH.
    destruct (Double.approximateLoop turns (i + 1) rng (S k) vpl hi lo range bull)
      as [rest k'].
    simpl in *. destruct IH as [Hl Hk]. split; lia.
Qed.

(** X11: the number of levels, in binary64 arithmetic.  [numLevels] is
    the least whole number that is at least 1 and at least the range
    divided by the step of one half; the backfill makes at most
    [numLevels + 1] levels and uses one random draw per level; it makes
    no level at all exactly when [low], rounded to a tenth, exceeds
    [high].  [numLevels] comes from the
    difference of two doubles: for the bar with low 65535.6 and high
    65536.1, one step of a half apart, the difference is
    0.500000000007276, so [numLevels] is 2 and the two levels made share
    the bar's volume by halves. *)
Theorem generateApproximateBidAsk_count (rng : nat -> Q) (k : nat)
    (open high low close volume : Q) :
  let out := Double.generateApproximateBidAsk rng k open high low close volume in
  let numLevels := Double.numLevelsOf (fsub high low) in
  ((1 <= numLevels)%Z /\
   fdiv (fsub high low) (1 # 2) <= inject_Z numLevels /\
   ((1 < numLevels)%Z -> inject_Z numLevels - 1 < fdiv (fsub high low) (1 # 2))) /\
  (Z.of_nat (length (fst out)) <= numLevels + 1)%Z /\
  snd out = (k + length (fst out))%nat /\
  (fst out = [] <-> high < Double.toFixed1 (fadd low (fmul (inject_Z 0) priceStep))) /\
  (let low' := Double.parseFloat (655356 # 10) in
   let high' := Double.parseFloat (655361 # 10) in
   fadd low' priceStep = high' /\
   fsub high' low' = 68719476737 # 137438953472 /\
   Double.numLevelsOf (fsub high' low') = 2%Z /\
   length (fst (Double.generateApproximateBidAsk rng k open high' low' close volume))
   = 2%nat).
Proof.
  intros out numLevels. unfold out, Double.generateApproximateBidAsk.
  fold numLevels.
  set (turns := S (Z.to_nat numLevels)).
  destruct (Double_approximateLoop_length turns rng (fdiv volume (inject_Z numLevels))
              high low (fsub high low) (Qgtb close open) 0%Z k) as [Hlen Hk].
  assert (Hpos : (1 <= numLevels)%Z) by (unfold numLevels, Double.numLevelsOf; lia).
  assert (Hturns : turns = S (Z.to_nat numLevels)) by reflexivity.
  cbv zeta in Hlen, Hk.
  split.
  { split; [exact Hpos|].
    pose proof (Qle_ceiling (fdiv (fsub high low) (1 # 2))) as Hup.
    pose proof (Qceiling_lt (fdiv (fsub high low) (1 # 2))) as Hlow.
    assert (Hmax : numLevels = Z.max (Qceiling (fdiv (fsub high low) (1 # 2))) 1)
      by reflexivity.
    set (q := fdiv (fsub high low) (1 # 2)) in *.
    split.
    - apply Qle_trans with (inject_Z (Qceiling q)); [exact Hup|].
      rewrite <- Zle_Qle. lia.
    - intro H1. assert (E : numLevels = Qceiling q) by lia.
      rewrite E. unfold Zminus in Hlow. rewrite inject_Z_plus in Hlow.
      change (inject_Z (- (1))) with (- (1)) in Hlow.
      set (c := inject_Z (Qceiling q)) in *. lra. }
  split; [lia|]. split; [exact Hk|]. split.
  - rewrite Hturns. cbn [Double.approximateLoop].
    destruct (Qgtb (Double.toFixed1 (fadd low (fmul (inject_Z 0) priceStep))) high) eqn:E.
    + apply Qgtb_true in E. simpl. split; [intros _; exact E | reflexivity].
    + apply Qgtb_false in E.
      destruct (Double.approximateLoop (Z.to_nat numLevels) (0 + 1) rng (S k) _ _ _ _ _)
        as [rest k'].
      simpl. split; [discriminate | intro H; exfalso; lra].
  - cbv zeta. split; [vm_compute; reflexivity|]. split; [vm_compute; reflexivity|].
    split; [vm_compute; reflexivity|].
    unfold Double.generateApproximateBidAsk.
    replace (Double.numLevelsOf
               (fsub (Double.parseFloat (655361 # 10)) (Double.parseFloat (655356 # 10))))
      with 2%Z by (vm_compute; reflexivity).
    change (S (Z.to_nat 2)) with 3%nat.
    cbn [Double.approximateLoop].
    replace (Qgtb (Double.toFixed1
                     (fadd (Double.parseFloat (655356 # 10)) (fmul (inject_Z 0) priceStep)))
                  (Double.parseFloat (655361 # 10)))
      with false by (vm_compute; reflexivity).
    replace (Qgtb (Double.toFixed1
                     (fadd (Double.parseFloat (655356 # 10))
                           (fmul (inject_Z (0 + 1)) priceStep)))
                  (Double.parseFloat (655361 # 10)))
      with false by (vm_compute; reflexivity).
    replace (Qgtb (Double.toFixed1
                     (fadd (Double.parseFloat (655356 # 10))
                           (fmul (inject_Z (0 + 1 + 1)) priceStep)))
                  (Double.parseFloat (655361 # 10)))
      with true by (vm_compute; reflexivity).
    reflexivity.
Qed.


(** ** Sorting *)

Section StableSortFacts.

Variable A : Type.
Variable notAfter : A -> A -> bool.

Hypothesis notAfter_total :
  forall a b, notAfter a b = false -> notAfter b a = true.
Hypothesis notAfter_trans :
  forall a b c, notAfter a b = true -> notAfter b c = true -> notAfter a c = true.

Let inOrder (a b : A) : Prop := notAfter a b = true.

Lemma insertSorted_perm (x : A) (l : list A) :
  Permutation (x :: l) (JSArray.insertSorted notAfter x l).
Proof.
  induction l as [|y l IH]; simpl; [reflexivity|].
  destruct (notAfter y x); [|reflexivity].
  rewrite perm_swap. now constructor.
Qed.

Lemma insertSorted_sorted (x : A) (l : list A) :
  StronglySorted inOrder l -> StronglySorted inOrder (JSArray.insertSorted notAfter x l).
Proof.
  induction 1 as [|y l Hs IH Hy]; simpl.
  - repeat constructor.
  - destruct (notAfter y x) eqn:E.
    + constructor; [exact IH|].
      apply (Permutation_Forall (insertSorted_perm x l)).
      constructor; [exact E | exact Hy].
    + constructor; [now constructor|].
      assert (Hxy : inOrder x y) by now apply notAfter_total.
      constructor; [exact Hxy|].
      apply Forall_forall. intros z Hz.
      rewrite Forall_forall in Hy.
      exact (notAfter_trans _ _ _ Hxy (Hy z Hz)).
Qed.

Lemma sortBy_from (l acc : list A) :
  StronglySorted inOrder acc ->
  StronglySorted inOrder
    (fold_left (fun sorted x => JSArray.insertSorted notAfter x sorted) l acc) /\
  Permutation (l ++ acc)
    (fold_left (fun sorted x => JSArray.insertSorted notAfter x sorted) l acc).
Proof.
  revert acc. induction l as [|x l IH]; intros acc Hacc; simpl.
  - split; [exact Hacc | reflexivity].
  - destruct (IH _ (insertSorted_sorted x acc Hacc)) as [Hs Hp].
    split; [exact Hs|].
    rewrite <- Hp. rewrite <- (insertSorted_perm x acc).
    apply Permutation_middle.
Qed.

Lemma sortBy_sorted (l : list A) :
  StronglySorted inOrder (JSArray.sortBy notAfter l) /\
  Permutation l (JSArray.sortBy notAfter l).
Proof.
  destruct (sortBy_from l [] (SSorted_nil _)) as [Hs Hp].
  split; [exact Hs|]. now rewrite app_nil_r in Hp.
Qed.

End StableSortFacts.

(** ** The mock generator *)

Lemma priceNotAfter_total (a b : BidAskLevel) :
  priceNotAfter a b = false -> priceNotAfter b a = true.
Proof.
  unfold priceNotAfter. intro H. apply Qle_bool_false in H.
  apply Qle_bool_iff. now apply Qlt_le_weak.
Qed.

Lemma priceNotAfter_trans (a b c : BidAskLevel) :
  priceNotAfter a b = true -> priceNotAfter b c = true -> priceNotAfter a c = true.
Proof.
  unfold priceNotAfter. rewrite !Qle_bool_iff. apply Qle_trans.
Qed.

Lemma Mock_sortByPrice_sortBy (levels : list BidAskLevel) :
  Mock.sortByPrice levels = JSArray.sortBy priceNotAfter levels.
Proof.
  reflexivity.
Qed.

Lemma Mock_sortByPrice_sorted (levels : list BidAskLevel) :
  ascendingPrices (Mock.sortByPrice levels) /\
  Permutation levels (Mock.sortByPrice levels).
Proof.
  rewrite Mock_sortByPrice_sortBy.
  destruct (sortBy_sorted _ priceNotAfter priceNotAfter_total priceNotAfter_trans levels)
    as [Hs Hp].
  split; [|exact Hp].
  unfold ascendingPrices. eapply StronglySorted_ind with (P := fun l => StronglySorted _ l);
    [constructor | | exact Hs].
  intros a l _ IH Ha. constructor; [exact IH|].
  eapply Forall_impl; [|exact Ha].
  intros b Hb. now apply Qle_bool_iff.
Qed.

Lemma Math_round_monotone (x y : Q) : x <= y -> Math_round x <= Math_round y.
Proof.
  intro H. unfold Math_round. rewrite <- Zle_Qle.
  apply Qfloor_resp_le. lra.
Qed.

Lemma Math_round_at_least (n x : Q) : integral n -> n <= x -> n <= Math_round x.
Proof.
  intros Hn H. rewrite <- (Math_round_integral n Hn). now apply Math_round_monotone.
Qed.

Lemma Math_round_at_most (n x : Q) : integral n -> x <= n -> Math_round x <= n.
Proof.
  intros Hn H. rewrite <- (Math_round_integral n Hn). now apply Math_round_monotone.
Qed.

Lemma mockLevelsLoop_levels (turns : nat) (rng : nat -> Q) (high low : Q) :
  forall (i : Z) (k : nat),
    (0 <= i)%Z ->
    Forall (mockLevel high low) (fst (Mock.mockLevelsLoop turns i rng k high low)) /\
    (length (fst (Mock.mockLevelsLoop turns i rng k high low)) <= turns)%nat.
Proof.
  induction turns as [|turns IH]; intros i k Hi; simpl.
  - split; [constructor | lia].
  - destruct (Qgtb (low + inject_Z i * Mock.priceStep) high) eqn:E; simpl.
    + split; [constructor | lia].
    + apply Qgtb_false in E.
      destruct (Mock.mockVolumes _ _ _ _) as [b a].
      specialize (IH (i + 1)%Z (S (S (S (S k)))) ltac:(lia)).
      destruct (Mock.mockLevelsLoop turns (i + 1) rng (S (S (S (S k)))) high low)
        as [rest k'].
      simpl in *. destruct IH as [IHl IHn]. split; [|lia].
      constructor; [|exact IHl].
      unfold mockLevel, wholeLevel. simpl.
      assert (Hoff : 0 <= inject_Z i * Mock.priceStep).
      { apply Qmult_le_0_compat; [|unfold Mock.priceStep; lra].
        change 0 with (inject_Z 0). now rewrite <- Zle_Qle. }
      repeat split; try apply integral_Math_round.
      * apply Math_round_monotone. lra.
      * now apply Math_round_monotone.
Qed.

Lemma generateBidAskLevels_levels (rng : nat -> Q) (k : nat) (open high low close : Q) :
  let levels := fst (Mock.generateBidAskLevels rng k open high low close) in
  ascendingPrices levels /\
  Forall (mockLevel high low) levels /\
  (Z.of_nat (length levels)
   <= Z.max (Math_ceil ((high - low) / Mock.priceStep) + 1) 0)%Z.
Proof.
  unfold Mock.generateBidAskLevels.
  set (turns := Z.to_nat (Math_ceil ((high - low) / Mock.priceStep) + 1)).
  destruct (mockLevelsLoop_levels turns rng high low 0%Z k ltac:(lia)) as [Hl Hn].
  destruct (Mock.mockLevelsLoop turns 0 rng k high low) as [levels k'] eqn:E.
  simpl in *.
  destruct (Mock_sortByPrice_sorted levels) as [Hs Hp].
  split; [exact Hs|]. split.
  - exact (Permutation_Forall Hp Hl).
  - rewrite <- (Permutation_length Hp). unfold turns in Hn. lia.
Qed.

(** X13: the mock levels of a candle come out ascending by price, at
    most [priceRange + 1] of them; every price is a whole number between
    the rounded low and the rounded high, and every volume is a whole
    number. *)
Theorem mock_levels_sorted (rng : nat -> Q) (k : nat) (open high low close : Q) :
  let levels := fst (Mock.generateBidAskLevels rng k open high low close) in
  ascendingPrices levels /\
  Forall (fun l => integral (bidVol l) /\ integral (askVol l) /\ integral (price l) /\
                   Math_round low <= price l /\ price l <= Math_round high) levels /\
  (Z.of_nat (length levels)
   <= Z.max (Math_ceil ((high - low) / Mock.priceStep) + 1) 0)%Z.
Proof.
  destruct (generateBidAskLevels_levels rng k open high low close) as (Hs & Hl & Hn).
  split; [exact Hs|]. split; [|exact Hn].
  eapply Forall_impl; [|exact Hl].
  intros l (Hw & Hp & Hlo & Hhi). unfold wholeLevel in Hw. tauto.
Qed.

Lemma generateCandle_fields (rng : nat -> Q) (k : nat) (ts : Z) (prevClose : Q) :
  let c := fst (Mock.generateCandle rng k ts prevClose) in
  timestamp c = ts /\ open c = Math_round prevClose /\ cvd c = None /\
  integral (close c) /\
  ascendingPrices (bidAskData c) /\
  Forall (fun l => wholeLevel l /\ low c <= price l /\ price l <= high c) (bidAskData c) /\
  delta c == sumDelta (bidAskData c) /\
  volume c == sumVolume (bidAskData c).
Proof.
  unfold Mock.generateCandle.
  set (op := prevClose).
  set (cl := op + (rng k - (1 # 2)) * 1000).
  set (hi := Math_max op cl + (200 + rng (1 + k)%nat * 300)).
  set (lo := Math_min op cl - (200 + rng (1 + k)%nat * 300)).
  destruct (generateBidAskLevels_levels rng (2 + k)%nat op hi lo cl) as (Hs & Hl & _).
  destruct (Mock.generateBidAskLevels rng (2 + k)%nat op hi lo cl) as [levels k'].
  simpl in *.
  assert (Hwhole : Forall wholeLevel levels).
  { eapply Forall_impl; [|exact Hl]. intros l H. apply H. }
  repeat split; try reflexivity.
  - apply integral_Math_round.
  - exact Hs.
  - eapply Forall_impl; [|exact Hl]. intros l (Hw & _ & Hlo & Hhi). auto.
  - apply Math_round_integral. now apply sumDelta_integral.
  - apply Math_round_integral. now apply sumVolume_integral.
Qed.

(** X14: a mock candle.  It opens at the rounded previous close; its
    levels are ascending by price, have whole volumes and prices between
    its low and its high, so that its [delta] and [volume] are exactly the
    sums over its levels; and when the draw for the volatility is not
    negative, its open and close lie between its low and its high. *)
Theorem mock_candle_consistent (rng : nat -> Q) (k : nat) (ts : Z) (prevClose : Q) :
  let c := fst (Mock.generateCandle rng k ts prevClose) in
  timestamp c = ts /\ open c = Math_round prevClose /\
  ascendingPrices (bidAskData c) /\
  Forall (fun l => wholeLevel l /\ low c <= price l /\ price l <= high c) (bidAskData c) /\
  delta c == sumDelta (bidAskData c) /\
  volume c == sumVolume (bidAskData c) /\
  (0 <= rng (1 + k)%nat -> bracketed c).
Proof.
  intro c.
  destruct (generateCandle_fields rng k ts prevClose)
    as (Ht & Ho & _ & _ & Hs & Hl & Hd & Hv).
  fold c in Ht, Ho, Hs, Hl, Hd, Hv.
  repeat (split; [assumption|]).
  intro Hr. unfold c, Mock.generateCandle, bracketed.
  destruct (Mock.generateBidAskLevels _ _ _ _ _ _) as [levels k']. simpl.
  set (cl := prevClose + (rng k - (1 # 2)) * 1000).
  destruct (Math_max_bounds prevClose cl) as [Ha Hb].
  destruct (Math_min_bounds prevClose cl) as [Hc Hd'].
  change (1 + k)%nat with (S k) in Hr.
  assert (Hvol : 0 <= 200 + rng (S k) * 300) by lra.
  repeat split; apply Math_round_monotone; lra.
Qed.

Lemma historyLoop_shape (rng : nat -> Q) (now intervalMs : Z) (bars : nat) :
  forall (k : nat) (currentPrice cumulativeDelta : Q),
    let cs := Mock.historyLoop bars rng k now intervalMs currentPrice cumulativeDelta in
    length cs = bars /\
    (forall i : nat, (i < bars)%nat ->
       timestamp (nth i cs noCandle)
       = (now - Z.of_nat (bars - 1 - i) * intervalMs)%Z) /\
    (forall c rest, cs = c :: rest -> open c = Math_round currentPrice) /\
    (forall i : nat, (0 < i < bars)%nat ->
       open (nth i cs noCandle) == close (nth (i - 1) cs noCandle)).
Proof.
  induction bars as [|n IH]; intros k currentPrice cum; simpl.
  - split; [reflexivity|]. split; [intros; lia|]. split; [discriminate | intros; lia].
  - destruct (generateCandle_fields rng k (now - Z.of_nat n * intervalMs) currentPrice)
      as (Ht & Ho & _ & Hc & _).
    destruct (Mock.generateCandle rng k (now - Z.of_nat n * intervalMs) currentPrice)
      as [candle k'].
    simpl in Ht, Ho, Hc.
    specialize (IH k' (close candle) (cum + delta candle)). cbv zeta in IH.
    remember (Mock.historyLoop n rng k' now intervalMs (close candle)
                               (cum + delta candle)) as rest eqn:Erest.
    clear Erest.
    destruct IH as (IHlen & IHts & IHopen & IHchain).
    simpl. split; [now rewrite IHlen|]. split; [|split].
    + intros [|i] Hi.
      * simpl. rewrite Ht. f_equal. f_equal. lia.
      * rewrite IHts by lia. f_equal. f_equal. f_equal. lia.
    + intros c rest' E. inversion E; subst. simpl. exact Ho.
    + intros [|i] Hi; [lia|].
      replace (S i - 1)%nat with i by lia.
      destruct i as [|i'].
      * destruct rest as [|r rest']; [simpl in IHlen; lia|].
        simpl. rewrite (IHopen r rest' eq_refl).
        now apply Math_round_integral.
      * specialize (IHchain (S i') ltac:(lia)).
        replace (S i' - 1)%nat with i' in IHchain by lia.
        exact IHchain.
Qed.

(** X15: the mock history.  It has [barsCount] candles; their open
    times are one interval apart and end at the present; the first candle
    opens at the base price 105000 and every later one at the close of the
    candle before it. *)
Theorem mock_history_shape (rng : nat -> Q) (now : Z) (tf : Timeframe) (barsCount : nat) :
  let cs := Mock.generateHistoricalData rng now tf barsCount in
  length cs = barsCount /\
  (forall i : nat, (i < barsCount)%nat ->
     timestamp (nth i cs noCandle)
     = (now - Z.of_nat (barsCount - 1 - i) * getTimeframeMs tf)%Z) /\
  (forall c rest, cs = c :: rest -> open c == 105000) /\
  (forall i : nat, (0 < i < barsCount)%nat ->
     open (nth i cs noCandle) == close (nth (i - 1) cs noCandle)).
Proof.
  intro cs.
  destruct (historyLoop_shape rng now (getTimeframeMs tf) barsCount 0%nat
                              Mock.basePrice 0) as (Hlen & Hts & Hopen & Hchain).
  fold (Mock.generateHistoricalData rng now tf barsCount) in Hlen, Hts, Hopen, Hchain.
  fold cs in Hlen, Hts, Hopen, Hchain.
  split; [exact Hlen|]. split; [exact Hts|]. split; [|exact Hchain].
  intros c rest E. rewrite (Hopen c rest E). reflexivity.
Qed.

Lemma cvdContinuous_snoc (cs : list OrderFlowCandle) (a b : OrderFlowCandle) :
  cvdContinuous (cs ++ [a]) -> cvdOf b == cvdOf a + delta b ->
  cvdContinuous (cs ++ [a; b]).
Proof.
  intros H Hab i Hi.
  change (cs ++ [a; b]) with (cs ++ [a] ++ [b]) in *.
  rewrite app_assoc in *. rewrite length_app in Hi. simpl in Hi.
  destruct (Nat.lt_ge_cases i (length (cs ++ [a]))) as [Hlt|Hge].
  - rewrite (app_nth1 (cs ++ [a]) [b] noCandle Hlt).
    rewrite (app_nth1 (cs ++ [a]) [b] noCandle (n := i - 1)) by lia.
    apply H. lia.
  - assert (Ei : i = length (cs ++ [a])) by lia. subst i.
    rewrite app_nth2 by lia. rewrite Nat.sub_diag. simpl nth at 1 3.
    rewrite app_nth1 by (rewrite length_app; simpl; lia).
    rewrite length_app. simpl length.
    replace (length cs + 1 - 1)%nat with (length cs) by lia.
    rewrite app_nth2 by lia. rewrite Nat.sub_diag. simpl. exact Hab.
Qed.

(** X16: the next mock candle.  [generateRealtimeCandle] opens one
    interval after the last candle, at the rounded close of the last
    candle, and its cvd is the last candle's cvd (0 if it has none) plus
    its own delta; appended to a sequence that ends in the last candle and
    has continuous cvd, it leaves the cvd continuous. *)
Theorem realtime_candle_continues (rng : nat -> Q) (k : nat)
    (lastCandle : OrderFlowCandle) (tf : Timeframe) :
  let c := fst (MockLive.generateRealtimeCandle rng k lastCandle tf) in
  timestamp c = (timestamp lastCandle + getTimeframeMs tf)%Z /\
  open c = Math_round (close lastCandle) /\
  cvdOf c == cvdOf lastCandle + delta c /\
  (forall earlier : list OrderFlowCandle,
     cvdContinuous (earlier ++ [lastCandle]) ->
     cvdContinuous (earlier ++ [lastCandle; c])).
Proof.
  intro c.
  assert (H : timestamp c = (timestamp lastCandle + getTimeframeMs tf)%Z /\
              open c = Math_round (close lastCandle) /\
              cvdOf c == cvdOf lastCandle + delta c).
  { unfold c, MockLive.generateRealtimeCandle.
    destruct (generateCandle_fields rng k (timestamp lastCandle + getTimeframeMs tf)
                                    (close lastCandle)) as (Ht & Ho & _).
    destruct (Mock.generateCandle _ _ _ _) as [newCandle k'].
    simpl in *. split; [exact Ht|]. split; [exact Ho|].
    unfold cvdOf. simpl cvd. apply orZero_Some. }
  destruct H as (Ht & Ho & Hc).
  split; [exact Ht|]. split; [exact Ho|]. split; [exact Hc|].
  intros earlier Hcont. now apply cvdContinuous_snoc.
Qed.

(** ** The overlay: row sizes, level order, drawn rows *)

(** X17: the font size is the candle width times 0.15 clamped to
    [7, 14] and does not decrease with the width; the row height is
    always the font size plus 4 (the floor of 10 never applies), so it
    lies between 11 and 18. *)
Theorem row_height_from_width (candleWidth : Q) :
  7 <= fontSizeOf candleWidth <= 14 /\
  rowHeightOf candleWidth = fontSizeOf candleWidth + 4 /\
  11 <= rowHeightOf candleWidth <= 18 /\
  (candleWidth * (15 # 100) <= 7 -> fontSizeOf candleWidth == 7) /\
  (14 <= candleWidth * (15 # 100) -> fontSizeOf candleWidth == 14) /\
  (7 <= candleWidth * (15 # 100) <= 14 ->
   fontSizeOf candleWidth == candleWidth * (15 # 100)) /\
  (forall wider : Q, candleWidth <= wider -> fontSizeOf candleWidth <= fontSizeOf wider).
Proof.
  assert (Hfont : forall w, 7 <= fontSizeOf w <= 14 /\
            (w * (15 # 100) <= 7 -> fontSizeOf w == 7) /\
            (14 <= w * (15 # 100) -> fontSizeOf w == 14) /\
            (7 <= w * (15 # 100) <= 14 -> fontSizeOf w == w * (15 # 100))).
  { intro w. unfold fontSizeOf, Math_min, Math_max.
    destruct (Qle_bool (w * (15 # 100)) 7) eqn:E1.
    - apply Qle_bool_iff in E1.
      replace (Qle_bool 7 14) with true by reflexivity.
      repeat split; intros;
        repeat match goal with H : _ /\ _ |- _ => destruct H end; lra.
    - apply Qle_bool_false in E1.
      destruct (Qle_bool (w * (15 # 100)) 14) eqn:E2.
      + apply Qle_bool_iff in E2.
        repeat split; intros;
          repeat match goal with H : _ /\ _ |- _ => destruct H end; lra.
      + apply Qle_bool_false in E2.
        repeat split; intros;
          repeat match goal with H : _ /\ _ |- _ => destruct H end; lra. }
  destruct (Hfont candleWidth) as ([H7 H14] & Hlo & Hhi & Hmid).
  assert (Hrow : rowHeightOf candleWidth = fontSizeOf candleWidth + 4).
  { unfold rowHeightOf, Math_max.
    destruct (Qle_bool (fontSizeOf candleWidth + 4) 10) eqn:E; [|reflexivity].
    apply Qle_bool_iff in E. lra. }
  split; [split; assumption|]. split; [exact Hrow|].
  split; [rewrite Hrow; split; lra|].
  split; [exact Hlo|]. split; [exact Hhi|]. split; [exact Hmid|].
  intros wider Hw.
  destruct (Hfont wider) as ([G7 G14] & Glo & Ghi & Gmid).
  destruct (Qlt_le_dec (candleWidth * (15 # 100)) 7) as [Ha|Ha].
  - rewrite (Hlo (Qlt_le_weak _ _ Ha)). exact G7.
  - destruct (Qlt_le_dec 14 (wider * (15 # 100))) as [Hb|Hb].
    + rewrite (Ghi (Qlt_le_weak _ _ Hb)). exact H14.
    + rewrite (Hmid ltac:(split; lra)), (Gmid ltac:(split; lra)). lra.
Qed.

Lemma priceNotBefore_total (a b : BidAskLevel) :
  priceNotBefore a b = false -> priceNotBefore b a = true.
Proof.
  unfold priceNotBefore. intro H. apply Qle_bool_false in H.
  apply Qle_bool_iff. now apply Qlt_le_weak.
Qed.

Lemma priceNotBefore_trans (a b c : BidAskLevel) :
  priceNotBefore a b = true -> priceNotBefore b c = true -> priceNotBefore a c = true.
Proof.
  unfold priceNotBefore. rewrite !Qle_bool_iff. intros H1 H2.
  exact (Qle_trans _ _ _ H2 H1).
Qed.

(** X18: the levels the overlay works on.  They are the candle's levels
    with a price between its low and its high, each as often as in the
    candle, in descending order of price. *)
Theorem sortedLevelsOf_sorted (c : OrderFlowCandle) :
  descendingPrices (Overlay.sortedLevelsOf c) /\
  Permutation
    (filter (fun level => Qle_bool (low c) (price level)
                          && Qle_bool (price level) (high c))
            (bidAskData c))
    (Overlay.sortedLevelsOf c) /\
  (forall l : BidAskLevel,
     In l (Overlay.sortedLevelsOf c) <->
     In l (bidAskData c) /\ low c <= price l /\ price l <= high c).
Proof.
  unfold Overlay.sortedLevelsOf.
  set (inRange := fun level : BidAskLevel =>
                    Qle_bool (low c) (price level) && Qle_bool (price level) (high c)).
  destruct (sortBy_sorted _ priceNotBefore priceNotBefore_total priceNotBefore_trans
                          (filter inRange (bidAskData c))) as [Hs Hp].
  change (JSArray.sortBy (fun a b => Qle_bool (price b) (price a)))
    with (JSArray.sortBy priceNotBefore).
  split; [|split; [exact Hp|]].
  - unfold descendingPrices.
    eapply StronglySorted_ind with (P := fun l => StronglySorted _ l);
      [constructor | | exact Hs].
    intros a l _ IH Ha. constructor; [exact IH|].
    eapply Forall_impl; [|exact Ha].
    intros b Hb. now apply Qle_bool_iff.
  - intro l. split.
    + intro H. apply (Permutation_in _ (Permutation_sym Hp)) in H.
      apply filter_In in H. destruct H as [Hin Hr]. unfold inRange in Hr.
      apply andb_true_iff in Hr. rewrite !Qle_bool_iff in Hr. tauto.
    + intros (Hin & Hl & Hh). apply (Permutation_in _ Hp).
      apply filter_In. split; [exact Hin|]. unfold inRange.
      apply andb_true_iff. now rewrite !Qle_bool_iff.
Qed.

Lemma levelsToShow_length (levels : list BidAskLevel) (maxRows : Z) :
  (0 < maxRows)%Z -> (Z.of_nat (length (levelsToShow levels maxRows)) <= maxRows)%Z.
Proof.
  intro Hpos. unfold levelsToShow.
  destruct (Z_le_gt_dec (Z.of_nat (length levels)) maxRows) as [Hle|Hgt].
  - now rewrite (Zgtb_false _ _ Hle).
  - assert (Hlt : (maxRows < Z.of_nat (length levels))%Z) by lia.
    rewrite (Zgtb_true _ _ Hlt), (Zgtb_true _ _ Hpos). simpl.
    pose proof (bucketSizeOf_positive (length levels) maxRows Hpos ltac:(lia)) as Hb.
    pose proof (bucketSizeOf_ceiling (length levels) maxRows Hpos) as Hceil.
    set (b := Z.to_nat (bucketSizeOf (length levels) maxRows)) in *.
    destruct (aggregateLoop_exhausts (length levels) b levels ltac:(lia) (Nat.le_refl _))
      as [groups [Hg Hrows]].
    rewrite Hrows, length_map.
    pose proof (ContiguousGroups_count b levels groups ltac:(lia) Hg) as Hcount.
    assert (Hbz : Z.of_nat b = bucketSizeOf (length levels) maxRows) by (unfold b; lia).
    nia.
Qed.

Lemma drawLevels_rows (priceToCoordinate : Q -> option Q) (top bottom : Q)
    (levels : list BidAskLevel) :
  (length (Overlay.drawLevels priceToCoordinate top bottom levels) <= length levels)%nat /\
  forall row, In row (Overlay.drawLevels priceToCoordinate top bottom levels) ->
    In (Overlay.rowLevel row) levels /\
    priceToCoordinate (price (Overlay.rowLevel row)) = Some (Overlay.rowY row) /\
    ~ Overlay.rowY row == 0 /\
    top - 5 <= Overlay.rowY row /\ Overlay.rowY row <= bottom + 5 /\
    Overlay.rowImbalance row
    = isImbalance (bidVol (Overlay.rowLevel row)) (askVol (Overlay.rowLevel row)).
Proof.
  induction levels as [|l ls [IHn IH]]; simpl.
  - split; [lia | tauto].
  - assert (Hskip : (length (Overlay.drawLevels priceToCoordinate top bottom ls)
                     <= S (length ls))%nat /\
                    forall row,
                      In row (Overlay.drawLevels priceToCoordinate top bottom ls) ->
                      (l = Overlay.rowLevel row \/ In (Overlay.rowLevel row) ls) /\
                      priceToCoordinate (price (Overlay.rowLevel row))
                      = Some (Overlay.rowY row) /\
                      ~ Overlay.rowY row == 0 /\
                      top - 5 <= Overlay.rowY row /\ Overlay.rowY row <= bottom + 5 /\
                      Overlay.rowImbalance row
                      = isImbalance (bidVol (Overlay.rowLevel row))
                                    (askVol (Overlay.rowLevel row))).
    { split; [lia|]. intros row Hin. destruct (IH row Hin) as (H1 & H2). tauto. }
    destruct (priceToCoordinate (price l)) as [y|] eqn:Ey; simpl; [|exact Hskip].
    destruct (Qeq_bool y 0) eqn:E0; [exact Hskip|].
    destruct (Qgtb (top - 5) y || Qgtb y (bottom + 5))%bool eqn:Eout; [exact Hskip|].
    apply orb_false_iff in Eout. destruct Eout as [Et Eb].
    apply Qgtb_false in Et. apply Qgtb_false in Eb.
    split; [simpl; lia|].
    intros row [E|Hin].
    + subst row. simpl. repeat split; auto.
      intro Hy. apply Qeq_bool_iff in Hy. congruence.
    + destruct (IH row Hin) as (H1 & H2). tauto.
Qed.

(** X19: what is drawn for a candle.  Nothing is drawn when the candle
    is narrower than 15 pixels, when its x coordinate or the coordinate of
    its high or low is missing or 0, or when it has no levels.  Every row
    drawn shows one of the rows that the bucketing made of the candle's
    sorted levels, at a coordinate that is not 0 and lies between 5 pixels
    above the candle's top and 5 below its bottom, with the highlight
    [isImbalance] gives for its two volumes; and when at least one row
    fits, no more rows are drawn than fit. *)
Theorem drawn_rows (x : option Q) (priceToCoordinate : Q -> option Q)
    (candleWidth : Q) (c : OrderFlowCandle) :
  let rows := Overlay.drawCandle x priceToCoordinate candleWidth c in
  (candleWidth < 15 -> rows = []) /\
  (Overlay.missing x = true -> rows = []) /\
  (Overlay.missing (priceToCoordinate (high c)) = true -> rows = []) /\
  (Overlay.missing (priceToCoordinate (low c)) = true -> rows = []) /\
  (bidAskData c = [] -> rows = []) /\
  (forall top bottom : Q,
     priceToCoordinate (high c) = Some top ->
     priceToCoordinate (low c) = Some bottom ->
     let maxLevels := maxLevelsOf top bottom candleWidth in
     (forall row, In row rows ->
        In (Overlay.rowLevel row) (levelsToShow (Overlay.sortedLevelsOf c) maxLevels) /\
        priceToCoordinate (price (Overlay.rowLevel row)) = Some (Overlay.rowY row) /\
        ~ Overlay.rowY row == 0 /\
        top - 5 <= Overlay.rowY row /\ Overlay.rowY row <= bottom + 5 /\
        Overlay.rowImbalance row
        = isImbalance (bidVol (Overlay.rowLevel row)) (askVol (Overlay.rowLevel row))) /\
     ((0 < maxLevels)%Z -> (Z.of_nat (length rows) <= maxLevels)%Z)).
Proof.
  intro rows. unfold rows, Overlay.drawCandle.
  split; [|split; [|split; [|split; [|split]]]].
  - intro Hw. apply Qgtb_true in Hw.
    destruct (Overlay.missing x); [reflexivity|].
    destruct (Overlay.missing (priceToCoordinate (high c))
              || Overlay.missing (priceToCoordinate (low c)))%bool; [reflexivity|].
    destruct (priceToCoordinate (high c)); [|reflexivity].
    destruct (priceToCoordinate (low c)); [|reflexivity].
    now rewrite Hw.
  - intro H. now rewrite H.
  - intro H. rewrite H. now destruct (Overlay.missing x).
  - intro H. rewrite H, orb_true_r. now destruct (Overlay.missing x).
  - intro H. rewrite H.
    destruct (Overlay.missing x); [reflexivity|].
    destruct (_ || _)%bool; [reflexivity|].
    destruct (priceToCoordinate (high c)); [|reflexivity].
    destruct (priceToCoordinate (low c)); [|reflexivity].
    now destruct (Qgtb 15 candleWidth).
  - intros top bottom Ht Hb. cbv zeta.
    set (maxLevels := maxLevelsOf top bottom candleWidth). rewrite Ht, Hb.
    destruct (drawLevels_rows priceToCoordinate top bottom
                (levelsToShow (Overlay.sortedLevelsOf c) maxLevels)) as [Hn Hrows].
    fold maxLevels.
    destruct (Overlay.missing x); [split; [intros row []|simpl; lia]|].
    destruct (_ || _)%bool; [split; [intros row []|simpl; lia]|].
    destruct (Qgtb 15 candleWidth); [split; [intros row []|simpl; lia]|].
    destruct (bidAskData c) eqn:Ed; [split; [intros row []|simpl; lia]|].
    split; [exact Hrows|].
    intro Hpos.
    pose proof (levelsToShow_length (Overlay.sortedLevelsOf c) maxLevels Hpos). lia.
Qed.

(** ** The visible range: the overlay's report and the panel's slice *)

Lemma findIndexFrom_skip {A : Type} (test : A -> bool) (xs rest : list A) (i : Z) :
  Forall (fun x => test x = false) xs ->
  JSArray.findIndexFrom test i (xs ++ rest)
  = JSArray.findIndexFrom test (i + Z.of_nat (length xs)) rest.
Proof.
  revert i. induction xs as [|x xs IH]; intros i H; simpl.
  - f_equal. lia.
  - inversion H as [|? ? Hx Hxs]; subst. rewrite Hx, (IH _ Hxs). f_equal. lia.
Qed.

Lemma slice_middle {A : Type} (xs ys zs : list A) :
  JSArray.slice (Z.of_nat (length xs)) (Z.of_nat (length xs + length ys))
                (xs ++ ys ++ zs) = ys.
Proof.
  unfold JSArray.slice. rewrite !length_app.
  replace (Z.of_nat (length xs) <? 0)%Z with false by (symmetry; apply Z.ltb_ge; lia).
  replace (Z.of_nat (length xs + length ys) <? 0)%Z with false
    by (symmetry; apply Z.ltb_ge; lia).
  rewrite Z.min_l by lia. rewrite Z.min_l by lia.
  rewrite Nat2Z.id.
  replace (Z.to_nat (Z.of_nat (length xs + length ys) - Z.of_nat (length xs)))
    with (length ys) by lia.
  rewrite skipn_app, skipn_all, Nat.sub_diag. simpl.
  rewrite firstn_app, firstn_all, Nat.sub_diag. simpl. apply app_nil_r.
Qed.

Lemma StronglySorted_before {A : Type} (R : A -> A -> Prop) (xs zs : list A) (y : A) :
  StronglySorted R (xs ++ y :: zs) -> Forall (fun x => R x y) xs.
Proof.
  induction xs as [|x xs IH]; simpl; intro H; [constructor|].
  inversion H as [|? ? Hs Hx]; subst.
  constructor; [|now apply IH].
  rewrite Forall_forall in Hx. apply Hx. apply in_or_app. right. now left.
Qed.

(** A list ascending in time is cut by a time window into the candles
    before it, the candles inside it and the candles after it. *)
Lemma window_cut (from to : Z) (data : list OrderFlowCandle) :
  ascendingChartTimes data ->
  exists before inside after,
    data = before ++ inside ++ after /\
    Forall (fun c => inWindow from to c = false) before /\
    Forall (fun c => inWindow from to c = true) inside /\
    Forall (fun c => inWindow from to c = false) after /\
    Forall (fun c => (Overlay.timeOf c < from)%Z) before.
Proof.
  unfold ascendingChartTimes.
  induction 1 as [|x r Hs IH Hx].
  - exists [], [], []. repeat split; constructor.
  - destruct IH as (before & inside & after & E & Hb & Hi & Ha & Hlt).
    destruct (Z_lt_ge_dec (Overlay.timeOf x) from) as [Hxf|Hxf].
    + exists (x :: before), inside, after. subst r.
      split; [reflexivity|].
      split; [constructor; [|exact Hb]|].
      { unfold inWindow. apply andb_false_iff. left. apply Z.leb_gt. exact Hxf. }
      split; [exact Hi|]. split; [exact Ha|]. constructor; assumption.
    + assert (Hnil : before = []).
      { destruct before as [|b bs]; [reflexivity|]. exfalso.
        inversion Hlt as [|? ? Hbt _]; subst.
        rewrite Forall_forall in Hx. specialize (Hx b (or_introl eq_refl)). lia. }
      subst before. simpl in E.
      destruct (Z_le_gt_dec (Overlay.timeOf x) to) as [Hxt|Hxt].
      * exists [], (x :: inside), after. subst r.
        split; [reflexivity|]. split; [constructor|].
        split; [constructor; [|exact Hi]|].
        { unfold inWindow. apply andb_true_iff. split; apply Z.leb_le; lia. }
        split; [exact Ha | constructor].
      * exists [], [], (x :: r).
        split; [reflexivity|]. split; [constructor|]. split; [constructor|].
        split; [|constructor].
        constructor.
        { unfold inWindow. apply andb_false_iff. right. apply Z.leb_gt. lia. }
        apply Forall_forall. intros c Hc.
        rewrite Forall_forall in Hx. specialize (Hx c Hc).
        unfold inWindow. apply andb_false_iff. right. apply Z.leb_gt. lia.
Qed.

Lemma filter_none {A : Type} (f : A -> bool) (l : list A) :
  Forall (fun x => f x = false) l -> filter f l = [].
Proof.
  induction 1 as [|x l Hx _ IH]; simpl; [reflexivity|]. now rewrite Hx.
Qed.

Lemma filter_all {A : Type} (f : A -> bool) (l : list A) :
  Forall (fun x => f x = true) l -> filter f l = l.
Proof.
  induction 1 as [|x l Hx _ IH]; simpl; [reflexivity|]. now rewrite Hx, IH.
Qed.

(** X20: the chart and the panel show the same candles.  For candles
    with strictly ascending chart times of which at least one lies in the
    chart's visible time range, the overlay reports a range
    [(startIndex, endIndex + 1)] inside the list, and the slice the
    statistics panel takes with it is exactly the list of visible
    candles. *)
Theorem panel_shows_visible_candles (from to : Z) (data : list OrderFlowCandle) :
  ascendingChartTimes data ->
  Overlay.visibleCandles from to data <> [] ->
  exists startIndex endIndex : Z,
    Overlay.reportedRange from to data = Some (startIndex, endIndex) /\
    (0 <= startIndex < endIndex)%Z /\ (endIndex <= Z.of_nat (length data))%Z /\
    Stats.visibleData startIndex (Some endIndex) data
    = Overlay.visibleCandles from to data.
Proof.
  intros Hasc Hvis.
  destruct (window_cut from to data Hasc)
    as (before & inside & after & E & Hb & Hi & Ha & Hlt).
  assert (Efilter : Overlay.visibleCandles from to data = inside).
  { unfold Overlay.visibleCandles. fold (inWindow from to).
    change (fun c => ((from <=? Overlay.timeOf c)%Z && (Overlay.timeOf c <=? to)%Z)%bool)
      with (inWindow from to).
    rewrite E, !filter_app, (filter_none _ _ Hb), (filter_all _ _ Hi),
      (filter_none _ _ Ha).
    simpl. apply app_nil_r. }
  rewrite Efilter in Hvis.
  destruct inside as [|first others]; [congruence|].
  destruct (@exists_last _ (first :: others) ltac:(discriminate)) as (front & final & Elast).
  assert (Hfinal : last others first = final).
  { assert (Hl : last others first = last (first :: others) first)
      by (destruct others; reflexivity).
    rewrite Hl, Elast. apply last_last. }
  exists (Z.of_nat (length before)),
         (Z.of_nat (length before + length (first :: others))).
  assert (Hfirst : (from <= Overlay.timeOf first)%Z).
  { inversion Hi as [|? ? H1 _]; subst. unfold inWindow in H1.
    apply andb_true_iff in H1. destruct H1 as [H1 _]. now apply Z.leb_le in H1. }
  assert (Estart : JSArray.findIndex
                     (fun c => (Overlay.timeOf c =? Overlay.timeOf first)%Z) data
                   = Z.of_nat (length before)).
  { unfold JSArray.findIndex. rewrite E, findIndexFrom_skip.
    - simpl. now rewrite Z.eqb_refl.
    - eapply Forall_impl; [|exact Hlt]. intros c Hc. cbv beta in Hc |- *.
      apply Z.eqb_neq. lia. }
  assert (Eend : JSArray.findIndex
                   (fun c => (Overlay.timeOf c =? Overlay.timeOf final)%Z) data
                 = Z.of_nat (length before + length front)).
  { unfold JSArray.findIndex. rewrite E, Elast, <- app_assoc, app_assoc.
    rewrite findIndexFrom_skip.
    - simpl. rewrite Z.eqb_refl. rewrite length_app. lia.
    - unfold ascendingChartTimes in Hasc.
      rewrite E, Elast, <- app_assoc, app_assoc in Hasc. simpl in Hasc.
      apply StronglySorted_before in Hasc.
      eapply Forall_impl; [|exact Hasc]. intros c Hc. cbv beta in Hc |- *.
      apply Z.eqb_neq. lia. }
  assert (Elen : length (first :: others) = S (length front)).
  { rewrite Elast, length_app. simpl. lia. }
  split.
  - unfold Overlay.reportedRange. rewrite Efilter, Hfinal, Estart, Eend.
    replace (Z.of_nat (length before) >=? 0)%Z with true
      by (symmetry; apply Z.geb_le; lia).
    replace (Z.of_nat (length before + length front) >=? 0)%Z with true
      by (symmetry; apply Z.geb_le; lia).
    cbn [andb]. f_equal. f_equal. simpl length in *. lia.
  - split; [simpl length in *; lia|]. split.
    + rewrite E, !length_app. lia.
    + unfold Stats.visibleData, Stats.endIdxOf.
      rewrite (Zgtb_true _ 0) by lia.
      rewrite Efilter, E. apply slice_middle.
Qed.

Lemma panel_shows_visible_candles_witness :
  let data := [mkCandle 0 1 1 1 1 [] 0 0 None; mkCandle 900000 2 2 2 2 [] 0 0 None;
               mkCandle 1800000 3 3 3 3 [] 0 0 None; mkCandle 2700000 4 4 4 4 [] 0 0 None] in
  exists startIndex endIndex : Z,
    Overlay.reportedRange 900 1800 data = Some (startIndex, endIndex) /\
    (0 <= startIndex < endIndex)%Z /\ (endIndex <= Z.of_nat (length data))%Z /\
    Stats.visibleData startIndex (Some endIndex) data
    = Overlay.visibleCandles 900 1800 data.
Proof.
  apply (panel_shows_visible_candles 900 1800
           [mkCandle 0 1 1 1 1 [] 0 0 None; mkCandle 900000 2 2 2 2 [] 0 0 None;
            mkCandle 1800000 3 3 3 3 [] 0 0 None; mkCandle 2700000 4 4 4 4 [] 0 0 None]).
  - unfold ascendingChartTimes. repeat constructor.
  - vm_compute. discriminate.
Defined.

(** ** Imbalance and relative strength *)

(** X21: the classification is symmetric except at zero.  For volumes
    that are not negative and not both zero, one side is a bid imbalance
    exactly when the swapped pair is an ask imbalance, no pair is both, and
    a pair is unclassified exactly when the swapped pair is. *)
Theorem isImbalance_swap (bidVol askVol : Q) :
  0 <= bidVol -> 0 <= askVol -> ~ (bidVol == 0 /\ askVol == 0) ->
  (isImbalance bidVol askVol = Some bid <-> isImbalance askVol bidVol = Some ask) /\
  (isImbalance bidVol askVol = Some ask <-> isImbalance askVol bidVol = Some bid) /\
  (isImbalance bidVol askVol = None <-> isImbalance askVol bidVol = None).
Proof.
  intros Hb Ha Hnz. unfold isImbalance.
  destruct (Qle_bool (askVol * 3) bidVol) eqn:E1;
    destruct (Qle_bool (bidVol * 3) askVol) eqn:E2;
    try (apply Qle_bool_iff in E1); try (apply Qle_bool_iff in E2);
    try (repeat split; intro; congruence).
  exfalso. apply Hnz. split; lra.
Qed.

Lemma isImbalance_swap_witness :
  (isImbalance 30 10 = Some bid <-> isImbalance 10 30 = Some ask) /\
  (isImbalance 30 10 = Some ask <-> isImbalance 10 30 = Some bid) /\
  (isImbalance 30 10 = None <-> isImbalance 10 30 = None).
Proof.
  apply (isImbalance_swap 30 10); [lra | lra |].
  intros [H _]. vm_compute in H. discriminate.
Defined.

Lemma processTrades_metrics_helper (st : Connector) (trades : list BybitTrade) :
  forall c, In (Updated c) (snd (processTrades st trades)) -> metricsFromLevels c.
Proof.
  revert st. induction trades as [|trade rest IH]; intros st c Hin.
  - destruct Hin.
  - rewrite processTrades_cons in Hin. simpl snd in Hin.
    apply in_app_or in Hin. destruct Hin as [Hin|Hin].
    + now apply (proj1 (processTrade_metrics st trade)).
    + exact (IH (fst (processTrade st trade)) c Hin).
Qed.

Lemma Math_round_opp (x : Q) : - Math_round x <= Math_round (- x).
Proof.
  destruct (Math_round_bounds x) as [Hl _].
  assert (Hint : integral (- Math_round x)).
  { assert (E : - Math_round x == 0 - Math_round x) by ring.
    rewrite E. apply integral_minus;
      [apply (integral_inject_Z 0) | apply integral_Math_round]. }
  apply integral_exists in Hint. destruct Hint as [z Hz].
  rewrite Hz. unfold Math_round. rewrite <- Zle_Qle.
  rewrite <- (Qfloor_Z z). apply Qfloor_resp_le. rewrite <- Hz. lra.
Qed.

Lemma nonNegative_sums (levels : list BidAskLevel) :
  nonNegativeLevels levels ->
  - sumVolume levels <= sumDelta levels /\ sumDelta levels <= sumVolume levels /\
  0 <= sumVolume levels.
Proof.
  induction 1 as [|l ls [Hb Ha] _ IH].
  - unfold sumVolume, sumDelta. simpl. repeat split; lra.
  - rewrite sumVolume_cons, sumDelta_cons. destruct IH as (H1 & H2 & H3).
    repeat split; lra.
Qed.

Lemma relativeStrength_range (c : OrderFlowCandle) :
  - volume c <= delta c -> delta c <= volume c ->
  -100 <= Stats.relativeStrength c /\ Stats.relativeStrength c <= 100.
Proof.
  intros Hl Hu. unfold Stats.relativeStrength.
  destruct (Qgtb (volume c) 0) eqn:E; [|split; lra].
  apply Qgtb_true in E.
  assert (Hq : -1 <= delta c / volume c /\ delta c / volume c <= 1).
  { split.
    - apply Qle_shift_div_l; [exact E | lra].
    - apply Qle_shift_div_r; [exact E | lra]. }
  destruct Hq. split; lra.
Qed.

Lemma metrics_bound (c : OrderFlowCandle) :
  metricsFromLevels c -> nonNegativeLevels (bidAskData c) ->
  - volume c <= delta c /\ delta c <= volume c.
Proof.
  intros [Hv Hd] Hnn. destruct (nonNegative_sums _ Hnn) as (H1 & H2 & _).
  rewrite Hv, Hd. split.
  - eapply Qle_trans; [apply Math_round_opp|]. now apply Math_round_monotone.
  - now apply Math_round_monotone.
Qed.

Lemma applyTrade_nonNegative (trade : BybitTrade) (c : OrderFlowCandle) :
  0 <= tr_v trade -> nonNegativeLevels (bidAskData c) ->
  nonNegativeLevels (bidAskData (applyTrade trade c)).
Proof.
  intros Hv H. simpl. unfold nonNegativeLevels, updateBidAskData in *.
  assert (Hadd : forall l, 0 <= bidVol l /\ 0 <= askVol l ->
                           0 <= bidVol (addVolume (tr_S trade) (tr_v trade) l)
                           /\ 0 <= askVol (addVolume (tr_S trade) (tr_v trade) l)).
  { intros l [Hb Ha]. destruct (addVolume_grows (tr_S trade) (tr_v trade) l Hv).
    split; lra. }
  destruct (findLevel _ (bidAskData c)).
  - induction H as [|l ls Hl Hls IH]; simpl; [constructor|].
    destruct (Qeq_bool (price l) _).
    + constructor; [now apply Hadd | exact Hls].
    + constructor; [exact Hl | exact IH].
  - apply Forall_app. split; [exact H|].
    constructor; [|constructor]. apply Hadd. simpl. split; lra.
Qed.

(** X22: relative strength stays within plus and minus one hundred.
    For a candle whose [volume] and [delta] are the rounded sums over
    levels of non-negative volumes, [delta] lies between [-volume] and
    [volume] and the panel's relative strength between -100 and 100; it is
    0 when the volume is not positive.  Such are all candles the
    aggregator emits as updated when the trade volumes are not negative
    (and the levels of the candle it started from are not). *)
Theorem relative_strength_bounded :
  (forall c : OrderFlowCandle,
     metricsFromLevels c -> nonNegativeLevels (bidAskData c) ->
     (- volume c <= delta c /\ delta c <= volume c) /\
     -100 <= Stats.relativeStrength c /\ Stats.relativeStrength c <= 100) /\
  (forall c : OrderFlowCandle, volume c <= 0 -> Stats.relativeStrength c = 0) /\
  (forall (st : Connector) (trades : list BybitTrade),
     Forall (fun trade => 0 <= tr_v trade) trades ->
     (forall c, currentCandle st = Some c -> nonNegativeLevels (bidAskData c)) ->
     forall c, In c (updates (snd (processTrades st trades))) ->
       -100 <= Stats.relativeStrength c /\ Stats.relativeStrength c <= 100).
Proof.
  assert (Hone : forall c : OrderFlowCandle,
            metricsFromLevels c -> nonNegativeLevels (bidAskData c) ->
            (- volume c <= delta c /\ delta c <= volume c) /\
            -100 <= Stats.relativeStrength c /\ Stats.relativeStrength c <= 100).
  { intros c Hm Hn. destruct (metrics_bound c Hm Hn) as [Hl Hu].
    split; [now split|]. now apply relativeStrength_range. }
  split; [exact Hone|]. split.
  - intros c Hv. unfold Stats.relativeStrength.
    now rewrite (proj2 (Qgtb_false (volume c) 0) Hv).
  - intros st trades Hpos Hst c Hin.
    destruct (processTrades_keeps_for (fun trade => 0 <= tr_v trade)
                (fun c => nonNegativeLevels (bidAskData c))
                applyTrade_nonNegative
                ltac:(intros; apply applyTrade_nonNegative; [assumption | constructor])
                trades st Hpos Hst) as [_ Hev].
    pose proof (processTrades_metrics_helper st trades) as Hm.
    assert (Hup : In (Updated c) (snd (processTrades st trades))).
    { clear - Hin. induction (snd (processTrades st trades)) as [|e es IH];
        [destruct Hin|].
      destruct e; simpl in Hin.
      - right. now apply IH.
      - destruct Hin as [E|Hin]; [left; now subst | right; now apply IH]. }
    apply Hone; [now apply Hm | exact (Hev _ Hup)].
Qed.

(** ** The page's candle list *)

Lemma findIndexFrom_cases {A : Type} (test : A -> bool) (l : list A) (i : Z) :
  (JSArray.findIndexFrom test i l = (-1)%Z /\ Forall (fun x => test x = false) l)
  \/ exists xs y zs,
       l = xs ++ y :: zs /\ Forall (fun x => test x = false) xs /\ test y = true /\
       JSArray.findIndexFrom test i l = (i + Z.of_nat (length xs))%Z.
Proof.
  revert i. induction l as [|x l IH]; intro i; simpl.
  - left. split; [reflexivity | constructor].
  - destruct (test x) eqn:E.
    + right. exists [], x, l. simpl. repeat split; auto. lia.
    + destruct (IH (i + 1)%Z) as [[Hr Hall]|(xs & y & zs & El & Hxs & Hy & Hr)].
      * left. split; [exact Hr | now constructor].
      * right. exists (x :: xs), y, zs. subst l. simpl.
        repeat split; auto. rewrite Hr. lia.
Qed.

Lemma setAt_middle {A : Type} (xs zs : list A) (y u : A) :
  JSArray.setAt (length xs) u (xs ++ y :: zs) = xs ++ u :: zs.
Proof.
  induction xs as [|x xs IH]; simpl; [reflexivity|]. now rewrite IH.
Qed.

Lemma timeNotAfter_total (a b : OrderFlowCandle) :
  timeNotAfter a b = false -> timeNotAfter b a = true.
Proof.
  unfold timeNotAfter. intro H. apply Z.leb_gt in H. apply Z.leb_le. lia.
Qed.

Lemma timeNotAfter_trans (a b c : OrderFlowCandle) :
  timeNotAfter a b = true -> timeNotAfter b c = true -> timeNotAfter a c = true.
Proof.
  unfold timeNotAfter. rewrite !Z.leb_le. lia.
Qed.

(** The list that [mergeCandle] sorts: the updated candle in the place
    of the candle with its open time, or behind the others, less the first
    candle when that makes more than 200. *)
Lemma mergeCandle_unsorted (u : OrderFlowCandle) (prev : list OrderFlowCandle) :
  exists newData,
    Page.mergeCandle u prev = JSArray.sortBy timeNotAfter newData /\
    In u newData /\
    (forall c, In c newData -> c = u \/ In c prev) /\
    (NoDup (map timestamp prev) -> NoDup (map timestamp newData)) /\
    (length newData <= Nat.max (length prev) 200)%nat /\
    (In (timestamp u) (map timestamp prev) -> length newData = length prev).
Proof.
  unfold Page.mergeCandle.
  set (test := fun c : OrderFlowCandle => (timestamp c =? timestamp u)%Z).
  unfold JSArray.findIndex.
  destruct (findIndexFrom_cases test prev 0)
    as [[Hr Hall]|(xs & y & zs & El & Hxs & Hy & Hr)]; rewrite Hr.
  - assert (Hnew : ~ In (timestamp u) (map timestamp prev)).
    { intro Hin. apply in_map_iff in Hin. destruct Hin as (c & Ec & Hc).
      rewrite Forall_forall in Hall. specialize (Hall c Hc).
      unfold test in Hall. apply Z.eqb_neq in Hall. congruence. }
    simpl.
    assert (Hpushed : NoDup (map timestamp prev) ->
                      NoDup (map timestamp (prev ++ [u]))).
    { intro Hnd. rewrite map_app. simpl.
      apply NoDup_app; [exact Hnd | repeat constructor; simpl; tauto |].
      intros t Ht [E|[]]. subst t. contradiction. }
    destruct (200 <? length (prev ++ [u]))%nat eqn:E200.
    + apply Nat.ltb_lt in E200. rewrite length_app in E200. simpl in E200.
      destruct prev as [|p ps]; [simpl in E200; lia|].
      exists (ps ++ [u]). simpl. split; [reflexivity|].
      split; [apply in_or_app; right; now left|].
      split.
      { intros c Hc. apply in_app_or in Hc. destruct Hc as [Hc|[Hc|[]]]; auto. }
      split.
      { intro Hnd. specialize (Hpushed Hnd). simpl in Hpushed.
        now inversion Hpushed. }
      split; [rewrite length_app; simpl; lia | intro; contradiction].
    + apply Nat.ltb_ge in E200. rewrite length_app in E200. simpl in E200.
      exists (prev ++ [u]). split; [reflexivity|].
      split; [apply in_or_app; right; now left|].
      split.
      { intros c Hc. apply in_app_or in Hc. destruct Hc as [Hc|[Hc|[]]]; auto. }
      split; [exact Hpushed|].
      split; [rewrite length_app; simpl; lia | intro; contradiction].
  - replace (0 + Z.of_nat (length xs) >=? 0)%Z with true
      by (symmetry; apply Z.geb_le; lia).
    replace (Z.to_nat (0 + Z.of_nat (length xs))) with (length xs) by lia.
    subst prev. rewrite setAt_middle.
    exists (xs ++ u :: zs). split; [reflexivity|].
    split; [apply in_or_app; right; now left|].
    split.
    { intros c Hc. apply in_app_or in Hc. destruct Hc as [Hc|[Hc|Hc]].
      - right. apply in_or_app. now left.
      - now left.
      - right. apply in_or_app. right. now right. }
    unfold test in Hy. apply Z.eqb_eq in Hy.
    split.
    { rewrite !map_app. simpl. now rewrite Hy. }
    split; [rewrite !length_app; simpl; lia|].
    intros _. rewrite !length_app. reflexivity.
Qed.

Lemma sorted_unique_ascending (l : list OrderFlowCandle) :
  StronglySorted (fun a b => timeNotAfter a b = true) l ->
  NoDup (map timestamp l) -> ascendingTimes l.
Proof.
  unfold ascendingTimes. induction 1 as [|a l Hs IH Ha]; intro Hnd; [constructor|].
  simpl in Hnd. inversion Hnd as [|? ? Hnotin Hnd']; subst.
  constructor; [now apply IH|].
  apply Forall_forall. intros b Hb.
  rewrite Forall_forall in Ha. specialize (Ha b Hb).
  unfold timeNotAfter in Ha. apply Z.leb_le in Ha.
  assert (timestamp a <> timestamp b).
  { intro E. apply Hnotin. rewrite E. now apply in_map. }
  lia.
Qed.

(** X23: merging an update into the page's list.  The result is sorted
    by open time and contains the updated candle; every other candle in it
    was in the list before; if the open times were unique before they are
    unique, hence strictly ascending, after; an update for an open time
    already in the list leaves the length as it was, and no merge makes
    the list longer than the larger of its length and 200. *)
Theorem mergeCandle_keeps_list (updatedCandle : OrderFlowCandle)
    (prevData : list OrderFlowCandle) :
  let result := Page.mergeCandle updatedCandle prevData in
  StronglySorted (fun a b => (timestamp a <= timestamp b)%Z) result /\
  In updatedCandle result /\
  (forall c, In c result -> c = updatedCandle \/ In c prevData) /\
  (NoDup (map timestamp prevData) ->
   NoDup (map timestamp result) /\ ascendingTimes result) /\
  (length result <= Nat.max (length prevData) 200)%nat /\
  (In (timestamp updatedCandle) (map timestamp prevData) ->
   length result = length prevData).
Proof.
  intro result.
  destruct (mergeCandle_unsorted updatedCandle prevData)
    as (newData & E & Hin & Hfrom & Hnd & Hlen & Hsame).
  fold result in E.
  destruct (sortBy_sorted _ timeNotAfter timeNotAfter_total timeNotAfter_trans newData)
    as [Hs Hp].
  rewrite <- E in Hs, Hp.
  split.
  { eapply StronglySorted_ind with (P := fun l => StronglySorted _ l);
      [constructor | | exact Hs].
    intros a l _ IH Ha. constructor; [exact IH|].
    eapply Forall_impl; [|exact Ha]. intros b Hb. now apply Z.leb_le. }
  split; [exact (Permutation_in _ Hp Hin)|].
  split.
  { intros c Hc. apply Hfrom. exact (Permutation_in _ (Permutation_sym Hp) Hc). }
  split.
  { intro Hu. specialize (Hnd Hu).
    assert (Hres : NoDup (map timestamp result)).
    { eapply Permutation_NoDup; [|exact Hnd]. now apply Permutation_map. }
    split; [exact Hres | now apply sorted_unique_ascending]. }
  rewrite <- (Permutation_length Hp). split; assumption.
Qed.

(** ** Volume labels *)

Lemma Qfloor_unique (n : Z) (y : Q) :
  inject_Z n <= y -> y < inject_Z n + 1 -> Qfloor y = n.
Proof.
  intros Hl Hu. apply Z.le_antisymm.
  - assert (H : inject_Z (Qfloor y) < inject_Z (n + 1)).
    { rewrite inject_Z_plus. change (inject_Z 1) with 1.
      eapply Qle_lt_trans; [apply Qfloor_le | exact Hu]. }
    rewrite <- Zlt_Qlt in H. lia.
  - rewrite <- (Qfloor_Z n). now apply Qfloor_resp_le.
Qed.

Lemma Qabs_opp_eq (x : Q) : Qabs (- x) = Qabs x.
Proof. destruct x as [a b]. unfold Qabs, Qopp. simpl. now rewrite Z.abs_opp. Qed.

(** X24: the sign of a label.  The label of a negative number is a
    minus sign followed by the label of its absolute value, whatever the
    number of decimals. *)
Theorem formatVolume_negative (x : Q) (decimals : nat) :
  0 < x ->
  Utils.formatVolume (- x) decimals
  = String.append "-" (Utils.formatVolume x decimals).
Proof.
  intro Hx. unfold Utils.formatVolume. rewrite Qabs_opp_eq.
  assert (Hneg : Qgtb 0 (- x) = true) by (apply Qgtb_true; lra).
  assert (Hpos : Qgtb 0 x = false) by (apply Qgtb_false; lra).
  rewrite Hneg, Hpos.
  destruct (Qle_bool 1000000000 (Qabs x)); [reflexivity|].
  destruct (Qle_bool 1000000 (Qabs x)); [reflexivity|].
  destruct (Qle_bool 1000 (Qabs x)); reflexivity.
Qed.

Lemma formatVolume_negative_witness :
  Utils.formatVolume (- 1234) 1 = String.append "-" (Utils.formatVolume 1234 1).
Proof.
  apply (formatVolume_negative 1234 1). reflexivity.
Defined.

Lemma formatVolume_unit (x unit : Q) (n : Z) :
  0 <= x -> 0 < unit ->
  inject_Z n * unit <= x * 10 + unit * (1 # 2) ->
  x * 10 + unit * (1 # 2) < (inject_Z n + 1) * unit ->
  Qfloor (Qabs x / unit * inject_Z (10 ^ Z.of_nat 1) + (1 # 2)) = n.
Proof.
  intros Hx Hu Hl Hh. rewrite (Qabs_pos x Hx).
  change (inject_Z (10 ^ Z.of_nat 1)) with 10.
  apply Qfloor_unique.
  - apply Qle_shift_div_l in Hl; [|exact Hu].
    assert (E : (x * 10 + unit * (1 # 2)) / unit == x / unit * 10 + (1 # 2))
      by (field; lra).
    now rewrite E in Hl.
  - apply Qlt_shift_div_r in Hh; [|exact Hu].
    assert (E : (x * 10 + unit * (1 # 2)) / unit == x / unit * 10 + (1 # 2))
      by (field; lra).
    now rewrite E in Hh.
Qed.

(** X25: labels just below a unit.  With one decimal, a value from
    999950 up to (not including) a million is labelled 1000.0k and not
    1.0M, a value from 999950000 up to a billion 1000.0M, a value from
    999.5 up to a thousand 1000, and a value below one half 0 (-0 when it
    is negative and above minus one half). *)
Theorem formatVolume_below_unit (x : Q) :
  (999950 <= x < 1000000 -> Utils.formatVolume x 1 = "1000.0k"%string) /\
  (999950000 <= x < 1000000000 -> Utils.formatVolume x 1 = "1000.0M"%string) /\
  ((9995 # 10) <= x < 1000 -> Utils.formatVolume x 1 = "1000"%string) /\
  (0 <= x < (1 # 2) -> Utils.formatVolume x 1 = "0"%string) /\
  (- (1 # 2) < x < 0 -> Utils.formatVolume x 1 = "-0"%string).
Proof.
  unfold Utils.formatVolume.
  split; [|split; [|split; [|split]]].
  - intros [Hl Hu].
    assert (Hx : 0 <= x) by lra.
    assert (Habs : Qabs x == x) by now apply Qabs_pos.
    rewrite (proj2 (Qgtb_false 0 x) Hx).
    rewrite (proj2 (Qle_bool_false 1000000000 (Qabs x))) by (rewrite Habs; lra).
    rewrite (proj2 (Qle_bool_false 1000000 (Qabs x))) by (rewrite Habs; lra).
    rewrite (proj2 (Qle_bool_iff 1000 (Qabs x))) by (rewrite Habs; lra).
    unfold Utils.toFixed.
    rewrite (formatVolume_unit x 1000 10000 Hx)
      by (try change (inject_Z 10000) with 10000; lra).
    reflexivity.
  - intros [Hl Hu].
    assert (Hx : 0 <= x) by lra.
    assert (Habs : Qabs x == x) by now apply Qabs_pos.
    rewrite (proj2 (Qgtb_false 0 x) Hx).
    rewrite (proj2 (Qle_bool_false 1000000000 (Qabs x))) by (rewrite Habs; lra).
    rewrite (proj2 (Qle_bool_iff 1000000 (Qabs x))) by (rewrite Habs; lra).
    unfold Utils.toFixed.
    rewrite (formatVolume_unit x 1000000 10000 Hx)
      by (try change (inject_Z 10000) with 10000; lra).
    reflexivity.
  - intros [Hl Hu].
    assert (Hx : 0 <= x) by lra.
    assert (Habs : Qabs x == x) by now apply Qabs_pos.
    rewrite (proj2 (Qgtb_false 0 x) Hx).
    rewrite (proj2 (Qle_bool_false 1000000000 (Qabs x))) by (rewrite Habs; lra).
    rewrite (proj2 (Qle_bool_false 1000000 (Qabs x))) by (rewrite Habs; lra).
    rewrite (proj2 (Qle_bool_false 1000 (Qabs x))) by (rewrite Habs; lra).
    unfold Utils.toFixed.
    assert (E : Qfloor (Qabs x * inject_Z (10 ^ Z.of_nat 0) + (1 # 2)) = 1000%Z).
    { change (inject_Z (10 ^ Z.of_nat 0)) with 1.
      apply Qfloor_unique; rewrite Habs; change (inject_Z 1000) with 1000; lra. }
    rewrite E. reflexivity.
  - intros [Hl Hu].
    assert (Habs : Qabs x == x) by now apply Qabs_pos.
    rewrite (proj2 (Qgtb_false 0 x) Hl).
    rewrite (proj2 (Qle_bool_false 1000000000 (Qabs x))) by (rewrite Habs; lra).
    rewrite (proj2 (Qle_bool_false 1000000 (Qabs x))) by (rewrite Habs; lra).
    rewrite (proj2 (Qle_bool_false 1000 (Qabs x))) by (rewrite Habs; lra).
    unfold Utils.toFixed.
    assert (E : Qfloor (Qabs x * inject_Z (10 ^ Z.of_nat 0) + (1 # 2)) = 0%Z).
    { change (inject_Z (10 ^ Z.of_nat 0)) with 1.
      apply Qfloor_unique; rewrite Habs; change (inject_Z 0) with 0; lra. }
    rewrite E. reflexivity.
  - intros [Hl Hu].
    assert (Habs : Qabs x == - x) by (apply Qabs_neg; lra).
    rewrite (proj2 (Qgtb_true 0 x) Hu).
    rewrite (proj2 (Qle_bool_false 1000000000 (Qabs x))) by (rewrite Habs; lra).
    rewrite (proj2 (Qle_bool_false 1000000 (Qabs x))) by (rewrite Habs; lra).
    rewrite (proj2 (Qle_bool_false 1000 (Qabs x))) by (rewrite Habs; lra).
    unfold Utils.toFixed.
    assert (E : Qfloor (Qabs x * inject_Z (10 ^ Z.of_nat 0) + (1 # 2)) = 0%Z).
    { change (inject_Z (10 ^ Z.of_nat 0)) with 1.
      apply Qfloor_unique; rewrite Habs; change (inject_Z 0) with 0; lra. }
    rewrite E. reflexivity.
Qed.

(** ** The statistics panel: colours and the slice *)

Lemma Math_min_one (x : Q) :
  0 <= x -> 0 <= Math_min x 1 /\ Math_min x 1 <= 1 /\ Math_min x 1 <= x /\
            (1 <= x -> Math_min x 1 == 1) /\ (0 < x -> 0 < Math_min x 1).
Proof.
  intro H. unfold Math_min. destruct (Qle_bool x 1) eqn:E.
  - apply Qle_bool_iff in E. repeat split; intros; lra.
  - apply Qle_bool_false in E. repeat split; intros; lra.
Qed.

Lemma Math_min_monotone (x y : Q) : x <= y -> Math_min x 1 <= Math_min y 1.
Proof.
  intro H. unfold Math_min.
  destruct (Qle_bool x 1) eqn:E1; destruct (Qle_bool y 1) eqn:E2;
    try (apply Qle_bool_iff in E1); try (apply Qle_bool_iff in E2);
    try (apply Qle_bool_false in E1); try (apply Qle_bool_false in E2); lra.
Qed.

Lemma getColorForDelta_alpha (v : Q) :
  ~ v == 0 ->
  Stats.alpha (Stats.getColorForDelta v)
  = (3 # 10) + Math_min (Qabs v / 50000) 1 * (5 # 10).
Proof.
  intro Hv. unfold Stats.getColorForDelta.
  destruct (Qgtb v 0) eqn:E1; [reflexivity|].
  destruct (Qgtb 0 v) eqn:E2; [reflexivity|].
  apply Qgtb_false in E1. apply Qgtb_false in E2.
  exfalso. apply Hv. lra.
Qed.

(** X26: the colour of a delta or cvd cell.  It is green for a positive
    value, red for a negative one and grey for zero.  For a value other
    than zero the opacity is 0.3 plus 0.5 times the value's size relative
    to 50000, capped at 0.8: it lies above 0.3 and at most at 0.8, is
    the same for a value and its negative, does not decrease as the size
    grows, and is 0.8 from a size of 50000 on. *)
Theorem delta_colour (v : Q) :
  let colour := Stats.getColorForDelta v in
  (0 < v -> (Stats.red colour, Stats.green colour, Stats.blue colour)
            = (34, 197, 94)%Z) /\
  (v < 0 -> (Stats.red colour, Stats.green colour, Stats.blue colour)
            = (239, 68, 68)%Z) /\
  (v == 0 -> colour = Stats.mkRgba 100 100 100 (2 # 10)) /\
  (~ v == 0 ->
   (3 # 10) < Stats.alpha colour /\ Stats.alpha colour <= (8 # 10) /\
   Stats.alpha (Stats.getColorForDelta (- v)) = Stats.alpha colour /\
   (50000 <= Qabs v -> Stats.alpha colour == 8 # 10) /\
   (forall w : Q, Qabs v <= Qabs w ->
      Stats.alpha colour <= Stats.alpha (Stats.getColorForDelta w))).
Proof.
  intro colour. unfold colour.
  split; [|split; [|split]].
  - intro H. unfold Stats.getColorForDelta.
    now rewrite (proj2 (Qgtb_true v 0) H).
  - intro H. unfold Stats.getColorForDelta.
    rewrite (proj2 (Qgtb_false v 0)) by lra.
    now rewrite (proj2 (Qgtb_true 0 v) H).
  - intro H. unfold Stats.getColorForDelta.
    rewrite (proj2 (Qgtb_false v 0)) by lra.
    now rewrite (proj2 (Qgtb_false 0 v)) by lra.
  - intro Hv.
    assert (Habs : 0 < Qabs v).
    { destruct (Qlt_le_dec 0 v) as [H|H].
      - rewrite Qabs_pos; lra.
      - rewrite Qabs_neg by exact H.
        destruct (Qlt_le_dec v 0) as [H'|H']; [lra|]. exfalso. apply Hv. lra. }
    assert (Hrel : 0 < Qabs v / 50000).
    { apply Qlt_shift_div_l; [reflexivity | lra]. }
    destruct (Math_min_one (Qabs v / 50000) (Qlt_le_weak _ _ Hrel))
      as (H0 & H1 & _ & Hcap & Hpos).
    specialize (Hpos Hrel).
    rewrite (getColorForDelta_alpha v Hv).
    split; [lra|]. split; [lra|]. split; [|split].
    + rewrite getColorForDelta_alpha.
      * now rewrite Qabs_opp_eq.
      * intro E. apply Hv. lra.
    + intro Hbig. rewrite Hcap; [reflexivity|].
      apply Qle_shift_div_l; [reflexivity | lra].
    + intros w Hw.
      assert (Hwnz : ~ w == 0).
      { intro E. rewrite E in Hw. change (Qabs 0) with 0 in Hw. lra. }
      rewrite (getColorForDelta_alpha w Hwnz).
      assert (Hm : Math_min (Qabs v / 50000) 1 <= Math_min (Qabs w / 50000) 1).
      { apply Math_min_monotone. apply Qmult_le_compat_r; [exact Hw|].
        apply Qlt_le_weak. reflexivity. }
      lra.
Qed.

Lemma firstn_skipn_length {A : Type} (n k : nat) (l : list A) :
  (length (firstn n (skipn k l)) <= length l)%nat.
Proof.
  rewrite length_firstn, length_skipn. lia.
Qed.

(** X27: the slice of the statistics panel.  It never has more candles
    than the list.  With the end index unset, zero or negative it runs
    from the start index to the end of the list; with a positive end index
    it holds the candles from the start index up to, not including, the
    end index, as far as the list goes, so it is empty when the end index
    is not beyond the start index. *)
Theorem visibleData_slice (visibleStartIndex : Z) (data : list OrderFlowCandle) :
  (forall e, (length (Stats.visibleData visibleStartIndex e data) <= length data)%nat) /\
  ((0 <= visibleStartIndex)%Z ->
   Stats.visibleData visibleStartIndex None data
   = skipn (Z.to_nat visibleStartIndex) data /\
   (forall e : Z, (e <= 0)%Z ->
      Stats.visibleData visibleStartIndex (Some e) data
      = skipn (Z.to_nat visibleStartIndex) data) /\
   (forall e : Z, (0 < e)%Z ->
      Stats.visibleData visibleStartIndex (Some e) data
      = firstn (Z.to_nat (e - visibleStartIndex))
               (skipn (Z.to_nat visibleStartIndex) data)) /\
   (forall e : Z, (0 < e <= visibleStartIndex)%Z ->
      Stats.visibleData visibleStartIndex (Some e) data = [])).
Proof.
  split.
  - intro e. unfold Stats.visibleData, JSArray.slice. apply firstn_skipn_length.
  - intro Hs.
    assert (Hall : Stats.visibleData visibleStartIndex None data
                   = skipn (Z.to_nat visibleStartIndex) data).
    { unfold Stats.visibleData, Stats.endIdxOf, JSArray.slice.
      set (len := Z.of_nat (length data)).
      rewrite (proj2 (Z.ltb_ge visibleStartIndex 0) Hs).
      rewrite (proj2 (Z.ltb_ge len 0)) by (unfold len; lia).
      rewrite (Z.min_l len len) by lia.
      destruct (Z_le_gt_dec visibleStartIndex len) as [Hle|Hgt].
      - rewrite Z.min_l by lia. apply firstn_all2.
        rewrite length_skipn. unfold len. lia.
      - rewrite Z.min_r by lia.
        rewrite !skipn_all2 by (unfold len in *; lia).
        now rewrite firstn_nil. }
    assert (Hpos : forall e : Z, (0 < e)%Z ->
              Stats.visibleData visibleStartIndex (Some e) data
              = firstn (Z.to_nat (e - visibleStartIndex))
                       (skipn (Z.to_nat visibleStartIndex) data)).
    { intros e He. unfold Stats.visibleData, Stats.endIdxOf, JSArray.slice.
      set (len := Z.of_nat (length data)).
      rewrite (Zgtb_true e 0 He).
      rewrite (proj2 (Z.ltb_ge visibleStartIndex 0) Hs).
      rewrite (proj2 (Z.ltb_ge e 0)) by lia.
      destruct (Z_le_gt_dec visibleStartIndex len) as [Hle|Hgt].
      - rewrite (Z.min_l visibleStartIndex len) by lia.
        destruct (Z_le_gt_dec e len) as [Hel|Hel].
        + now rewrite Z.min_l by lia.
        + rewrite Z.min_r by lia.
          rewrite !firstn_all2; [reflexivity | |];
            rewrite length_skipn; unfold len in *; lia.
      - rewrite (Z.min_r visibleStartIndex len) by lia.
        rewrite !skipn_all2 by (unfold len in *; lia).
        now rewrite !firstn_nil. }
    split; [exact Hall|]. split; [|split; [exact Hpos|]].
    + intros e He. rewrite <- Hall.
      unfold Stats.visibleData, Stats.endIdxOf.
      now rewrite (Zgtb_false e 0 He).
    + intros e [He Hes]. rewrite (Hpos e He).
      replace (Z.to_nat (e - visibleStartIndex)) with 0%nat by lia. reflexivity.
Qed.

(** ** The page's list and the aggregator's sequence *)

Lemma insertSorted_last (x : OrderFlowCandle) (acc : list OrderFlowCandle) :
  Forall (fun y => (timestamp y < timestamp x)%Z) acc ->
  JSArray.insertSorted timeNotAfter x acc = acc ++ [x].
Proof.
  induction 1 as [|y acc Hy _ IH]; simpl; [reflexivity|].
  unfold timeNotAfter at 1. rewrite (proj2 (Z.leb_le _ _)) by lia.
  now rewrite IH.
Qed.

Lemma sortBy_ascending_from (l acc : list OrderFlowCandle) :
  ascendingTimes (acc ++ l) ->
  fold_left (fun sorted x => JSArray.insertSorted timeNotAfter x sorted) l acc = acc ++ l.
Proof.
  revert acc. induction l as [|x l IH]; intros acc H; simpl.
  - now rewrite app_nil_r.
  - rewrite insertSorted_last by (exact (StronglySorted_before _ _ _ _ H)).
    rewrite IH; rewrite <- app_assoc; [reflexivity | exact H].
Qed.

Lemma sortBy_ascending (l : list OrderFlowCandle) :
  ascendingTimes l -> JSArray.sortBy timeNotAfter l = l.
Proof. intro H. exact (sortBy_ascending_from l [] H). Qed.

Lemma ascending_snoc (data : list OrderFlowCandle) (c : OrderFlowCandle) :
  ascendingTimes data -> Forall (fun x => (timestamp x < timestamp c)%Z) data ->
  ascendingTimes (data ++ [c]).
Proof.
  unfold ascendingTimes. induction 1 as [|a l Hs IH Ha]; intro Hlt; simpl.
  - repeat constructor.
  - inversion Hlt as [|? ? Hac Hl]; subst.
    constructor; [now apply IH|].
    apply Forall_app. split; [exact Ha | now repeat constructor].
Qed.

Lemma ascending_init (data : list OrderFlowCandle) (c : OrderFlowCandle) :
  ascendingTimes (data ++ [c]) ->
  ascendingTimes data /\ Forall (fun x => (timestamp x < timestamp c)%Z) data.
Proof.
  intro H. split; [|exact (StronglySorted_before _ _ _ _ H)].
  unfold ascendingTimes in *. induction data as [|a l IH]; [constructor|].
  simpl in H. inversion H as [|? ? Hs Ha]; subst.
  constructor; [now apply IH|].
  apply Forall_app in Ha. tauto.
Qed.

Lemma mergeCandle_replace_last (closed : list OrderFlowCandle) (c c' : OrderFlowCandle) :
  ascendingTimes (closed ++ [c]) -> timestamp c' = timestamp c ->
  Page.mergeCandle c' (closed ++ [c]) = closed ++ [c'].
Proof.
  intros Hasc Ets. destruct (ascending_init _ _ Hasc) as [Hclosed Hlt].
  unfold Page.mergeCandle, JSArray.findIndex.
  rewrite findIndexFrom_skip.
  - simpl. rewrite Ets, Z.eqb_refl.
    replace (Z.of_nat (length closed) >=? 0)%Z with true
      by (symmetry; apply Z.geb_le; lia).
    rewrite Nat2Z.id, setAt_middle.
    apply (sortBy_ascending (closed ++ [c'])). apply ascending_snoc; [exact Hclosed|].
    rewrite Ets. exact Hlt.
  - eapply Forall_impl; [|exact Hlt]. intros x Hx. cbv beta in Hx |- *.
    apply Z.eqb_neq. lia.
Qed.

Lemma mergeCandle_push (data : list OrderFlowCandle) (c' : OrderFlowCandle) :
  ascendingTimes data -> Forall (fun x => (timestamp x < timestamp c')%Z) data ->
  (length data < 200)%nat ->
  Page.mergeCandle c' data = data ++ [c'].
Proof.
  intros Hasc Hlt Hlen.
  unfold Page.mergeCandle, JSArray.findIndex.
  destruct (findIndexFrom_cases (fun c => (timestamp c =? timestamp c')%Z) data 0)
    as [[Hr _]|(xs & y & zs & El & _ & Hy & _)].
  - rewrite Hr. simpl.
    replace (200 <? length (data ++ [c']))%nat with false.
    + apply sortBy_ascending. now apply ascending_snoc.
    + symmetry. apply Nat.ltb_ge. rewrite length_app. simpl. lia.
  - exfalso. subst data. rewrite Forall_forall in Hlt.
    specialize (Hlt y ltac:(apply in_or_app; right; now left)).
    apply Z.eqb_eq in Hy. lia.
Qed.

Lemma mergeAll_app (e1 e2 : list Emitted) (data : list OrderFlowCandle) :
  Page.mergeAll (e1 ++ e2) data = Page.mergeAll e2 (Page.mergeAll e1 data).
Proof. unfold Page.mergeAll. apply fold_left_app. Qed.

Lemma processTrades_stays_open (trades : list BybitTrade) :
  forall st : Connector,
    currentCandle st <> None -> currentCandle (fst (processTrades st trades)) <> None.
Proof.
  induction trades as [|trade rest IH]; intros st H; [exact H|].
  rewrite processTrades_cons. simpl fst. apply IH.
  destruct (processTrade_updates st trade) as [[Hn _]|(c & Hc & _)];
    [contradiction | congruence].
Qed.

Lemma candlesOf_open_length (st : Connector) (trades : list BybitTrade) :
  currentCandle st <> None -> (1 <= length (candlesOf (processTrades st trades)))%nat.
Proof.
  intro H. pose proof (processTrades_stays_open trades st H) as Hopen.
  unfold candlesOf. rewrite length_app.
  destruct (currentCandle (fst (processTrades st trades))); [simpl; lia | congruence].
Qed.

(** X28: the page shows the aggregator's sequence.  Let the page's list
    be some closed candles followed by the aggregator's open candle (if
    any), with strictly ascending open times none later than
    [candleStartTime].  After a run of trades whose every emitted candle
    is merged in turn, and as long as the list stays within 200 candles,
    the page's list is those closed candles followed by the candle
    sequence of the run: the candles the run closed and its open candle. *)
Theorem page_list_follows_run (trades : list BybitTrade) :
  forall (st : Connector) (closed : list OrderFlowCandle),
    ascendingTimes (closed ++ openList st) ->
    Forall (fun c => (timestamp c <= candleStartTime st)%Z) (closed ++ openList st) ->
    (length (closed ++ candlesOf (processTrades st trades)) <= 200)%nat ->
    Page.mergeAll (snd (processTrades st trades)) (closed ++ openList st)
    = closed ++ candlesOf (processTrades st trades).
Proof.
  induction trades as [|trade rest IH]; intros st closed Hasc Hle Hlen.
  - reflexivity.
  - rewrite candlesOf_cons in Hlen |- *. rewrite processTrades_cons. simpl snd.
    rewrite mergeAll_app.
    set (start := bucketStart (getTimeframeMs (timeframe st)) (tr_T trade)) in *.
    destruct (Z_le_gt_dec start (candleStartTime st)) as [Hno|Hroll].
    + rewrite (processTrade_no_rollover st trade Hno) in Hlen |- *.
      unfold openList in *.
      destruct (currentCandle st) as [c|] eqn:Ec; simpl fst in *; simpl snd in *.
      * simpl finalized in *. simpl app at 1 in Hlen. cbn [app].
        unfold Page.mergeAll at 2. simpl fold_left.
        rewrite (mergeCandle_replace_last closed c (applyTrade trade c) Hasc eq_refl).
        destruct (ascending_init _ _ Hasc) as [Hclosed Hlt].
        apply Forall_app in Hle. destruct Hle as [Hle1 Hle2].
        inversion Hle2 as [|? ? Hc _]; subst.
        apply (IH (mkConnector (Some (applyTrade trade c)) (timeframe st)
                               (candleStartTime st)) closed).
        -- unfold openList. simpl. now apply ascending_snoc.
        -- unfold openList. simpl. apply Forall_app. split; [exact Hle1|].
           now repeat constructor.
        -- exact Hlen.
      * simpl finalized in *. cbn [app] in *.
        unfold Page.mergeAll at 2. simpl fold_left.
        specialize (IH st closed). unfold openList in IH. rewrite Ec in IH.
        now apply IH.
    + assert (Hroll' : (candleStartTime st < start)%Z) by lia.
      rewrite (processTrade_rollover st trade Hroll') in Hlen |- *.
      fold start in Hlen |- *. simpl fst in *. simpl snd in *.
      set (c1 := applyTrade trade (newCandle start trade (currentCandle st))) in *.
      set (st1 := mkConnector (Some c1) (timeframe st) start) in *.
      assert (Hts1 : timestamp c1 = start).
      { apply (applyTrade_fresh_ohlc start trade (currentCandle st)). }
      assert (Hopen1 : (1 <= length (candlesOf (processTrades st1 rest)))%nat).
      { apply candlesOf_open_length. discriminate. }
      rewrite finalized_app in Hlen |- *. simpl finalized at 2 in Hlen.
      simpl finalized at 2. rewrite app_nil_r in Hlen |- *.
      assert (Hbelow : Forall (fun x => (timestamp x < timestamp c1)%Z)
                              (closed ++ openList st)).
      { eapply Forall_impl; [|exact Hle]. intros x Hx. cbv beta in Hx. lia. }
      unfold openList in *.
      destruct (currentCandle st) as [c|] eqn:Ec.
      * simpl finalized in *.
        change ([Finalized c] ++ [Updated c1]) with [Finalized c; Updated c1].
        unfold Page.mergeAll at 2. simpl fold_left.
        rewrite (mergeCandle_replace_last closed c c Hasc eq_refl).
        rewrite !length_app in Hlen. simpl length in Hlen.
        rewrite mergeCandle_push;
          [| exact Hasc | exact Hbelow | rewrite length_app; simpl; lia].
        rewrite <- app_assoc.
        change ([c] ++ candlesOf (processTrades st1 rest))
          with (c :: candlesOf (processTrades st1 rest)).
        replace (closed ++ c :: candlesOf (processTrades st1 rest))
          with ((closed ++ [c]) ++ candlesOf (processTrades st1 rest))
          by (now rewrite <- app_assoc).
        replace (closed ++ [c] ++ [c1]) with ((closed ++ [c]) ++ [c1])
          by (now rewrite <- app_assoc).
        apply (IH st1 (closed ++ [c])).
        -- unfold openList, st1. simpl. now apply ascending_snoc.
        -- unfold openList, st1. simpl. apply Forall_app. split.
           ++ eapply Forall_impl; [|exact Hle]. intros x Hx. cbv beta in Hx |- *. lia.
           ++ repeat constructor. lia.
        -- rewrite !length_app. simpl length. lia.
      * simpl finalized in *. cbn [app] in Hlen |- *.
        rewrite app_nil_r in *.
        unfold Page.mergeAll at 2. simpl fold_left.
        rewrite !length_app in Hlen.
        rewrite mergeCandle_push; [| exact Hasc | exact Hbelow | lia].
        apply (IH st1 closed).
        -- unfold openList, st1. simpl. now apply ascending_snoc.
        -- unfold openList, st1. simpl. apply Forall_app. split.
           ++ eapply Forall_impl; [|exact Hle]. intros x Hx. cbv beta in Hx |- *. lia.
           ++ repeat constructor. lia.
        -- rewrite !length_app. lia.
Qed.

Lemma page_list_follows_run_witness :
  let closed := [mkCandle 0 100 101 99 100 [mkLevel 100 5 5] 0 10 (Some 0)] in
  let lastCandle := mkCandle 900000 100 102 100 101 [mkLevel 101 2 1] 1 3 (Some 1) in
  let st := subscribeRealtime tf_15m 900500 (Some lastCandle) in
  let trades := [mkTrade 900600 "Buy" 100 1; mkTrade 1800000 "Sell" 99 2;
                 mkTrade 1800001 "Buy" 98 1] in
  Page.mergeAll (snd (processTrades st trades)) (closed ++ openList st)
  = closed ++ candlesOf (processTrades st trades).
Proof.
  apply (page_list_follows_run
           [mkTrade 900600 "Buy" 100 1; mkTrade 1800000 "Sell" 99 2;
            mkTrade 1800001 "Buy" 98 1]
           (subscribeRealtime tf_15m 900500
              (Some (mkCandle 900000 100 102 100 101 [mkLevel 101 2 1] 1 3 (Some 1))))
           [mkCandle 0 100 101 99 100 [mkLevel 100 5 5] 0 10 (Some 0)]).
  - unfold ascendingTimes, openList. simpl. repeat constructor.
  - unfold openList. simpl.
    apply Forall_cons; [vm_compute; discriminate|].
    apply Forall_cons; [vm_compute; discriminate | apply Forall_nil].
  - apply Nat.leb_le. vm_compute. reflexivity.
Defined.
